(** * STT: capture-and-mix, recognition wrapper and batch file pipeline

    A shallow embedding of [audio_engine.py], [transcription_engine.py],
    [file_transcriber.py], [autosave.py], the stored sources of
    [settings.py], the worker and the controller of [main.py] and the
    settings dialog of [ui.py], with the properties of the
    natural-language specification stated over it.

    Python values are modelled as follows.
    - [int] is [Z]; [float] is the kernel's binary64 [float] (the same
      IEEE 754 format CPython uses), so every product and quotient below is
      rounded exactly as the interpreter rounds it;
    - [bytes] is [list byte]; [str] is [string];
    - a call that may raise returns a [result]; an object that is mutated is
      passed in and handed back. *)

From Stdlib Require Import ZArith QArith Qround List Sorted Lia Bool String Ascii.
From Stdlib Require Import Permutation.
From Stdlib Require Import Strings.Byte.
From Stdlib Require Import Floats.
From Stdlib Require Import Reals Lra.
From Stdlib Require Uint63.
Import ListNotations.

Local Open Scope string_scope.
Local Open Scope list_scope.
Local Open Scope Z_scope.

(** ** Python prelude *)

Module Py.

(** The exceptions the modelled code can meet. *)
Inductive exn : Type :=
| OSError
| OverflowError                (* int(inf) *)
| ValueError                   (* int(nan) *)
| IndexError
| StructError                  (* struct.error *)
| RuntimeError (msg : string)
| Exception (msg : string)     (* raised by the speech engine *)
| AttributeError (msg : string).

Inductive result (A : Type) : Type :=
| Ok (a : A)
| Raise (e : exn).
Arguments Ok {A} a.
Arguments Raise {A} e.

Definition bind {A B : Type} (r : result A) (k : A -> result B) : result B :=
  match r with
  | Ok a => k a
  | Raise e => Raise e
  end.

(** [str(e)] *)
Definition str_of_exn (e : exn) : string :=
  match e with
  | OSError => "OSError"
  | OverflowError => "cannot convert float infinity to integer"
  | ValueError => "cannot convert float NaN to integer"
  | IndexError => "list index out of range"
  | StructError => "unpack requires a buffer of 8000 bytes"
  | RuntimeError msg => msg
  | Exception msg => msg
  | AttributeError msg => msg
  end.

(** [float(z)], exact for [|z| < 2^53]. *)
Definition float_of_int (z : Z) : float :=
  match z with
  | Z0 => PrimFloat.zero
  | Zpos _ => PrimFloat.of_uint63 (Uint63.of_Z z)
  | Zneg _ => PrimFloat.opp (PrimFloat.of_uint63 (Uint63.of_Z (Z.opp z)))
  end.

(** The integer part of [(-1)^s * m * 2^e], towards zero. *)
Definition trunc_finite (s : bool) (m : positive) (e : Z) : Z :=
  let a := match e with
           | Z0 => Zpos m
           | Zpos _ => Z.shiftl (Zpos m) e
           | Zneg k => Z.shiftr (Zpos m) (Zpos k)
           end in
  if s then Z.opp a else a.

(** [int(x)] of a float: truncation towards zero; infinities and NaN raise. *)
Definition int_of_float (x : float) : result Z :=
  match Prim2SF x with
  | S754_zero _ => Ok 0
  | S754_finite s m e => Ok (trunc_finite s m e)
  | S754_infinity _ => Raise OverflowError
  | S754_nan => Raise ValueError
  end.

(** [s * gain] with [s] an int and [gain] a float. *)
Definition int_mul_float (s : Z) (gain : float) : float :=
  PrimFloat.mul (float_of_int s) gain.

(** [a / b] on ints (true division), for operands below [2^53]. *)
Definition truediv (a b : Z) : float :=
  PrimFloat.div (float_of_int a) (float_of_int b).

(** [str.isspace] on the code points below 256. *)
Definition isspace (c : ascii) : bool :=
  let n := N_of_ascii c in
  ((9 <=? n) && (n <=? 13) || (28 <=? n) && (n <=? 32)
   || (n =? 133) || (n =? 160))%N.

Fixpoint lstrip (s : string) : string :=
  match s with
  | EmptyString => EmptyString
  | String c rest => if isspace c then lstrip rest else s
  end.

(** [rstrip], by one pass from the right end. *)
Fixpoint rstrip (s : string) : string :=
  match s with
  | EmptyString => EmptyString
  | String c rest =>
      match rstrip rest with
      | EmptyString => if isspace c then EmptyString else String c EmptyString
      | r => String c r
      end
  end.

(** [s.strip()] *)
Definition strip (s : string) : string := rstrip (lstrip s).

(** [x if x else None] on a string. *)
Definition nonempty_or_None (s : string) : option string :=
  match s with
  | EmptyString => None
  | _ => Some s
  end.

End Py.
Import Py.

Notation "x <- r ;; k" := (Py.bind r (fun x => k))
  (at level 61, r at next level, right associativity).

(** ** [struct]: little-endian signed 16-bit packing *)

Module Struct.

(** One ["<h"] item. *)
Definition unpack_h (lo hi : byte) : Z :=
  let u := Z.of_N (Byte.to_N lo) + 256 * Z.of_N (Byte.to_N hi) in
  if u <? 32768 then u else u - 65536.

Definition byte_of_Z (z : Z) : byte :=
  match Byte.of_N (Z.to_N z) with
  | Some b => b
  | None => x00
  end.

Definition pack_h (v : Z) : result (list byte) :=
  if (-32768 <=? v) && (v <=? 32767)
  then let u := v mod 65536 in Ok [byte_of_Z (u mod 256); byte_of_Z (u / 256)]
  else Raise StructError.

Fixpoint unpack_items (raw : list byte) : list Z :=
  match raw with
  | lo :: hi :: rest => unpack_h lo hi :: unpack_items rest
  | _ => []
  end.

(** [struct.unpack(f"<{n}h", raw)] *)
Definition unpack (n : nat) (raw : list byte) : result (list Z) :=
  if Nat.eqb (List.length raw) (2 * n) then Ok (unpack_items raw)
  else Raise StructError.

Fixpoint pack_items (vals : list Z) : result (list byte) :=
  match vals with
  | [] => Ok []
  | v :: rest =>
      b <- pack_h v ;;
      bs <- pack_items rest ;;
      Ok (b ++ bs)
  end.

(** [struct.pack(f"<{n}h", *vals)] *)
Definition pack (n : nat) (vals : list Z) : result (list byte) :=
  if Nat.eqb (List.length vals) n then pack_items vals else Raise StructError.

End Struct.

(** ** audio_engine.py *)

Definition SAMPLE_RATE : Z := 16000.
Definition CHANNELS : Z := 1.
Definition CHUNK_SIZE : nat := 4000.
Definition BYTES_PER_SAMPLE : nat := 2.

(** Clamp an integer to int16 range. *)
Definition _clamp16 (value : Z) : Z := Z.max (-32768) (Z.min 32767 value).

(** A [pyaudio.Stream] object, by identity. *)
Definition Stream : Type := nat.

(** What the audio layer answers at one moment.  [None] stands for the call
    raising [OSError], the only exception the engine catches. *)
Record Host : Type := {
  (* [pa.open(..., input_device_index=d)], as the [n]-th stream created *)
  open_raises : nat -> Z -> bool;
  (* [stream.is_active()] *)
  is_active : Stream -> option bool;
  (* [stream.stop_stream()] *)
  stop_raises : Stream -> bool;
  (* [stream.close()] *)
  close_raises : Stream -> bool;
  (* [stream.read(CHUNK_SIZE, exception_on_overflow=False)] *)
  read : Stream -> option (list byte)
}.

(** The calls made on the audio layer, in order. *)
Inductive call : Type :=
| Call_open (device_index : Z)
| Call_is_active (s : Stream)
| Call_stop_stream (s : Stream)
| Call_close (s : Stream).

(** The audio layer's own state: how many streams were ever created, which
    of them are open, and the calls it has received. *)
Record PortAudio : Type := {
  created : nat;
  live : list Stream;
  calls : list call
}.

Definition log (c : call) (w : PortAudio) : PortAudio :=
  {| created := created w; live := live w; calls := calls w ++ [c] |}.

Definition new_stream (w : PortAudio) : Stream * PortAudio :=
  (created w,
   {| created := S (created w); live := live w ++ [created w];
      calls := calls w |}).

Definition drop_stream (s : Stream) (w : PortAudio) : PortAudio :=
  {| created := created w;
     live := filter (fun t => negb (Nat.eqb t s)) (live w);
     calls := calls w |}.

(** One entry of [sources]: [{"device_index": int, "gain": float,
    "enabled": bool}], the last two read with [dict.get] and a default. *)
Record Source : Type := {
  device_index : Z;
  gain : option float;
  enabled : option bool
}.

Definition get {A : Type} (field : option A) (default : A) : A :=
  match field with
  | Some v => v
  | None => default
  end.

(** The fields of an [AudioEngine]. *)
Record AudioEngine : Type := {
  _pa : bool;                           (* [self._pa is not None] *)
  _streams : list (Stream * float)
}.

Module AudioEngine_.

Definition __init__ : AudioEngine := {| _pa := false; _streams := [] |}.

Definition init (self : AudioEngine) : AudioEngine :=
  {| _pa := true; _streams := _streams self |}.

(** The body of the loop of [close_streams], for one stream. *)
Definition close_one (h : Host) (w : PortAudio) (stream : Stream)
  : PortAudio :=
  let w := log (Call_is_active stream) w in
  match is_active h stream with
  | None => w                                   (* except OSError: pass *)
  | Some active =>
      let stopped :=
        if active
        then (log (Call_stop_stream stream) w, stop_raises h stream)
        else (w, false) in
      let '(w, raised) := stopped in
      if raised then w
      else
        let w := log (Call_close stream) w in
        if close_raises h stream then w else drop_stream stream w
  end.

(** Stop and close all open audio streams. *)
Definition close_streams (h : Host) (w : PortAudio) (self : AudioEngine)
  : PortAudio * AudioEngine :=
  (fold_left (fun w sg => close_one h w (fst sg)) (_streams self) w,
   {| _pa := _pa self; _streams := [] |}).

(** The loop of [open_streams] over [sources]. *)
Fixpoint open_each (h : Host) (sources : list Source) (w : PortAudio)
  (streams : list (Stream * float)) : PortAudio * list (Stream * float) :=
  match sources with
  | [] => (w, streams)
  | src :: rest =>
      if negb (get (enabled src) false) then open_each h rest w streams
      else
        let g := get (gain src) 1%float in
        let w := log (Call_open (device_index src)) w in
        if open_raises h (created w) (device_index src)
        then open_each h rest w streams         (* except OSError: continue *)
        else
          let '(stream, w) := new_stream w in
          open_each h rest w (streams ++ [(stream, g)])
  end.

Definition no_streams_msg : string :=
  "No audio streams could be opened. Check your device settings.".

(** Open an audio input stream for each enabled source. *)
Definition open_streams (h : Host) (sources : list Source)
  (w : PortAudio) (self : AudioEngine)
  : PortAudio * AudioEngine * result unit :=
  let self := init self in
  let '(w, self) := close_streams h w self in
  let '(w, streams) := open_each h sources w (_streams self) in
  let self := {| _pa := _pa self; _streams := streams |} in
  match streams with
  | [] => (w, self, Raise (RuntimeError no_streams_msg))
  | _ => (w, self, Ok tt)
  end.

(** [for i, s in enumerate(samples): mixed[i] += int(s * gain)] *)
Fixpoint add_gained (mixed samples : list Z) (g : float)
  : result (list Z) :=
  match samples, mixed with
  | [], _ => Ok mixed
  | s :: samples', m :: mixed' =>
      c <- int_of_float (int_mul_float s g) ;;
      rest <- add_gained mixed' samples' g ;;
      Ok ((m + c) :: rest)
  | _ :: _, [] => Raise IndexError
  end.

(** The loop of [read_and_mix] over [self._streams]. *)
Fixpoint mix_each (h : Host) (streams : list (Stream * float))
  (mixed : list Z) : result (list Z) :=
  match streams with
  | [] => Ok mixed
  | (stream, g) :: rest =>
      match is_active h stream with
      | None | Some false => mix_each h rest mixed
      | Some true =>
          match read h stream with
          | None => mix_each h rest mixed
          | Some raw =>
              samples <- Struct.unpack CHUNK_SIZE raw ;;
              mixed <- add_gained mixed samples g ;;
              mix_each h rest mixed
          end
      end
  end.

(** Read one chunk from every active stream, apply gain, and mix. *)
Definition read_and_mix (h : Host) (self : AudioEngine)
  : result (list byte) :=
  match _streams self with
  | [] => Ok []
  | _ =>
      mixed <- mix_each h (_streams self) (repeat 0 CHUNK_SIZE) ;;
      Struct.pack CHUNK_SIZE (map _clamp16 mixed)
  end.

End AudioEngine_.

(** ** The speech engine (vosk), at its boundary *)

(** A parsed result object of the engine: [json.loads(...)], of which only
    the optional fields ["text"] and ["partial"] are read. *)
Record json : Type := {
  j_text : option string;
  j_partial : option string
}.

(** A [KaldiRecognizer] over a state [RS].  Feeding a waveform may raise. *)
Record KaldiRecognizer (RS : Type) : Type := {
  AcceptWaveform : RS -> list byte -> result (RS * bool);
  Result : RS -> RS * json;
  PartialResult : RS -> RS * json;
  FinalResult : RS -> RS * json
}.
Arguments AcceptWaveform {RS} _ _ _.
Arguments Result {RS} _ _.
Arguments PartialResult {RS} _ _.
Arguments FinalResult {RS} _ _.

(** ** transcription_engine.py *)

Module TranscriptionEngine.
Section Engine.

Context {RS : Type} (recognizer : KaldiRecognizer RS).

(** Feed an audio chunk to the recognizer: [(final_text, partial_text)]. *)
Definition process_chunk (st : RS) (data : list byte)
  : result (RS * (option string * option string)) :=
  r <- AcceptWaveform recognizer st data ;;
  let '(st, accepted) := r in
  if accepted then
    let '(st, result) := Result recognizer st in
    let text := strip (get (j_text result) "") in
    Ok (st, (nonempty_or_None text, None))
  else
    let '(st, partial) := PartialResult recognizer st in
    let text := strip (get (j_partial partial) "") in
    Ok (st, (None, nonempty_or_None text)).

(** Get the final remaining text from the recognizer buffer. *)
Definition final_result (st : RS) : RS * option string :=
  let '(st, result) := FinalResult recognizer st in
  let text := strip (get (j_text result) "") in
  (st, nonempty_or_None text).

End Engine.
End TranscriptionEngine.

(** ** main.py: the capture worker *)

Module AudioWorker.

(** The signals of the worker. *)
Inductive signal : Type :=
| text_ready (text : string)
| partial_ready (text : string)
| error_occurred (msg : string).

(** What one iteration of [while self._running] observes: the pause flag
    and the audio layer.  The flags are written by the controlling thread;
    the worker runs one iteration per entry of its schedule and finds
    [_running] false after the last. *)
Record tick : Type := {
  paused : bool;
  host : Host
}.

(** How [run] ended, with what it emitted and left behind. *)
Record outcome (RS : Type) : Type := {
  emitted : list signal;
  audio : PortAudio;
  engine : AudioEngine;
  recognizer_state : RS;
  returned : result unit
}.
Arguments emitted {RS} _.
Arguments audio {RS} _.
Arguments engine {RS} _.
Arguments recognizer_state {RS} _.
Arguments returned {RS} _.

Section Worker.

Context {RS : Type} (recognizer : KaldiRecognizer RS).

(** The body of the loop for one tick that is not paused. *)
Definition capture_step (h : Host) (self : AudioEngine) (st : RS)
  : result (RS * list signal) :=
  data <- AudioEngine_.read_and_mix h self ;;
  match data with
  | [] => Ok (st, [])                            (* msleep(10); continue *)
  | _ =>
      r <- TranscriptionEngine.process_chunk recognizer st data ;;
      let '(st, (final, partial)) := r in
      match final, partial with
      | Some text, _ => Ok (st, [text_ready text])
      | None, Some text => Ok (st, [partial_ready text])
      | None, None => Ok (st, [])
      end
  end.

(** [while self._running: ...] *)
Fixpoint capture_loop (schedule : list tick) (self : AudioEngine) (st : RS)
  (out : list signal) : RS * list signal * result unit :=
  match schedule with
  | [] => (st, out, Ok tt)
  | t :: rest =>
      if paused t then capture_loop rest self st out   (* msleep(50) *)
      else
        match capture_step (host t) self st with
        | Raise e => (st, out, Raise e)
        | Ok (st, sigs) => capture_loop rest self st (out ++ sigs)
        end
  end.

(** Main capture loop: runs until [stop()] is called.  [opening] is the
    audio layer when the streams are opened, [closing] when they are
    closed. *)
Definition run (sources : list Source) (opening : Host)
  (schedule : list tick) (closing : Host)
  (w : PortAudio) (self : AudioEngine) (st : RS) : outcome RS :=
  match AudioEngine_.open_streams opening sources w self with
  | (w, self, Raise e) =>
      {| emitted := [error_occurred
                       ("Failed to open audio sources: " ++ str_of_exn e)%string];
         audio := w; engine := self; recognizer_state := st;
         returned := Ok tt |}
  | (w, self, Ok _) =>
      match capture_loop schedule self st [] with
      | (st, out, Raise e) =>
          {| emitted := out; audio := w; engine := self;
             recognizer_state := st; returned := Raise e |}
      | (st, out, Ok _) =>
          let '(st, remaining) :=
            TranscriptionEngine.final_result recognizer st in
          let out := match remaining with
                     | Some text => out ++ [text_ready text]
                     | None => out
                     end in
          let '(w, self) := AudioEngine_.close_streams closing w self in
          {| emitted := out; audio := w; engine := self;
             recognizer_state := st; returned := Ok tt |}
      end
  end.

End Worker.
End AudioWorker.

(** ** file_transcriber.py: the batch file pipeline *)

Module FileTranscriptionWorker.

Definition _SAMPLE_RATE : Z := 16000.
Definition _CHUNK_FRAMES : nat := 4000.

(** The signals of the worker. *)
Inductive signal : Type :=
| progress_updated (pct : Z)
| text_updated (text : string)
| finished_signal
| error_occurred (msg : string).

(** One frame of canonical PCM: mono, 16 bits, low byte first. *)
Definition frame : Type := (byte * byte)%type.

Definition bytes_of_frames (fs : list frame) : list byte :=
  flat_map (fun f => [fst f; snd f]) fs.

(** What the worker finds outside itself during one run. *)
Record env : Type := {
  (* [shutil.which("ffmpeg")] *)
  ffmpeg : option string;
  (* the conversion subprocess: [result.returncode], [result.stderr] *)
  returncode : Z;
  stderr : string;
  (* the frames of the WAV file the conversion wrote *)
  converted : list frame;
  (* [model_dir], [os.path.isdir(model_dir)], and whether
     [Model(model_dir)] raises *)
  model_dir : string;
  model_isdir : bool;
  model_raises : bool;
  (* [cancel()] is called from another thread: the reads of
     [self._is_cancelled] are numbered from 0, and [cancel_from = Some c]
     says the flag is found set from read number [c] on *)
  cancel_from : option nat;
  (* [os.remove(self._temp_wav)] raises [OSError] *)
  remove_raises : bool
}.

(** [self._is_cancelled], at its [poll]-th read. *)
Definition _is_cancelled (e : env) (poll : nat) : bool :=
  match cancel_from e with
  | Some c => Nat.leb c poll
  | None => false
  end.

(** The fields of the worker that change, and the temporary file. *)
Record worker : Type := {
  _temp_wav : option string;
  temp_file_exists : bool
}.

Definition __init__ : worker :=
  {| _temp_wav := None; temp_file_exists := false |}.

(** The path [tempfile.mkstemp(suffix=".wav")] returns. *)
Definition temp_path : string := "/tmp/tmp.wav".

Definition nl : string := String (ascii_of_nat 10) EmptyString.

Definition ffmpeg_missing_msg : string :=
  ("FFmpeg is not installed." ++ nl
   ++ "Install it with: brew install ffmpeg (macOS)" ++ nl
   ++ "or download from https://ffmpeg.org")%string.

Definition model_missing_msg (dir : string) : string :=
  ("Vosk model not found at: " ++ dir ++ nl
   ++ "Download from https://alphacephei.com/vosk/models")%string.

(** Convert the input file to 16 kHz mono WAV. *)
Definition _ensure_wav (e : env) (self : worker) : worker * result string :=
  match ffmpeg e with
  | None => (self, Raise (RuntimeError ffmpeg_missing_msg))
  | Some _ =>
      let self := {| _temp_wav := Some temp_path;
                     temp_file_exists := true |} in
      if returncode e =? 0 then (self, Ok temp_path)
      else (self, Raise (RuntimeError
              ("FFmpeg conversion failed:" ++ nl
               ++ substring 0 500 (stderr e))%string))
  end.

(** Delete temporary WAV file if it exists. *)
Definition _cleanup (e : env) (self : worker) : worker :=
  match _temp_wav self with
  | Some _ =>
      if temp_file_exists self then
        if remove_raises e
        then {| _temp_wav := None; temp_file_exists := true |}
        else {| _temp_wav := None; temp_file_exists := false |}
      else self
  | None => self
  end.

(** The successive non-empty results of [wf.readframes(n)]. *)
Fixpoint readframes_upto (fuel n : nat) (fs : list frame)
  : list (list frame) :=
  match fuel, fs with
  | _, [] => []
  | O, _ => []
  | S fuel, _ =>
      firstn n fs :: readframes_upto fuel n (skipn n fs)
  end.

Definition readframes_all (n : nat) (fs : list frame) : list (list frame) :=
  readframes_upto (List.length fs) n fs.

(** [min(int((frames_processed / total_frames) * 100), 100)] *)
Definition percent (frames_processed total_frames : Z) : result Z :=
  x <- int_of_float
         (PrimFloat.mul (truediv frames_processed total_frames) 100) ;;
  Ok (Z.min x 100).

Section Pipeline.

Context {RS : Type} (recognizer : KaldiRecognizer RS).

(** The [while True] loop.  [reads] are the reads still to come, [poll]
    numbers the next read of the cancellation flag.  [Ok true] is the
    [break], [Ok false] the [return] on cancellation. *)
Fixpoint chunk_loop (e : env) (total_frames : Z)
  (reads : list (list frame)) (poll : nat)
  (frames_processed last_pct : Z) (st : RS) (out : list signal)
  : list signal * result (RS * bool) :=
  if _is_cancelled e poll then (out, Ok (st, false))
  else
    match reads with
    | [] => (out, Ok (st, true))                 (* len(data) == 0 *)
    | data :: rest =>
        let frames_processed := frames_processed + Z.of_nat _CHUNK_FRAMES in
        match AcceptWaveform recognizer st (bytes_of_frames data) with
        | Raise ex => (out, Raise ex)
        | Ok (st, accepted) =>
            let '(st, out) :=
              if accepted then
                let '(st, result) := Result recognizer st in
                let text := strip (get (j_text result) "") in
                match text with
                | EmptyString => (st, out)
                | _ => (st, out ++ [text_updated text])
                end
              else (st, out) in
            match percent frames_processed total_frames with
            | Raise ex => (out, Raise ex)
            | Ok pct =>
                if negb (pct =? last_pct)
                then chunk_loop e total_frames rest (S poll)
                       frames_processed pct st
                       (out ++ [progress_updated pct])
                else chunk_loop e total_frames rest (S poll)
                       frames_processed last_pct st out
            end
        end
    end.

Definition _do_transcription (e : env) (fresh : RS) (self : worker)
  : worker * list signal * result unit :=
  (* Step 1 *)
  match _ensure_wav e self with
  | (self, Raise ex) => (self, [], Raise ex)
  | (self, Ok _) =>
      if _is_cancelled e 0 then (self, [], Ok tt)
      else
        (* Step 2 *)
        if negb (model_isdir e)
        then (self, [error_occurred (model_missing_msg (model_dir e))], Ok tt)
        else if model_raises e
        then (self, [], Raise (Exception "Failed to create a model"))
        else
          (* Step 3 *)
          let total_frames := Z.of_nat (List.length (converted e)) in
          if total_frames =? 0
          then (self, [error_occurred "Audio file is empty (0 frames)."],
                Ok tt)
          else
            match chunk_loop e total_frames
                    (readframes_all _CHUNK_FRAMES (converted e))
                    1 0 (-1) fresh [] with
            | (out, Raise ex) => (self, out, Raise ex)
            | (out, Ok (_, false)) => (self, out, Ok tt)
            | (out, Ok (st, true)) =>
                let '(_, final) := FinalResult recognizer st in
                let text := strip (get (j_text final) "") in
                let out := match text with
                           | EmptyString => out
                           | _ => out ++ [text_updated text]
                           end in
                (self, out ++ [progress_updated 100; finished_signal],
                 Ok tt)
            end
  end.

(** Thread entry point: [try ... except Exception ... finally]. *)
Definition run (e : env) (fresh : RS) (self : worker)
  : worker * list signal :=
  match _do_transcription e fresh self with
  | (self, out, Ok _) => (_cleanup e self, out)
  | (self, out, Raise ex) =>
      (_cleanup e self, out ++ [error_occurred (str_of_exn ex)])
  end.

End Pipeline.
End FileTranscriptionWorker.

(** ** Auxiliary definitions used by the statements *)

(** Every character of [s] is white space. *)
Fixpoint all_space (s : string) : bool :=
  match s with
  | EmptyString => true
  | String c rest => isspace c && all_space rest
  end.

(** [range(lo, lo + n)] *)
Fixpoint zrange (lo : Z) (n : nat) : list Z :=
  match n with
  | O => []
  | S k => lo :: zrange (lo + 1) k
  end.

(** The source is enabled: [src.get("enabled", False)]. *)
Definition is_enabled (src : Source) : bool := get (enabled src) false.

(** ** Fixtures: small recognizers and hosts to run the model on *)

Definition no_json : json := {| j_text := None; j_partial := None |}.

(** An engine that never finds an utterance boundary and hears nothing. *)
Definition deaf : KaldiRecognizer unit :=
  {| AcceptWaveform := fun st _ => Ok (st, false);
     Result := fun st => (st, no_json);
     PartialResult := fun st => (st, no_json);
     FinalResult := fun st => (st, no_json) |}.

(** An engine that ends an utterance at every chunk and reports blanks. *)
Definition blank : KaldiRecognizer unit :=
  {| AcceptWaveform := fun st _ => Ok (st, true);
     Result := fun st => (st, {| j_text := Some "  "; j_partial := None |});
     PartialResult := fun st => (st, no_json);
     FinalResult := fun st => (st, no_json) |}.

(** The calls [close_streams] makes for one stream, read off the host. *)
Definition close_calls (h : Host) (s : Stream) : list call :=
  Call_is_active s ::
  match is_active h s with
  | None => []
  | Some true =>
      Call_stop_stream s :: (if stop_raises h s then [] else [Call_close s])
  | Some false => [Call_close s]
  end.

(** [close_streams] gets as far as a successful [close()] on [s]. *)
Definition closes_cleanly (h : Host) (s : Stream) : bool :=
  match is_active h s with
  | None => false
  | Some true => negb (stop_raises h s) && negb (close_raises h s)
  | Some false => negb (close_raises h s)
  end.

(** The loop of [close_streams] over the engine's streams. *)
Definition close_all (h : Host) (w : PortAudio)
    (streams : list (Stream * float)) : PortAudio :=
  fold_left (fun w sg => AudioEngine_.close_one h w (fst sg)) streams w.

(** The [open] calls [open_streams] makes for [sources]. *)
Definition open_calls (sources : list Source) : list call :=
  map (fun src => Call_open (device_index src)) (filter is_enabled sources).

(** A source as the settings dialog stores it. *)
Definition mic (d : Z) (g : float) (on : bool) : Source :=
  {| device_index := d; gain := Some g; enabled := Some on |}.

(** An audio layer on which nothing fails and nothing is delivered. *)
Definition quiet_host : Host :=
  {| open_raises := fun _ _ => false;
     is_active := fun _ => Some true;
     stop_raises := fun _ => false;
     close_raises := fun _ => false;
     read := fun _ => None |}.

(** Every device is busy. *)
Definition busy_host : Host :=
  {| open_raises := fun _ _ => true;
     is_active := fun _ => Some true;
     stop_raises := fun _ => false;
     close_raises := fun _ => false;
     read := fun _ => None |}.

(** The streams are running and refuse to stop. *)
Definition stuck_host : Host :=
  {| open_raises := fun _ _ => false;
     is_active := fun _ => Some true;
     stop_raises := fun _ => true;
     close_raises := fun _ => false;
     read := fun _ => None |}.

Definition fresh_audio : PortAudio :=
  {| created := 0; live := []; calls := [] |}.

(** The state after a first, successful [open_streams] on device 0. *)
Definition first_opened : PortAudio * AudioEngine :=
  fst (AudioEngine_.open_streams quiet_host [mic 0 1 true]
         fresh_audio AudioEngine_.__init__).

(** C7 as the specification words it: once [open_streams] is over, every
    handle the engine held before the call has been closed. *)
Definition closes_every_previous_handle (h : Host) (sources : list Source)
    (w : PortAudio) (self : AudioEngine) : Prop :=
  forall s, In s (map fst (_streams self)) ->
            ~ In s (live (fst (fst (AudioEngine_.open_streams h sources w self)))).

(** [int(s * gain)] as a number: the value [read_and_mix] adds for sample
    [s] of a handle with gain [g] (0 stands in where [int] raises). *)
Definition gained (s : Z) (g : float) : Z :=
  match int_of_float (int_mul_float s g) with
  | Ok c => c
  | Raise _ => 0
  end.

(** The handles that deliver a frame in this cycle (active, and the read
    returns), each with its unpacked samples and its gain. *)
Fixpoint heard (h : Host) (streams : list (Stream * float))
  : list (list Z * float) :=
  match streams with
  | [] => []
  | (s, g) :: rest =>
      match is_active h s, read h s with
      | Some true, Some raw => (Struct.unpack_items raw, g) :: heard h rest
      | _, _ => heard h rest
      end
  end.

(** The frames delivered in this cycle, as raw bytes. *)
Fixpoint delivered (h : Host) (streams : list (Stream * float))
  : list (list byte) :=
  match streams with
  | [] => []
  | (s, g) :: rest =>
      match is_active h s, read h s with
      | Some true, Some raw => raw :: delivered h rest
      | _, _ => delivered h rest
      end
  end.

Definition zsum (l : list Z) : Z := fold_right Z.add 0 l.

(** The sum, before clamping, at sample position [i]. *)
Definition presum (hs : list (list Z * float)) (i : nat) : Z :=
  zsum (map (fun sg => gained (nth i (fst sg) 0) (snd sg)) hs).

Definition is_ok {A : Type} (r : result A) : bool :=
  match r with
  | Ok _ => true
  | Raise _ => false
  end.

(** Every frame delivered has [CHUNK_SIZE] samples of two bytes. *)
Definition full_frames (h : Host) (streams : list (Stream * float)) : bool :=
  forallb (fun raw => Nat.eqb (List.length raw) (2 * CHUNK_SIZE))
          (delivered h streams).

(** No product of a delivered sample with its gain is infinite or NaN. *)
Definition finite_products (h : Host) (streams : list (Stream * float))
  : bool :=
  forallb (fun sg =>
             forallb (fun s => is_ok (int_of_float (int_mul_float s (snd sg))))
                     (fst sg))
          (heard h streams).

(** ** The mixing rule in the words of the specification *)

(** The exact value of a float, as a rational (0 for infinities and NaN). *)
Definition Q_of_float (x : float) : Q :=
  match Prim2SF x with
  | S754_finite s m e =>
      let q := match e with
               | Z0 => inject_Z (Zpos m)
               | Zpos _ => inject_Z (Zpos m * 2 ^ e)
               | Zneg k => Qmake (Zpos m) (2 ^ k)%positive
               end in
      if s then Qopp q else q
  | _ => 0%Q
  end.

(** [round(v)]: the nearest integer, a tie going to the even neighbour. *)
Definition round (v : Q) : Z :=
  let f := Qfloor v in
  match Qcompare (v - inject_Z f) (1 # 2) with
  | Lt => f
  | Gt => f + 1
  | Eq => if Z.even f then f else f + 1
  end.

(** [clamp16(v) = max(-32768, min(32767, round(v)))] *)
Definition clamp16_spec (v : Q) : Z :=
  Z.max (-32768) (Z.min 32767 (round v)).

(** [mixed[i] = clamp16( sum over handles ( sample[i] * gain ) )] *)
Definition mixed_spec (hs : list (list Z * float)) (i : nat) : Z :=
  clamp16_spec
    (fold_right Qplus 0%Q
       (map (fun sg => (inject_Z (nth i (fst sg) 0%Z) * Q_of_float (snd sg))%Q)
            hs)).

(** [clamp16( sum of round(s_i * g_i) )] *)
Definition mixed_spec_per_source (hs : list (list Z * float)) (i : nat) : Z :=
  _clamp16
    (zsum (map (fun sg =>
                  round (inject_Z (nth i (fst sg) 0%Z) * Q_of_float (snd sg))%Q)
               hs)).

(** C1 as the specification words it: a cycle that returns a buffer gives,
    at every sample position, the value of both formulas. *)
Definition mixes_as_specified (h : Host) (self : AudioEngine) : Prop :=
  forall buf i,
    AudioEngine_.read_and_mix h self = Ok buf -> (i < CHUNK_SIZE)%nat ->
    nth i (Struct.unpack_items buf) 0
    = mixed_spec (heard h (_streams self)) i /\
    nth i (Struct.unpack_items buf) 0
    = mixed_spec_per_source (heard h (_streams self)) i.

(** A frame of [n] equal samples. *)
Fixpoint constant_frame (lo hi : byte) (n : nat) : list byte :=
  match n with
  | O => []
  | S k => lo :: hi :: constant_frame lo hi k
  end.

(** Every stream is running and delivers the frame [raw]. *)
Definition playing (raw : list byte) : Host :=
  {| open_raises := fun _ _ => false;
     is_active := fun _ => Some true;
     stop_raises := fun _ => false;
     close_raises := fun _ => false;
     read := fun _ => Some raw |}.

(** An engine holding stream 0 at gain [g]. *)
Definition one_stream (g : float) : AudioEngine :=
  {| _pa := true; _streams := [(0%nat, g)] |}.

(** Stream 0 fails to read; every other stream delivers [raw]. *)
Definition first_starved (raw : list byte) : Host :=
  {| open_raises := fun _ _ => false;
     is_active := fun _ => Some true;
     stop_raises := fun _ => false;
     close_raises := fun _ => false;
     read := fun s => match s with O => None | _ => Some raw end |}.


(** ** Reading the signals of a batch run *)

Module Batch.
Import FileTranscriptionWorker.

(** A terminal signal: completion or error (the worker has no signal
    for cancellation). *)
Definition terminal (s : signal) : bool :=
  match s with
  | finished_signal | error_occurred _ => true
  | _ => false
  end.

Definition is_finished (s : signal) : bool :=
  match s with
  | finished_signal => true
  | _ => false
  end.

(** The percentages of the progress signals, in order of emission. *)
Fixpoint progress_values (out : list signal) : list Z :=
  match out with
  | [] => []
  | progress_updated pct :: rest => pct :: progress_values rest
  | _ :: rest => progress_values rest
  end.

(** A run on [n] frames of silence whose conversion and model are fine. *)
Definition pcm_run (n : Z) (cancel : option nat) : env :=
  {| ffmpeg := Some "/usr/bin/ffmpeg";
     returncode := 0;
     stderr := "";
     converted := repeat (x00, x00) (Z.to_nat n);
     model_dir := "models/vosk-model-small-en-us-0.15";
     model_isdir := true;
     model_raises := false;
     cancel_from := cancel;
     remove_raises := false |}.

(** The same surroundings with cancellation never requested. *)
Definition never_cancelled (e : env) : env :=
  {| ffmpeg := ffmpeg e;
     returncode := returncode e;
     stderr := stderr e;
     converted := converted e;
     model_dir := model_dir e;
     model_isdir := model_isdir e;
     model_raises := model_raises e;
     cancel_from := None;
     remove_raises := remove_raises e |}.

(** C2 as the specification words it: the progress values of a run are
    strictly increasing, and a run over 8000 frames emits 50 then 100. *)
Definition progress_as_specified : Prop :=
  (forall e, StronglySorted Z.lt
               (progress_values (snd (run deaf e tt __init__)))) /\
  progress_values (snd (run deaf (pcm_run 8000 None) tt __init__))
  = [50; 100].

(** C3 as the specification words it: a run that does not complete
    normally emits exactly one terminal signal, and the temporary file is
    gone afterwards. *)
Definition one_terminal_event (e : env) : Prop :=
  let r := run deaf e tt __init__ in
  ~ In finished_signal (snd r) ->
  List.length (filter terminal (snd r)) = 1%nat /\
  temp_file_exists (fst r) = false.

(** The same surroundings with a temporary file that cannot be removed. *)
Definition undeletable (e : env) : env :=
  {| ffmpeg := ffmpeg e;
     returncode := returncode e;
     stderr := stderr e;
     converted := converted e;
     model_dir := model_dir e;
     model_isdir := model_isdir e;
     model_raises := model_raises e;
     cancel_from := cancel_from e;
     remove_raises := true |}.

(** C4 as the specification words it: cancellation requested after chunk
    [k] and before the next read of the flag leaves no completion signal,
    no progress signal of 100, and no temporary file. *)
Definition cancel_as_specified (e : env) (k : nat) : Prop :=
  cancel_from e = Some (S k) ->
  let r := run deaf e tt __init__ in
  ~ In finished_signal (snd r) /\
  ~ In (progress_updated 100) (snd r) /\
  temp_file_exists (fst r) = false.

(** Step 1 of [_do_transcription] went through: FFmpeg was found and the
    conversion exited with 0. *)
Definition converted_ok (e : env) : bool :=
  match ffmpeg e with
  | Some _ => returncode e =? 0
  | None => false
  end.

(** Every step before the [while True] loop went through: the conversion,
    no cancellation seen after it, the model directory present, the model
    loaded, and the audio not empty. *)
Definition reaches_loop (e : env) : bool :=
  converted_ok e && negb (_is_cancelled e 0) && model_isdir e
  && negb (model_raises e)
  && negb (Z.of_nat (List.length (converted e)) =? 0).

(** The [while True] loop of a run, as [_do_transcription] enters it. *)
Definition the_loop {RS : Type} (recognizer : KaldiRecognizer RS) (e : env)
    (fresh : RS) : list signal * result (RS * bool) :=
  chunk_loop recognizer e (Z.of_nat (List.length (converted e)))
    (readframes_all _CHUNK_FRAMES (converted e)) 1 0 (-1) fresh [].

(** What one chunk adds to the text: the final text of an utterance that
    ended in it, when it is not blank. *)
Definition chunk_text {RS : Type} (recognizer : KaldiRecognizer RS)
    (accepted : bool) (st : RS) : RS * list signal :=
  if accepted then
    let '(st, result) := Result recognizer st in
    match strip (get (j_text result) "") with
    | EmptyString => (st, [])
    | text => (st, [text_updated text])
    end
  else (st, []).

(** What one chunk adds to the progress: its percentage, when it differs
    from the last one emitted. *)
Definition chunk_progress (pct last_pct : Z) : list signal :=
  if pct =? last_pct then [] else [progress_updated pct].

End Batch.

(** ** Binary64 numbers as real numbers *)

(** [2^e], and the value of mantissa [m] at exponent [e]. *)
Definition bpow (e : Z) : R := powerRZ 2 e.
Definition F2R (m e : Z) : R := (IZR m * bpow e)%R.

(** [v] lies in the slice [[m * 2^e, (m + 1) * 2^e)] at location [l]. *)
Definition inbetween (m e : Z) (l : location) (v : R) : Prop :=
  match l with
  | loc_Exact => v = F2R m e
  | loc_Inexact Lt => (F2R m e < v < F2R (2 * m + 1) (e - 1))%R
  | loc_Inexact Eq => v = F2R (2 * m + 1) (e - 1)
  | loc_Inexact Gt => (F2R (2 * m + 1) (e - 1) < v < F2R (m + 1) e)%R
  end.

(** [m * 2^e] is a nearest binary64 number to [v], in the normal range:
    [M * 2^e1] is the same number written at the exponent of [v]'s binade. *)
Definition rounded (v : R) (m e : Z) : Prop :=
  2 ^ 52 <= m < 2 ^ 53 /\
  exists e1 M,
    F2R m e = F2R M e1 /\
    2 ^ 52 <= M <= 2 ^ 53 /\
    (bpow (e1 + 52) <= v < bpow (e1 + 53))%R /\
    (F2R M e1 - bpow (e1 - 1) <= v <= F2R M e1 + bpow (e1 - 1))%R.

(** The two floats behind [percent]: [frames_processed / total_frames] and
    that quotient times 100, as the specification of the float operations
    gives them. *)
Definition quotient_SF (x total : Z) : spec_float :=
  SF64div (Prim2SF (float_of_int x)) (Prim2SF (float_of_int total)).

Definition hundredfold_SF (x total : Z) : spec_float :=
  SF64mul (quotient_SF x total) (Prim2SF 100).

(** * The rest of the code: legacy API, devices, settings, autosave,
      controller *)

(** ** audio_engine.py: the remaining methods *)

(** What [get_device_info_by_index(i)] returns, as far as it is read:
    [info["name"]] and the optional [info["maxInputChannels"]]. *)
Record device_info : Type := {
  info_name : string;
  maxInputChannels : option Z
}.

(** An entry of the list [list_input_devices] returns:
    [{"index": i, "name": ..., "max_input_channels": ...}]. *)
Record Device : Type := {
  index : Z;
  name : string;
  max_input_channels : Z
}.

Module AudioEngine_rest.

(** Release all PyAudio resources.  The flag tells whether
    [self._pa.terminate()] was called. *)
Definition terminate (h : Host) (w : PortAudio) (self : AudioEngine)
  : PortAudio * AudioEngine * bool :=
  let '(w, self) := AudioEngine_.close_streams h w self in
  if _pa self
  then (w, {| _pa := false; _streams := _streams self |}, true)
  else (w, self, false).

(** [for i in range(count): ...], from index [i] on; [infos] are the
    answers of [get_device_info_by_index] for [i], [i + 1], ... *)
Fixpoint devices_from (i : Z) (infos : list device_info) : list Device :=
  match infos with
  | [] => []
  | info :: rest =>
      if 0 <? get (maxInputChannels info) 0
      then {| index := i; name := info_name info;
              max_input_channels := get (maxInputChannels info) 0 |}
           :: devices_from (i + 1) rest
      else devices_from (i + 1) rest
  end.

(** Return a list of available input (microphone) devices. *)
Definition list_input_devices (infos : list device_info)
  (self : AudioEngine) : AudioEngine * list Device :=
  (AudioEngine_.init self, devices_from 0 infos).

(** [device_index or 0] *)
Definition or_0 (device_index : option Z) : Z :=
  match device_index with
  | Some d => if d =? 0 then 0 else d
  | None => 0
  end.

(** Open a single audio input stream (legacy). *)
Definition open_stream (h : Host) (device_index : option Z)
  (w : PortAudio) (self : AudioEngine)
  : PortAudio * AudioEngine * result (option Stream) :=
  match AudioEngine_.open_streams h
          [mic (or_0 device_index) 1 true] w self with
  | (w, self, Raise e) => (w, self, Raise e)
  | (w, self, Ok _) =>
      (w, self,
       Ok match _streams self with
          | (stream, _) :: _ => Some stream
          | [] => None
          end)
  end.

(** Read from single stream (legacy). *)
Definition read_chunk (h : Host) (self : AudioEngine) : result (list byte) :=
  AudioEngine_.read_and_mix h self.

(** Close single stream (legacy). *)
Definition close_stream (h : Host) (w : PortAudio) (self : AudioEngine)
  : PortAudio * AudioEngine :=
  AudioEngine_.close_streams h w self.

End AudioEngine_rest.

(** A handle adds nothing in this cycle: it is not active, or its
    [is_active] or [read] raises [OSError], or its gain is 0.0 and its
    frame is full. *)
Definition adds_nothing (h : Host) (s : Stream) (g : float) : Prop :=
  is_active h s <> Some true \/ read h s = None \/
  (g = 0%float /\
   exists raw, read h s = Some raw /\ List.length raw = (2 * CHUNK_SIZE)%nat).


(** ** ui.py: one row of the audio sources list *)

Module AudioSourceRow.

(** The widgets of a row that hold state: the gain slider (its range is
    set to 0..200) and the check box. *)
Record row : Type := {
  row_device_index : Z;
  slider : Z;
  checkbox : bool
}.

(** [self.slider.setValue(v)] after [setRange(0, 200)]: an argument that
    does not fit a C int raises; the slider keeps the value within its
    range. *)
Definition setValue (v : Z) : result Z :=
  if (-2147483648 <=? v) && (v <=? 2147483647)
  then Ok (Z.max 0 (Z.min 200 v))
  else Raise OverflowError.

(** [AudioSourceRow(device_index, device_name, gain, enabled)] *)
Definition __init__ (device_index : Z) (gain : float) (enabled : bool)
  : result row :=
  pct <- int_of_float (PrimFloat.mul gain 100) ;;      (* int(gain * 100) *)
  v <- setValue pct ;;
  Ok {| row_device_index := device_index; slider := v; checkbox := enabled |}.

(** [self.slider.value() / 100.0] *)
Definition slider_gain (v : Z) : float :=
  PrimFloat.div (float_of_int v) 100.

Definition to_dict (r : row) : Source :=
  {| device_index := row_device_index r;
     gain := Some (slider_gain (slider r));
     enabled := Some (checkbox r) |}.

End AudioSourceRow.

(** The slider positions that do not survive being stored as a gain and
    shown again. *)
Definition drifting_positions : list Z := [29; 57; 58; 113; 114; 115; 116].

(** ** Text without surrounding white space *)

Definition first_char (s : string) : option ascii :=
  match s with
  | EmptyString => None
  | String c _ => Some c
  end.

Fixpoint last_char (s : string) : option ascii :=
  match s with
  | EmptyString => None
  | String c EmptyString => Some c
  | String _ rest => last_char rest
  end.

(** [s] neither starts nor ends with white space. *)
Definition trimmed (s : string) : bool :=
  match first_char s, last_char s with
  | Some a, Some b => negb (isspace a) && negb (isspace b)
  | _, _ => true
  end.

(** ** Reading the batch pipeline *)

Module BatchMore.
Import FileTranscriptionWorker.

(** What the recognizer has been through after the chunks [chunks] were
    fed in order: [AcceptWaveform] on each, and [Result] after each one
    that ended an utterance. *)
Fixpoint feed_all {RS : Type} (recognizer : KaldiRecognizer RS) (st : RS)
    (chunks : list (list byte)) : result RS :=
  match chunks with
  | [] => Ok st
  | data :: rest =>
      r <- AcceptWaveform recognizer st data ;;
      let '(st, accepted) := r in
      feed_all recognizer (fst (Batch.chunk_text recognizer accepted st)) rest
  end.

(** An engine that only keeps the chunks it is fed. *)
Definition tape : KaldiRecognizer (list (list byte)) :=
  {| AcceptWaveform := fun st data => Ok (st ++ [data], false);
     Result := fun st => (st, no_json);
     PartialResult := fun st => (st, no_json);
     FinalResult := fun st => (st, no_json) |}.

(** A text signal carries text that is not empty and has no white space at
    either end. *)
Definition clean_text (s : signal) : Prop :=
  match s with
  | text_updated text => text <> "" /\ trimmed text = true
  | _ => True
  end.

End BatchMore.

(** A signal of the capture worker that carries text carries text that is
    not empty and has no white space at either end. *)
Definition clean_signal (s : AudioWorker.signal) : Prop :=
  match s with
  | AudioWorker.text_ready text | AudioWorker.partial_ready text =>
      text <> "" /\ trimmed text = true
  | AudioWorker.error_occurred _ => True
  end.

Definition is_error (s : AudioWorker.signal) : bool :=
  match s with
  | AudioWorker.error_occurred _ => true
  | _ => false
  end.

(** The ticks in which the worker is not paused. *)
Definition unpaused (t : AudioWorker.tick) : bool :=
  negb (AudioWorker.paused t).

(** An engine that rejects every waveform. *)
Definition failing : KaldiRecognizer unit :=
  {| AcceptWaveform := fun _ _ => Raise (Exception "Failed to process waveform");
     Result := fun st => (st, no_json);
     PartialResult := fun st => (st, no_json);
     FinalResult := fun st => (st, no_json) |}.

(** ** autosave.py *)

(** An open text file, by identity. *)
Definition File : Type := nat.

(** What the file system answers at one moment: whether [write], [flush]
    and [close] on a file raise [OSError]. *)
Record Disk : Type := {
  write_raises : File -> bool;
  flush_raises : File -> bool;
  fclose_raises : File -> bool
}.

(** The calls made on files, in order. *)
Inductive file_call : Type :=
| Call_write (f : File) (data : string)
| Call_flush (f : File)
| Call_fclose (f : File).

(** The fields of an [AutosaveManager]; [_timer] is the interval of the
    running timer. *)
Record AutosaveManager : Type := {
  _timer : option Z;
  _file : option File;
  _buffer : list string
}.

Module AutosaveManager_.

Definition __init__ : AutosaveManager :=
  {| _timer := None; _file := None; _buffer := [] |}.

(** Begin autosaving to the given file handle every [interval_ms]. *)
Definition start (file_handle : File) (interval_ms : Z)
  (self : AutosaveManager) : AutosaveManager :=
  {| _timer := Some interval_ms; _file := Some file_handle; _buffer := [] |}.

(** Stop the autosave timer (does not flush). *)
Definition stop (self : AutosaveManager) : AutosaveManager :=
  {| _timer := None; _file := _file self; _buffer := _buffer self |}.

(** Add text to the autosave buffer. *)
Definition append (text : string) (self : AutosaveManager) : AutosaveManager :=
  match text with
  | EmptyString => self
  | _ => {| _timer := _timer self; _file := _file self;
            _buffer := _buffer self ++ [text] |}
  end.

(** Write all buffered text to disk immediately. *)
Definition flush (d : Disk) (log : list file_call) (self : AutosaveManager)
  : list file_call * AutosaveManager :=
  match _file self, _buffer self with
  | None, _ => (log, self)
  | _, [] => (log, self)
  | Some f, _ :: _ =>
      let log :=
        log ++ [Call_write f (String.concat " " (_buffer self)
                              ++ FileTranscriptionWorker.nl)] in
      if write_raises d f then (log, self)         (* except OSError *)
      else
        let log := log ++ [Call_flush f] in
        if flush_raises d f then (log, self)       (* except OSError *)
        else (log, {| _timer := _timer self; _file := _file self;
                      _buffer := [] |})
  end.

(** Timer callback. *)
Definition _on_tick (d : Disk) (log : list file_call) (self : AutosaveManager)
  : list file_call * AutosaveManager :=
  flush d log self.

End AutosaveManager_.

(** What happens to the manager during a session: the controller appends a
    final text, or the timer fires. *)
Inductive autosave_event : Type :=
| Appended (text : string)
| Ticked.

Fixpoint autosave_session (d : Disk) (events : list autosave_event)
    (log : list file_call) (self : AutosaveManager)
  : list file_call * AutosaveManager :=
  match events with
  | [] => (log, self)
  | Appended text :: rest =>
      autosave_session d rest log (AutosaveManager_.append text self)
  | Ticked :: rest =>
      let '(log, self) := AutosaveManager_._on_tick d log self in
      autosave_session d rest log self
  end.

(** The texts appended during a session that are not empty. *)
Fixpoint appended_texts (events : list autosave_event) : list string :=
  match events with
  | [] => []
  | Appended EmptyString :: rest => appended_texts rest
  | Appended text :: rest => text :: appended_texts rest
  | Ticked :: rest => appended_texts rest
  end.

(** The calls of one successful flush of the texts [group]. *)
Definition flushed_line (f : File) (group : list string) : list file_call :=
  [Call_write f (String.concat " " group ++ FileTranscriptionWorker.nl);
   Call_flush f].

(** No call on a file raises. *)
Definition reliable (d : Disk) : Prop :=
  forall f, write_raises d f = false /\ flush_raises d f = false /\
            fclose_raises d f = false.

Definition sound_disk : Disk :=
  {| write_raises := fun _ => false;
     flush_raises := fun _ => false;
     fclose_raises := fun _ => false |}.

(** ** main.py: the controller *)

Inductive AppState : Type := IDLE | RUNNING | PAUSED.

(** The calls the controller makes on the window and the tray icon. *)
Inductive ui_call : Type :=
| ui_clear_text
| ui_append_text (text : string)
| ui_clear_partial
| ui_show_partial (text : string)
| ui_set_state (state : AppState)
| tray_set_state (state : AppState)
| ui_set_file_transcribing (on : bool)
| ui_update_file_progress (pct : Z).

(** ** ui.py: the main window *)

Module TranscriberUI.

(** The names the class [TranscriberUI] declares: its four signals and its
    methods.  (The attributes its [__init__] and [_init_ui] set on the
    instance and the members it inherits from [QMainWindow] have other
    names than those the controller asks for.) *)
Definition declared : list string :=
  ["start_requested"; "pause_requested"; "resume_requested";
   "stop_requested"; "__init__"; "_init_ui"; "_make_button"; "set_state";
   "_update_button_states"; "_on_start"; "_on_pause"; "_on_stop";
   "_on_settings"; "append_text"; "show_partial"; "clear_partial";
   "clear_text"; "_apply_styles"].

Definition no_attribute (name : string) : exn :=
  AttributeError
    ("'TranscriberUI' object has no attribute '" ++ name ++ "'")%string.

(** [self.ui.<name>]: looking up a name the window does not have raises
    [AttributeError]. *)
Definition getattr (name : string) : result unit :=
  if existsb (String.eqb name) declared then Ok tt
  else Raise (no_attribute name).

(** The method of the window that a call names. *)
Definition method (c : ui_call) : string :=
  match c with
  | ui_clear_text => "clear_text"
  | ui_append_text _ => "append_text"
  | ui_clear_partial => "clear_partial"
  | ui_show_partial _ => "show_partial"
  | ui_set_state _ => "set_state"
  | tray_set_state _ => "set_state"          (* of the tray icon *)
  | ui_set_file_transcribing _ => "set_file_transcribing"
  | ui_update_file_progress _ => "update_file_progress"
  end.

End TranscriberUI.

(** The em dash of the two closing messages, in UTF-8. *)
Definition em_dash : string :=
  String (ascii_of_nat 226) (String (ascii_of_nat 128)
    (String (ascii_of_nat 148) EmptyString)).

(** ** settings.py *)

Module AppSettings.

(** What [QSettings.value("audio_sources", "[]")] returns: a [str], with
    the outcome of [json.loads] on it ([None] when it raises), or a value
    of another type. *)
Inductive raw : Type :=
| raw_str (loads : option (list Source))
| raw_other.

(** The list of configured audio sources. *)
Definition audio_sources (value : raw) : list Source :=
  match value with
  | raw_str (Some sources) => sources
  | raw_str None => []                 (* except (JSONDecodeError, TypeError) *)
  | raw_other => []
  end.

(** Return only the sources that are enabled. *)
Definition get_enabled_sources (value : raw) : list Source :=
  filter (fun s => get (enabled s) false) (audio_sources value).

End AppSettings.

Module TranscriberApp.

(** The fields of the controller that the session and the file
    transcription touch, the calls made on the window, and the message
    boxes shown. *)
Record state : Type := {
  _transcription_engine : bool;  (* [self._transcription_engine is not None] *)
  autosave : AutosaveManager;
  _file : option File;
  _worker : option (list Source);      (* the worker, by its sources *)
  _thread : bool;                      (* [self._thread is not None] *)
  _file_worker : bool;                 (* [self._file_worker is not None] *)
  _file_output : option File;
  ui : list ui_call;
  boxes : list (string * string)       (* title and text *)
}.

Definition say (c : list ui_call) (self : state) : state :=
  {| _transcription_engine := _transcription_engine self;
     autosave := autosave self; _file := _file self;
     _worker := _worker self; _thread := _thread self;
     _file_worker := _file_worker self; _file_output := _file_output self;
     ui := ui self ++ c; boxes := boxes self |}.

Definition box (title text : string) (self : state) : state :=
  {| _transcription_engine := _transcription_engine self;
     autosave := autosave self; _file := _file self;
     _worker := _worker self; _thread := _thread self;
     _file_worker := _file_worker self; _file_output := _file_output self;
     ui := ui self; boxes := boxes self ++ [(title, text)] |}.

(** [file.close()] inside [try ... except OSError: pass]. *)
Definition close_quietly (log : list file_call) (file : option File)
  : list file_call :=
  match file with
  | Some f => log ++ [Call_fclose f]
  | None => log
  end.

(** Stop and finalize the current session.  (Stopping the worker and
    waiting for its thread act on the worker thread only.) *)
Definition stop_session (d : Disk) (log : list file_call) (self : state)
  : list file_call * state :=
  let '(log, a) := AutosaveManager_.flush d log (autosave self) in
  let a := AutosaveManager_.stop a in
  let log := close_quietly log (_file self) in
  (log,
   {| _transcription_engine := _transcription_engine self;
      autosave := a; _file := None; _worker := None; _thread := false;
      _file_worker := _file_worker self; _file_output := _file_output self;
      ui := ui self ++ [ui_set_state IDLE; tray_set_state IDLE];
      boxes := boxes self |}).

Definition _on_final_text (text : string) (self : state) : state :=
  let self := say [ui_clear_partial; ui_append_text text] self in
  {| _transcription_engine := _transcription_engine self;
     autosave := AutosaveManager_.append text (autosave self);
     _file := _file self; _worker := _worker self; _thread := _thread self;
     _file_worker := _file_worker self; _file_output := _file_output self;
     ui := ui self; boxes := boxes self |}.

Definition _on_partial_text (text : string) (self : state) : state :=
  say [ui_show_partial text] self.

Definition _on_error (d : Disk) (log : list file_call) (msg : string)
  (self : state) : list file_call * state :=
  stop_session d log (box "Error" msg self).

(** What [start_session] finds outside the controller. *)
Record env : Type := {
  default_model_dir : string;           (* [_DEFAULT_MODEL_DIR] *)
  model_found : bool;                   (* [os.path.isdir(path)] *)
  model_fails : bool;                   (* [Model(path)] raises *)
  makedirs_raises : bool;               (* [os.makedirs(save_dir, ...)] *)
  opened : File + string;               (* [open(filepath, "a")]: the file,
                                           or the text of the [OSError] *)
  minutes : Z;                          (* [settings.autosave_minutes] *)
  stored_sources : AppSettings.raw;     (* the stored ["audio_sources"] *)
  infos : list device_info              (* the devices of the audio layer *)
}.

(** The end of [start_session]: the worker is configured with [sources]
    and its thread started. *)
Definition launch (sources : list Source) (self : state) : state :=
  {| _transcription_engine := _transcription_engine self;
     autosave := autosave self; _file := _file self;
     _worker := Some sources; _thread := true;
     _file_worker := _file_worker self; _file_output := _file_output self;
     ui := ui self ++ [ui_set_state RUNNING; tray_set_state RUNNING];
     boxes := boxes self |}.

(** Start a new transcription session. *)
Definition start_session (e : env) (self : state) : state * result unit :=
  (* Lazy-load Vosk model *)
  let loaded : state + state * result unit :=
    if _transcription_engine self then inl self               (* reset() *)
    else if negb (model_found e)
    then inr (box "Model Error"
                  (FileTranscriptionWorker.model_missing_msg
                     (default_model_dir e)) self, Ok tt)
    else if model_fails e
    then inr (self, Raise (Exception "Failed to create a model"))
    else inl {| _transcription_engine := true;
                autosave := autosave self; _file := _file self;
                _worker := _worker self; _thread := _thread self;
                _file_worker := _file_worker self;
                _file_output := _file_output self;
                ui := ui self; boxes := boxes self |} in
  match loaded with
  | inr r => r
  | inl self =>
      (* Create output file *)
      if makedirs_raises e then (self, Raise OSError)
      else
        match opened e with
        | inr err =>
            (box "File Error"
                 ("Cannot create file:" ++ FileTranscriptionWorker.nl
                  ++ err)%string self, Ok tt)
        | inl f =>
            let self := say [ui_clear_text] self in
            (* Start autosave *)
            let interval_ms := minutes e * 60 * 1000 in
            let self :=
              {| _transcription_engine := _transcription_engine self;
                 autosave := AutosaveManager_.start f interval_ms
                               (autosave self);
                 _file := Some f;
                 _worker := _worker self; _thread := _thread self;
                 _file_worker := _file_worker self;
                 _file_output := _file_output self;
                 ui := ui self; boxes := boxes self |} in
            (* Determine audio sources *)
            match AppSettings.get_enabled_sources (stored_sources e) with
            | [] =>
                match AudioEngine_rest.devices_from 0 (infos e) with
                | dev :: _ => (launch [mic (index dev) 1 true] self, Ok tt)
                | [] =>
                    (box "Audio Error" "No audio input devices found." self,
                     Ok tt)
                end
            | sources => (launch sources self, Ok tt)
            end
        end
  end.

(** A call on the window in the file transcription code: the method is
    looked up, and the call is made when the window has it. *)
Definition window (c : ui_call) (self : state) : state * result unit :=
  match TranscriberUI.getattr (TranscriberUI.method c) with
  | Ok _ => (say [c] self, Ok tt)
  | Raise ex => (self, Raise ex)
  end.

Definition set_file_output (file : option File) (self : state) : state :=
  {| _transcription_engine := _transcription_engine self;
     autosave := autosave self; _file := _file self;
     _worker := _worker self; _thread := _thread self;
     _file_worker := _file_worker self; _file_output := file;
     ui := ui self; boxes := boxes self |}.

Definition set_file_worker (on : bool) (self : state) : state :=
  {| _transcription_engine := _transcription_engine self;
     autosave := autosave self; _file := _file self;
     _worker := _worker self; _thread := _thread self;
     _file_worker := on; _file_output := _file_output self;
     ui := ui self; boxes := boxes self |}.

(** Open file dialog, then start background file transcription.  [chosen]
    is the path the dialog returns, [mkdir_raises] tells whether
    [os.makedirs(save_dir, exist_ok=True)] raises, and [opened] is the
    outcome of [open]: the new file, or the text of the [OSError]. *)
Definition start_file_transcription (chosen : string)
  (mkdir_raises : bool) (opened : File + string) (self : state)
  : state * result unit :=
  match chosen with
  | EmptyString => (self, Ok tt)                (* user cancelled the dialog *)
  | _ =>
      if mkdir_raises then (self, Raise OSError)
      else
        match opened with
        | inr err =>
            (box "File Error"
                 ("Cannot create output file:" ++ FileTranscriptionWorker.nl
                  ++ err)%string self, Ok tt)
        | inl f =>
            (* self._file_output = open(output_path, "a", ...) *)
            let self := set_file_output (Some f) self in
            (* Prepare UI *)
            match window ui_clear_text self with
            | (self, Raise ex) => (self, Raise ex)
            | (self, Ok _) =>
                match window (ui_set_file_transcribing true) self with
                | (self, Raise ex) => (self, Raise ex)
                | (self, Ok _) =>
                    (* Start worker *)
                    (set_file_worker true self, Ok tt)
                end
            end
        end
  end.

(** Reset file transcription state and close output file. *)
Definition _cleanup_file_transcription (log : list file_call) (self : state)
  : list file_call * state * result unit :=
  match window (ui_set_file_transcribing false) self with
  | (self, Raise ex) => (log, self, Raise ex)
  | (self, Ok _) =>
      (close_quietly log (_file_output self),
       set_file_worker false (set_file_output None self), Ok tt)
  end.

Definition cancelled_msg : string :=
  (FileTranscriptionWorker.nl ++ em_dash ++ " File transcription cancelled "
   ++ em_dash)%string.

Definition complete_msg : string :=
  (FileTranscriptionWorker.nl ++ em_dash ++ " File transcription complete "
   ++ em_dash)%string.

(** Cancel ongoing file transcription.  (Setting the worker's flag and
    waiting for it act on the worker thread only.) *)
Definition cancel_file_transcription (log : list file_call) (self : state)
  : list file_call * state * result unit :=
  if _file_worker self then
    match _cleanup_file_transcription log self with
    | (log, self, Raise ex) => (log, self, Raise ex)
    | (log, self, Ok _) =>
        let '(self, r) := window (ui_append_text cancelled_msg) self in
        (log, self, r)
    end
  else (log, self, Ok tt).

Definition _on_file_progress (pct : Z) (self : state) : state * result unit :=
  window (ui_update_file_progress pct) self.

Definition _on_file_text (d : Disk) (log : list file_call) (text : string)
  (self : state) : list file_call * state * result unit :=
  match window (ui_append_text text) self with
  | (self, Raise ex) => (log, self, Raise ex)
  | (self, Ok _) =>
      match _file_output self with
      | Some f =>
          let log :=
            log ++ [Call_write f (text ++ FileTranscriptionWorker.nl)] in
          if write_raises d f then (log, self, Ok tt)    (* except OSError *)
          else (log ++ [Call_flush f], self, Ok tt)
      | None => (log, self, Ok tt)
      end
  end.

Definition _on_file_finished (log : list file_call) (self : state)
  : list file_call * state * result unit :=
  match _cleanup_file_transcription log self with
  | (log, self, Raise ex) => (log, self, Raise ex)
  | (log, self, Ok _) =>
      let '(self, r) := window (ui_append_text complete_msg) self in
      (log, self, r)
  end.

Definition _on_file_error (log : list file_call) (msg : string)
  (self : state) : list file_call * state * result unit :=
  match _cleanup_file_transcription log self with
  | (log, self, Raise ex) => (log, self, Raise ex)
  | (log, self, Ok _) =>
      (log, box "File Transcription Error" msg self, Ok tt)
  end.

(** What can reach the file transcription code of the controller: a signal
    of the file worker, which goes to the slot it is connected to, or the
    user's request to cancel. *)
Inductive file_event : Type :=
| Delivered (s : FileTranscriptionWorker.signal)
| Cancel_requested.

Definition file_slot (d : Disk) (log : list file_call) (ev : file_event)
  (self : state) : list file_call * state * result unit :=
  match ev with
  | Delivered (FileTranscriptionWorker.progress_updated pct) =>
      let '(self, r) := _on_file_progress pct self in (log, self, r)
  | Delivered (FileTranscriptionWorker.text_updated text) =>
      _on_file_text d log text self
  | Delivered FileTranscriptionWorker.finished_signal =>
      _on_file_finished log self
  | Delivered (FileTranscriptionWorker.error_occurred msg) =>
      _on_file_error log msg self
  | Cancel_requested => cancel_file_transcription log self
  end.

(** The events reach the controller one after the other; an exception
    that a slot raises leaves that slot only, and is collected. *)
Fixpoint file_slots (d : Disk) (events : list file_event)
    (log : list file_call) (self : state)
  : list file_call * state * list exn :=
  match events with
  | [] => (log, self, [])
  | ev :: rest =>
      let '(log, self, r) := file_slot d log ev self in
      let '(log, self, raised) := file_slots d rest log self in
      (log, self, match r with
                  | Raise ex => ex :: raised
                  | Ok _ => raised
                  end)
  end.

(** A signal of the capture worker reaches the slot it is connected to. *)
Definition capture_slot (d : Disk) (log : list file_call)
  (s : AudioWorker.signal) (self : state) : list file_call * state :=
  match s with
  | AudioWorker.text_ready text => (log, _on_final_text text self)
  | AudioWorker.partial_ready text => (log, _on_partial_text text self)
  | AudioWorker.error_occurred msg => _on_error d log msg self
  end.

End TranscriberApp.

(** The calls on the transcript file [f] for the texts among [events]:
    each text is written with a new line, and the file flushed unless the
    write raised. *)
Definition transcript_lines (d : Disk) (f : File)
    (events : list TranscriberApp.file_event) : list file_call :=
  flat_map (fun ev =>
              match ev with
              | TranscriberApp.Delivered
                  (FileTranscriptionWorker.text_updated text) =>
                  Call_write f (text ++ FileTranscriptionWorker.nl)
                  :: (if write_raises d f then [] else [Call_flush f])
              | _ => []
              end) events.

(** What reaches the controller during a live session: a signal of the
    capture worker, or a tick of the autosave timer. *)
Inductive session_event : Type :=
| Signalled (s : AudioWorker.signal)
| Timer.

Fixpoint live_session (d : Disk) (events : list session_event)
    (log : list file_call) (self : TranscriberApp.state)
  : list file_call * TranscriberApp.state :=
  match events with
  | [] => (log, self)
  | Signalled s :: rest =>
      let '(log, self) := TranscriberApp.capture_slot d log s self in
      live_session d rest log self
  | Timer :: rest =>
      let '(log, a) :=
        AutosaveManager_._on_tick d log (TranscriberApp.autosave self) in
      live_session d rest log
        {| TranscriberApp._transcription_engine :=
             TranscriberApp._transcription_engine self;
           TranscriberApp.autosave := a;
           TranscriberApp._file := TranscriberApp._file self;
           TranscriberApp._worker := TranscriberApp._worker self;
           TranscriberApp._thread := TranscriberApp._thread self;
           TranscriberApp._file_worker := TranscriberApp._file_worker self;
           TranscriberApp._file_output := TranscriberApp._file_output self;
           TranscriberApp.ui := TranscriberApp.ui self;
           TranscriberApp.boxes := TranscriberApp.boxes self |}
  end.

(** The same events as the autosave manager sees them. *)
Fixpoint seen_by_autosave (events : list session_event)
  : list autosave_event :=
  match events with
  | [] => []
  | Signalled (AudioWorker.text_ready text) :: rest =>
      Appended text :: seen_by_autosave rest
  | Signalled _ :: rest => seen_by_autosave rest
  | Timer :: rest => Ticked :: seen_by_autosave rest
  end.

(** No event is an error signal. *)
Definition no_error (events : list session_event) : bool :=
  forallb (fun ev => match ev with
                     | Signalled s => negb (is_error s)
                     | Timer => true
                     end) events.

(** The values [TranscriberApp.__init__] gives the fields (lines 111 to
    129 of main.py) before it wires the signals, with no call made on the
    window yet.  They stand for a controller on which no session and no
    file transcription was started.  [__init__] itself is not modelled:
    with the window of ui.py it does not return, since the signal
    [file_transcribe_requested] that it wires next is not declared
    there. *)
Definition fresh_app : TranscriberApp.state :=
  {| TranscriberApp._transcription_engine := false;
     TranscriberApp.autosave := AutosaveManager_.__init__;
     TranscriberApp._file := None;
     TranscriberApp._worker := None;
     TranscriberApp._thread := false;
     TranscriberApp._file_worker := false;
     TranscriberApp._file_output := None;
     TranscriberApp.ui := [];
     TranscriberApp.boxes := [] |}.

(** The controller during a first session that writes to [f] and captures
    from [sources]: the model is loaded, the file is open, autosave was
    started on it, and the worker runs. *)
Definition recording (f : File) (interval_ms : Z) (sources : list Source)
  : TranscriberApp.state :=
  {| TranscriberApp._transcription_engine := true;
     TranscriberApp.autosave :=
       AutosaveManager_.start f interval_ms AutosaveManager_.__init__;
     TranscriberApp._file := Some f;
     TranscriberApp._worker := Some sources;
     TranscriberApp._thread := true;
     TranscriberApp._file_worker := false;
     TranscriberApp._file_output := None;
     TranscriberApp.ui := [ui_clear_text; ui_set_state RUNNING;
                           tray_set_state RUNNING];
     TranscriberApp.boxes := [] |}.

(** Surroundings in which a session can start: the model is there, the
    file [f] opens, [sources] are stored, no device is present. *)
Definition ready_env (f : File) (sources : list Source) : TranscriberApp.env :=
  {| TranscriberApp.default_model_dir := "models/vosk-model-small-en-us-0.15";
     TranscriberApp.model_found := true;
     TranscriberApp.model_fails := false;
     TranscriberApp.makedirs_raises := false;
     TranscriberApp.opened := inl f;
     TranscriberApp.minutes := 5;
     TranscriberApp.stored_sources := AppSettings.raw_str (Some sources);
     TranscriberApp.infos := [] |}.

(** ** ui.py: the rows of the settings dialog *)

Module SettingsDialog.

(** [saved = {s["device_index"]: s for s in audio_sources}], then
    [saved[idx]]: of several entries for a device the last one counts. *)
Fixpoint saved (idx : Z) (sources : list Source) : option Source :=
  match sources with
  | [] => None
  | s :: rest =>
      match saved idx rest with
      | Some later => Some later
      | None => if device_index s =? idx then Some s else None
      end
  end.

(** The row built for one device. *)
Definition row_for (sources : list Source) (dev : Device)
  : result AudioSourceRow.row :=
  match saved (index dev) sources with
  | Some s =>
      AudioSourceRow.__init__ (index dev) (get (gain s) 1%float)
                              (get (enabled s) false)
  | None =>
      (* new devices default to disabled *)
      AudioSourceRow.__init__ (index dev) 1%float false
  end.

(** [for dev in devices: ... self._source_rows.append(row)] *)
Fixpoint _source_rows (sources : list Source) (devices : list Device)
  : result (list AudioSourceRow.row) :=
  match devices with
  | [] => Ok []
  | dev :: rest =>
      row <- row_for sources dev ;;
      rows <- _source_rows sources rest ;;
      Ok (row :: rows)
  end.

(** What the user does to the rows while the dialog is open: moves the
    slider of row [i] (a [QSlider] keeps its value within the range set,
    here 0..200), or sets the check box of row [i].  A row that is not
    there cannot be touched. *)
Inductive edit : Type :=
| Slide (i : nat) (v : Z)
| Tick (i : nat) (on : bool).

Fixpoint on_row (i : nat) (f : AudioSourceRow.row -> AudioSourceRow.row)
    (rows : list AudioSourceRow.row) {struct rows}
  : list AudioSourceRow.row :=
  match rows, i with
  | [], _ => []
  | r :: rest, O => f r :: rest
  | r :: rest, S i => r :: on_row i f rest
  end.

Definition apply_edit (ed : edit) (rows : list AudioSourceRow.row)
  : list AudioSourceRow.row :=
  match ed with
  | Slide i v =>
      on_row i (fun r =>
                  {| AudioSourceRow.row_device_index :=
                       AudioSourceRow.row_device_index r;
                     AudioSourceRow.slider := Z.max 0 (Z.min 200 v);
                     AudioSourceRow.checkbox := AudioSourceRow.checkbox r |})
             rows
  | Tick i on =>
      on_row i (fun r =>
                  {| AudioSourceRow.row_device_index :=
                       AudioSourceRow.row_device_index r;
                     AudioSourceRow.slider := AudioSourceRow.slider r;
                     AudioSourceRow.checkbox := on |})
             rows
  end.

(** The rows as they are when the user presses Save. *)
Definition edited (edits : list edit) (rows : list AudioSourceRow.row)
  : list AudioSourceRow.row :=
  fold_left (fun rows ed => apply_edit ed rows) edits rows.

(** The edit acts on row [i]. *)
Definition touches (i : nat) (ed : edit) : bool :=
  match ed with
  | Slide j _ | Tick j _ => Nat.eqb i j
  end.

(** What [_save] stores as the audio sources: [to_dict] of every row, read
    from the widgets when it is called. *)
Definition _save (rows : list AudioSourceRow.row) : list Source :=
  map AudioSourceRow.to_dict rows.

End SettingsDialog.

(** * Floating point: rounding is monotone *)


Lemma bpow_pos (e : Z) : (0 < bpow e)%R.
Proof. apply powerRZ_lt. lra. Qed.

Lemma bpow_add (a b : Z) : bpow (a + b) = (bpow a * bpow b)%R.
Proof. apply powerRZ_add. lra. Qed.

Lemma bpow_succ (e : Z) : bpow (e + 1) = (2 * bpow e)%R.
Proof. rewrite bpow_add. unfold bpow at 2. simpl. lra. Qed.

Lemma bpow_pred (e : Z) : bpow e = (2 * bpow (e - 1))%R.
Proof. rewrite <- bpow_succ. f_equal. lia. Qed.

Lemma bpow_Z (e : Z) : 0 <= e -> bpow e = IZR (2 ^ e).
Proof.
  intros He. unfold bpow. rewrite <- (Z2Nat.id e He) at 2.
  rewrite <- pow_IZR. rewrite <- (Z2Nat.id e He) at 1.
  now rewrite <- pow_powerRZ.
Qed.

Lemma bpow_le (a b : Z) : a <= b -> (bpow a <= bpow b)%R.
Proof.
  intros H. replace b with (a + (b - a)) by lia. rewrite bpow_add.
  rewrite (bpow_Z (b - a)) by lia.
  assert (0 < 2 ^ (b - a)) by (apply Z.pow_pos_nonneg; lia).
  assert (1 <= 2 ^ (b - a)) by lia.
  apply IZR_le in H1. pose proof (bpow_pos a). nra.
Qed.

Lemma bpow_lt (a b : Z) : a < b -> (bpow a < bpow b)%R.
Proof.
  intros H. pose proof (bpow_le (a + 1) b ltac:(lia)) as Hle.
  rewrite bpow_succ in Hle. pose proof (bpow_pos a). lra.
Qed.

Lemma F2R_shift (m e : Z) : F2R (2 * m) e = F2R m (e + 1).
Proof. unfold F2R. rewrite bpow_succ, mult_IZR. lra. Qed.

(** One step of [shr_1], read arithmetically. *)
Lemma shr_1_spec (m : Z) (r s : bool) :
  0 <= m ->
  shr_1 (Build_shr_record m r s)
  = Build_shr_record (m / 2) (Z.odd m) (r || s).
Proof.
  intros Hm. destruct m as [|[p|p|]|p]; try lia; cbn [shr_1].
  - reflexivity.
  - f_equal. change (Z.pos p~1) with (2 * Z.pos p + 1).
    apply (Z.div_unique _ _ _ 1); lia.
  - f_equal. change (Z.pos p~0) with (2 * Z.pos p).
    apply (Z.div_unique _ _ _ 0); lia.
  - reflexivity.
Qed.

Section Shift.
Variable v : R.

Lemma shr_1_inbetween (mrs : shr_record) (e : Z) :
  0 <= shr_m mrs ->
  inbetween (shr_m mrs) e (loc_of_shr_record mrs) v ->
  0 <= shr_m (shr_1 mrs) /\
  inbetween (shr_m (shr_1 mrs)) (e + 1) (loc_of_shr_record (shr_1 mrs)) v.
Proof.
  destruct mrs as [m r s]. cbn [shr_m]. intros Hm H.
  rewrite (shr_1_spec m r s Hm). cbn [shr_m].
  split; [apply Z.div_pos; lia|].
  pose proof (bpow_pos (e - 1)) as Hb.
  assert (He : bpow e = (2 * bpow (e - 1))%R) by apply bpow_pred.
  assert (He1 : bpow (e + 1) = (4 * bpow (e - 1))%R)
    by (rewrite bpow_succ, He; lra).
  pose proof (Z.div_mod m 2 ltac:(lia)) as Hdm.
  rewrite Zmod_odd in Hdm.
  revert H. unfold inbetween, loc_of_shr_record, F2R.
  replace (e + 1 - 1) with e by lia.
  rewrite He, He1.
  set (B := bpow (e - 1)) in *.
  set (q := m / 2) in *.
  destruct (Z.odd m); [replace m with (2 * q + 1) by lia
                      | replace m with (2 * q) by lia];
    destruct r, s; cbn [orb];
    repeat (rewrite plus_IZR || rewrite mult_IZR); intros; lra.
Qed.
End Shift.

Section Shift2.
Variable v : R.

Lemma iter_shr_1_inbetween (n : positive) :
  forall (mrs : shr_record) (e : Z),
    0 <= shr_m mrs ->
    inbetween (shr_m mrs) e (loc_of_shr_record mrs) v ->
    0 <= shr_m (SpecFloat.iter_pos shr_1 n mrs) /\
    inbetween (shr_m (SpecFloat.iter_pos shr_1 n mrs)) (e + Z.pos n)
              (loc_of_shr_record (SpecFloat.iter_pos shr_1 n mrs)) v.
Proof.
  induction n as [n IH|n IH|]; intros mrs e Hm Hv; cbn [SpecFloat.iter_pos].
  - destruct (shr_1_inbetween v mrs e Hm Hv) as [Hm1 Hv1].
    destruct (IH _ _ Hm1 Hv1) as [Hm2 Hv2].
    destruct (IH _ _ Hm2 Hv2) as [Hm3 Hv3].
    split; [exact Hm3|].
    replace (e + Z.pos n~1) with (e + 1 + Z.pos n + Z.pos n) by lia.
    exact Hv3.
  - destruct (IH _ _ Hm Hv) as [Hm2 Hv2].
    destruct (IH _ _ Hm2 Hv2) as [Hm3 Hv3].
    split; [exact Hm3|].
    replace (e + Z.pos n~0) with (e + Z.pos n + Z.pos n) by lia.
    exact Hv3.
  - apply shr_1_inbetween; assumption.
Qed.

Lemma loc_of_shr_record_of_loc (m : Z) (l : location) :
  loc_of_shr_record (shr_record_of_loc m l) = l /\
  shr_m (shr_record_of_loc m l) = m.
Proof. destruct l as [|[| |]]; split; reflexivity. Qed.

Lemma inbetween_bounds (m e : Z) (l : location) :
  inbetween m e l v -> (F2R m e <= v < F2R (m + 1) e)%R.
Proof.
  pose proof (bpow_pos (e - 1)) as Hb.
  destruct l as [|[| |]]; unfold inbetween, F2R;
    rewrite (bpow_pred e);
    repeat (rewrite plus_IZR || rewrite mult_IZR); intros; lra.
Qed.
End Shift2.

Lemma digits2_pos_bounds (p : positive) :
  2 ^ (Z.pos (digits2_pos p) - 1) <= Z.pos p < 2 ^ Z.pos (digits2_pos p).
Proof.
  induction p as [p IH|p IH|]; cbn [digits2_pos].
  - rewrite Pos2Z.inj_succ.
    replace (Z.succ (Z.pos (digits2_pos p)) - 1)
      with (Z.succ (Z.pos (digits2_pos p) - 1)) by lia.
    rewrite !Z.pow_succ_r by lia. lia.
  - rewrite Pos2Z.inj_succ.
    replace (Z.succ (Z.pos (digits2_pos p)) - 1)
      with (Z.succ (Z.pos (digits2_pos p) - 1)) by lia.
    rewrite !Z.pow_succ_r by lia. lia.
  - simpl. lia.
Qed.

Lemma Zdigits2_unique (m k : Z) :
  0 < k -> 2 ^ (k - 1) <= m < 2 ^ k -> Zdigits2 m = k.
Proof.
  intros Hk Hm. destruct m as [|p|p].
  - assert (0 < 2 ^ (k - 1)) by (apply Z.pow_pos_nonneg; lia). lia.
  - cbn [Zdigits2]. pose proof (digits2_pos_bounds p) as Hd.
    set (d := Z.pos (digits2_pos p)) in *.
    destruct (Z.lt_trichotomy d k) as [Hlt | [Heq | Hgt]]; [|exact Heq|].
    + assert (2 ^ d <= 2 ^ (k - 1)) by (apply Z.pow_le_mono_r; lia). lia.
    + assert (2 ^ k <= 2 ^ (d - 1)) by (apply Z.pow_le_mono_r; lia). lia.
  - assert (0 < 2 ^ (k - 1)) by (apply Z.pow_pos_nonneg; lia). lia.
Qed.

Lemma F2R_lt_inv (a b e : Z) : (F2R a e < F2R b e)%R -> a < b.
Proof.
  unfold F2R. intros H. apply lt_IZR. pose proof (bpow_pos e). nra.
Qed.

Lemma F2R_le_inv (a b e : Z) : (F2R a e <= F2R b e)%R -> a <= b.
Proof.
  unfold F2R. intros H. apply le_IZR. pose proof (bpow_pos e). nra.
Qed.

Lemma F2R_le (a b e : Z) : a <= b -> (F2R a e <= F2R b e)%R.
Proof.
  unfold F2R. intros H. apply IZR_le in H. pose proof (bpow_pos e). nra.
Qed.

Lemma F2R_pow2 (k e : Z) : 0 <= k -> F2R (2 ^ k) e = bpow (k + e).
Proof.
  intros Hk. unfold F2R. rewrite bpow_add, (bpow_Z k) by lia. reflexivity.
Qed.

Lemma fexp_normal (x : Z) : -1021 <= x -> fexp prec emax x = x - 53.
Proof. unfold fexp, SpecFloat.emin, prec, emax. lia. Qed.

Lemma shr_fexp_normal (v : R) (mx ex : Z) (lx : location) :
  0 < mx -> 53 <= Zdigits2 mx -> -1074 <= Zdigits2 mx + ex - 53 ->
  inbetween mx ex lx v ->
  snd (shr_fexp prec emax mx ex lx) = Zdigits2 mx + ex - 53 /\
  0 <= shr_m (fst (shr_fexp prec emax mx ex lx)) /\
  inbetween (shr_m (fst (shr_fexp prec emax mx ex lx)))
            (Zdigits2 mx + ex - 53)
            (loc_of_shr_record (fst (shr_fexp prec emax mx ex lx))) v.
Proof.
  intros Hm Hd He Hv. unfold shr_fexp.
  rewrite fexp_normal by lia.
  destruct (loc_of_shr_record_of_loc mx lx) as [Hl Hs].
  replace (Zdigits2 mx + ex - 53 - ex) with (Zdigits2 mx - 53) by lia.
  destruct (Zdigits2 mx - 53) as [|n|n] eqn:Hn; try lia; cbn [shr fst snd].
  - replace (Zdigits2 mx + ex - 53) with ex by lia.
    rewrite Hl, Hs. repeat split; [lia | exact Hv].
  - destruct (iter_shr_1_inbetween v n (shr_record_of_loc mx lx) ex)
      as [H1 H2].
    + rewrite Hs. lia.
    + now rewrite Hl, Hs.
    + replace (Zdigits2 mx + ex - 53) with (ex + Z.pos n) by lia.
      repeat split; assumption.
Qed.

Lemma round_nearest_even_near (v : R) (m e : Z) (l : location) :
  inbetween m e l v ->
  m <= round_nearest_even m l <= m + 1 /\
  (F2R (round_nearest_even m l) e - bpow (e - 1) <= v
   <= F2R (round_nearest_even m l) e + bpow (e - 1))%R.
Proof.
  pose proof (bpow_pos (e - 1)) as Hb.
  destruct l as [|[| |]]; unfold inbetween, round_nearest_even;
    try destruct (Z.even m); (split; [lia|]); revert H;
    unfold F2R; rewrite (bpow_pred e);
    repeat (rewrite plus_IZR || rewrite mult_IZR); intros; lra.
Qed.

(** Rounding a positive value given by mantissa, exponent and location. *)
Lemma binary_round_aux_correct (v : R) (mx ex : Z) (lx : location) :
  0 < mx -> 53 <= Zdigits2 mx ->
  -1074 <= Zdigits2 mx + ex - 53 -> Zdigits2 mx + ex <= 1023 ->
  inbetween mx ex lx v ->
  exists m e,
    binary_round_aux prec emax false mx ex lx = S754_finite false m e /\
    rounded v (Z.pos m) e.
Proof.
  intros Hm Hd Hlo Hhi Hv.
  destruct (shr_fexp_normal v mx ex lx Hm Hd Hlo Hv) as (He1 & Hm1 & Hv1).
  unfold binary_round_aux.
  destruct (shr_fexp prec emax mx ex lx) as [mrs1 e1']. cbn [fst snd] in *.
  subst e1'.
  set (e1 := Zdigits2 mx + ex - 53) in *.
  set (m1 := shr_m mrs1) in *.
  set (l1 := loc_of_shr_record mrs1) in *.
  (* the binade of v *)
  assert (Hbin : (bpow (e1 + 52) <= v < bpow (e1 + 53))%R).
  { destruct (inbetween_bounds v mx ex lx Hv) as [Hlow Hupp].
    destruct mx as [|p|p]; try lia. cbn [Zdigits2] in *.
    pose proof (digits2_pos_bounds p) as Hp.
    set (d := Z.pos (digits2_pos p)) in *.
    split.
    - apply Rle_trans with (F2R (Z.pos p) ex); [|exact Hlow].
      replace (e1 + 52) with ((d - 1) + ex) by (unfold e1; lia).
      rewrite <- F2R_pow2 by lia. apply F2R_le. lia.
    - apply Rlt_le_trans with (F2R (Z.pos p + 1) ex); [exact Hupp|].
      replace (e1 + 53) with (d + ex) by (unfold e1; lia).
      rewrite <- F2R_pow2 by lia. apply F2R_le. lia. }
  (* the truncated mantissa has 53 digits *)
  assert (Hm1b : 2 ^ 52 <= m1 < 2 ^ 53).
  { destruct (inbetween_bounds v m1 e1 l1 Hv1) as [Hlow Hupp].
    split.
    - assert (2 ^ 52 < m1 + 1); [|lia].
      apply (F2R_lt_inv _ _ e1). rewrite F2R_pow2 by lia.
      replace (52 + e1) with (e1 + 52) by lia. lra.
    - apply (F2R_lt_inv _ _ e1). rewrite F2R_pow2 by lia.
      replace (53 + e1) with (e1 + 53) by lia. lra. }
  destruct (round_nearest_even_near v m1 e1 l1 Hv1) as [Hm2 Hnear].
  set (m2 := round_nearest_even m1 l1) in *.
  unfold shr_fexp.
  destruct (Z.eq_dec m2 (2 ^ 53)) as [Htop | Hlow].
  - (* the rounding carried into the next binade *)
    rewrite Htop.
    replace (Zdigits2 (2 ^ 53)) with 54 by reflexivity.
    rewrite fexp_normal by lia.
    replace (54 + e1 - 53 - e1) with 1 by lia.
    cbn [shr shr_record_of_loc SpecFloat.iter_pos].
    change (shr_1 {| shr_m := 2 ^ 53; shr_r := false; shr_s := false |})
      with {| shr_m := 2 ^ 52; shr_r := false; shr_s := false |}.
    cbn [shr_m]. change (2 ^ 52) with (Z.pos (2 ^ 52)) at 1.
    cbv iota. 
    replace (e1 + 1 <=? emax - prec) with true
      by (symmetry; apply Z.leb_le; unfold emax, prec, e1; lia).
    exists (2 ^ 52)%positive, (e1 + 1). split; [reflexivity|].
    split; [change (Z.pos (2 ^ 52)) with (2 ^ 52); lia|].
    exists e1, m2. repeat split; try lia; try tauto.
    rewrite Htop. change (Z.pos (2 ^ 52)) with (2 ^ 52).
    change (2 ^ 53) with (2 * 2 ^ 52). now rewrite F2R_shift.
  - rewrite (Zdigits2_unique m2 53) by lia.
    rewrite fexp_normal by (unfold e1; lia).
    replace (53 + e1 - 53 - e1) with 0 by lia.
    cbn [shr shr_record_of_loc shr_m].
    destruct m2 as [|p|p] eqn:Hp; try lia.
    replace (e1 <=? emax - prec) with true
      by (symmetry; apply Z.leb_le; unfold emax, prec, e1; lia).
    exists p, e1. split; [reflexivity|].
    split; [lia|].
    exists e1, (Z.pos p). repeat split; try lia; tauto.
Qed.

Lemma F2R_binade (m e : Z) :
  2 ^ 52 <= m <= 2 ^ 53 -> (bpow (e + 52) <= F2R m e <= bpow (e + 53))%R.
Proof.
  intros Hm.
  replace (e + 52) with (52 + e) by lia. replace (e + 53) with (53 + e) by lia.
  rewrite <- !F2R_pow2 by lia. split; apply F2R_le; lia.
Qed.

(** Rounding is monotone: a nearest number of the smaller value is not
    above a nearest number of the larger one. *)
Lemma rounded_mono (v v' : R) (m e m' e' : Z) :
  rounded v m e -> rounded v' m' e' -> (v < v')%R ->
  (F2R m e <= F2R m' e')%R.
Proof.
  intros (_ & e1 & M & Hr & HM & Hb & Hn) (_ & e1' & M' & Hr' & HM' & Hb' & Hn')
         Hlt.
  rewrite Hr, Hr'.
  destruct (Z.lt_trichotomy e1 e1') as [Hlow | [Heq | Hhigh]].
  - destruct (F2R_binade M e1 HM) as [_ Hu].
    destruct (F2R_binade M' e1' HM') as [Hl _].
    pose proof (bpow_le (e1 + 53) (e1' + 52) ltac:(lia)). lra.
  - subst e1'. apply F2R_le.
    assert (M < M' + 1); [|lia].
    apply lt_IZR. rewrite plus_IZR.
    unfold F2R in Hn, Hn'. rewrite (bpow_pred e1) in Hn, Hn'.
    pose proof (bpow_pos (e1 - 1)). nra.
  - pose proof (bpow_le (e1' + 53) (e1 + 52) ltac:(lia)). lra.
Qed.

(** A nearest number of [v] is not above a binary64 number above [v]. *)
Lemma rounded_le_exact (v : R) (m e mu eu : Z) :
  rounded v m e -> 2 ^ 52 <= mu < 2 ^ 53 -> (v <= F2R mu eu)%R ->
  (F2R m e <= F2R mu eu)%R.
Proof.
  intros (_ & e1 & M & Hr & HM & Hb & Hn) Hmu Hle.
  rewrite Hr.
  destruct (F2R_binade mu eu ltac:(lia)) as [Hul _].
  assert (Huu : (F2R mu eu < bpow (eu + 53))%R).
  { replace (eu + 53) with (53 + eu) by lia. rewrite <- F2R_pow2 by lia.
    unfold F2R. pose proof (bpow_pos eu).
    assert (IZR mu < IZR (2 ^ 53))%R by (apply IZR_lt; lia). nra. }
  destruct (Z.lt_trichotomy e1 eu) as [Hlow | [Heq | Hhigh]].
  - destruct (F2R_binade M e1 HM) as [_ Hu].
    pose proof (bpow_le (e1 + 53) (eu + 52) ltac:(lia)). lra.
  - subst eu. apply F2R_le.
    assert (M < mu + 1); [|lia].
    apply lt_IZR. rewrite plus_IZR.
    unfold F2R in Hn, Hle. rewrite (bpow_pred e1) in Hn, Hle.
    pose proof (bpow_pos (e1 - 1)). nra.
  - pose proof (bpow_le (eu + 53) (e1 + 52) ltac:(lia)). lra.
Qed.

(** A nearest number of [v] is not below a binary64 number below [v]. *)
Lemma rounded_ge_exact (v : R) (m e mu eu : Z) :
  rounded v m e -> 2 ^ 52 <= mu < 2 ^ 53 -> (F2R mu eu <= v)%R ->
  (F2R mu eu <= F2R m e)%R.
Proof.
  intros (_ & e1 & M & Hr & HM & Hb & Hn) Hmu Hle.
  rewrite Hr.
  destruct (F2R_binade mu eu ltac:(lia)) as [Hul _].
  destruct (Z.lt_trichotomy e1 eu) as [Hlow | [Heq | Hhigh]].
  - pose proof (bpow_le (e1 + 53) (eu + 52) ltac:(lia)). lra.
  - subst eu. apply F2R_le.
    assert (mu < M + 1); [|lia].
    apply lt_IZR. rewrite plus_IZR.
    unfold F2R in Hn, Hle. rewrite (bpow_pred e1) in Hn, Hle.
    pose proof (bpow_pos (e1 - 1)). nra.
  - destruct (F2R_binade M e1 HM) as [Hl _].
    assert (Huu : (F2R mu eu < bpow (eu + 53))%R).
    { replace (eu + 53) with (53 + eu) by lia. rewrite <- F2R_pow2 by lia.
      unfold F2R. pose proof (bpow_pos eu).
      assert (IZR mu < IZR (2 ^ 53))%R by (apply IZR_lt; lia). nra. }
    pose proof (bpow_le (eu + 53) (e1 + 52) ltac:(lia)). lra.
Qed.

(** Two normal binary64 numbers of the same value are the same. *)
Lemma normal_inj (m e m' e' : Z) :
  2 ^ 52 <= m < 2 ^ 53 -> 2 ^ 52 <= m' < 2 ^ 53 ->
  F2R m e = F2R m' e' -> m = m' /\ e = e'.
Proof.
  intros Hm Hm' Heq.
  assert (Hb : forall a ea, 2 ^ 52 <= a < 2 ^ 53 ->
                 (bpow (ea + 52) <= F2R a ea < bpow (ea + 53))%R).
  { intros a ea Ha. destruct (F2R_binade a ea ltac:(lia)) as [Hl _].
    split; [exact Hl|].
    replace (ea + 53) with (53 + ea) by lia. rewrite <- F2R_pow2 by lia.
    unfold F2R. pose proof (bpow_pos ea).
    assert (IZR a < IZR (2 ^ 53))%R by (apply IZR_lt; lia). nra. }
  pose proof (Hb m e Hm) as H1. pose proof (Hb m' e' Hm') as H2.
  assert (He : e = e').
  { destruct (Z.lt_trichotomy e e') as [Hlt | [Heq' | Hgt]]; [|exact Heq'|].
    - pose proof (bpow_le (e + 53) (e' + 52) ltac:(lia)). lra.
    - pose proof (bpow_le (e' + 53) (e + 52) ltac:(lia)). lra. }
  subst e'. split; [|reflexivity].
  apply Z.le_antisymm; apply (F2R_le_inv _ _ e); lra.
Qed.

Lemma rounded_exact (a ea m e : Z) :
  2 ^ 52 <= a < 2 ^ 53 -> rounded (F2R a ea) m e -> F2R m e = F2R a ea.
Proof.
  intros Ha Hr. apply Rle_antisym.
  - apply (rounded_le_exact (F2R a ea)); auto. lra.
  - apply (rounded_ge_exact (F2R a ea)); auto. lra.
Qed.

Lemma pos_iter_xO (p k : positive) :
  Z.pos (Pos.iter xO p k) = Z.pos p * 2 ^ Z.pos k.
Proof.
  induction k as [|k IH] using Pos.peano_ind.
  - simpl. lia.
  - rewrite Pos.iter_succ, Pos2Z.inj_xO, IH, Pos2Z.inj_succ,
      Z.pow_succ_r by lia. lia.
Qed.

(** [float(x)] is exact below [2^53]. *)
Lemma binary_normalize_exact (x : Z) :
  0 < x < 2 ^ 53 ->
  exists m e, binary_normalize prec emax x 0 false = S754_finite false m e /\
              2 ^ 52 <= Z.pos m < 2 ^ 53 /\ F2R (Z.pos m) e = IZR x /\
              -52 <= e <= 0.
Proof.
  intros Hx. destruct x as [|p|p]; try lia.
  cbn [binary_normalize]. unfold binary_round.
  pose proof (digits2_pos_bounds p) as Hd.
  set (d := Z.pos (digits2_pos p)) in *.
  assert (Hd53 : 1 <= d <= 53).
  { split; [unfold d; lia|].
    destruct (Z.le_gt_cases d 53) as [H|H]; [exact H|].
    assert (2 ^ 53 <= 2 ^ (d - 1)) by (apply Z.pow_le_mono_r; lia). lia. }
  rewrite Z.add_0_r, fexp_normal by lia.
  unfold shl_align. rewrite Z.sub_0_r.
  assert (Hgen : forall mz ez,
             Z.pos mz = Z.pos p * 2 ^ (53 - d) -> ez = d - 53 ->
             exists m e,
               binary_round_aux prec emax false (Z.pos mz) ez loc_Exact
               = S754_finite false m e /\
               2 ^ 52 <= Z.pos m < 2 ^ 53 /\ F2R (Z.pos m) e = IZR (Z.pos p) /\
               -52 <= e <= 0).
  { intros mz ez Hmz Hez.
    assert (Hmzb : 2 ^ 52 <= Z.pos mz < 2 ^ 53).
    { rewrite Hmz.
      assert (H52 : 2 ^ 52 = 2 ^ (d - 1) * 2 ^ (53 - d))
        by (rewrite <- Z.pow_add_r by lia; f_equal; lia).
      assert (H53 : 2 ^ 53 = 2 ^ d * 2 ^ (53 - d))
        by (rewrite <- Z.pow_add_r by lia; f_equal; lia).
      rewrite H52, H53.
      assert (0 < 2 ^ (53 - d)) by (apply Z.pow_pos_nonneg; lia). nia. }
    assert (Hval : F2R (Z.pos mz) ez = IZR (Z.pos p)).
    { unfold F2R. rewrite Hmz, mult_IZR, Hez, <- bpow_Z by lia.
      rewrite Rmult_assoc, <- bpow_add.
      replace (53 - d + (d - 53)) with 0 by lia. unfold bpow. simpl. lra. }
    assert (Hdig : Zdigits2 (Z.pos mz) = 53)
      by (apply Zdigits2_unique; lia).
    destruct (binary_round_aux_correct (IZR (Z.pos p)) (Z.pos mz) ez loc_Exact)
      as (m & e & Hres & Hr); try lia.
    { cbn [inbetween]. now rewrite Hval. }
    exists m, e. split; [exact Hres|].
    destruct Hr as [Hm Hr']. split; [exact Hm|].
    assert (Hex : F2R (Z.pos m) e = F2R (Z.pos mz) ez).
    { apply rounded_exact; [exact Hmzb|]. rewrite Hval. split; assumption. }
    split; [now rewrite Hex|].
    destruct (normal_inj _ _ _ _ Hm Hmzb Hex) as [_ ->]. lia. }
  destruct (d - 53) as [|k|k] eqn:Hk; try lia.
  - apply Hgen; [|lia]. replace (53 - d) with 0 by lia. lia.
  - apply Hgen; [|lia]. rewrite pos_iter_xO. f_equal. f_equal. lia.
Qed.

Lemma Prim2SF_float_of_int (x : Z) :
  0 < x < 2 ^ 53 ->
  exists m e, Prim2SF (Py.float_of_int x) = S754_finite false m e /\
              2 ^ 52 <= Z.pos m < 2 ^ 53 /\ F2R (Z.pos m) e = IZR x /\
              -52 <= e <= 0.
Proof.
  intros Hx. destruct x as [|p|p]; try lia.
  cbn [Py.float_of_int].
  rewrite of_uint63_spec, Uint63.of_Z_spec.
  rewrite Z.mod_small by (change Uint63.wB with (2 ^ 63); lia).
  now apply binary_normalize_exact.
Qed.

Lemma Zdigits2_bounds (m k : Z) :
  0 < k -> 2 ^ (k - 1) <= m -> k <= Zdigits2 m.
Proof.
  intros Hk Hm.
  assert (0 < 2 ^ (k - 1)) by (apply Z.pow_pos_nonneg; lia).
  destruct m as [|p|p]; try lia. cbn [Zdigits2].
  pose proof (digits2_pos_bounds p) as Hd.
  destruct (Z.le_gt_cases k (Z.pos (digits2_pos p))) as [Hle|Hgt]; [exact Hle|].
  assert (2 ^ Z.pos (digits2_pos p) <= 2 ^ (k - 1))
    by (apply Z.pow_le_mono_r; lia).
  lia.
Qed.

Lemma Zdigits2_upper (m k : Z) :
  0 < m < 2 ^ k -> 0 <= k -> Zdigits2 m <= k.
Proof.
  intros Hm Hk. destruct m as [|p|p]; try lia. cbn [Zdigits2].
  pose proof (digits2_pos_bounds p) as Hd.
  destruct (Z.le_gt_cases (Z.pos (digits2_pos p)) k) as [Hle|Hgt]; [exact Hle|].
  assert (2 ^ k <= 2 ^ (Z.pos (digits2_pos p) - 1))
    by (apply Z.pow_le_mono_r; lia).
  lia.
Qed.

Lemma Rdiv_lt_l (a b c : R) : (0 < b -> a < c * b -> a / b < c)%R.
Proof.
  intros Hb H. apply Rmult_lt_reg_r with b; [exact Hb|].
  unfold Rdiv. rewrite Rmult_assoc, Rinv_l by lra. lra.
Qed.

Lemma Rdiv_gt_l (a b c : R) : (0 < b -> c * b < a -> c < a / b)%R.
Proof.
  intros Hb H. apply Rmult_lt_reg_r with b; [exact Hb|].
  unfold Rdiv. rewrite Rmult_assoc, Rinv_l by lra. lra.
Qed.

(** The location computed from a remainder. *)
Lemma new_location_inbetween (q r d e : Z) :
  0 < d -> 0 <= r < d ->
  inbetween q e (new_location d r) ((IZR q + IZR r / IZR d) * bpow e)%R.
Proof.
  intros Hd Hr.
  assert (HdR : (0 < IZR d)%R) by (apply IZR_lt; lia).
  pose proof (bpow_pos (e - 1)) as HB.
  assert (Hzero : r = 0 -> (IZR r / IZR d = 0)%R).
  { intros ->. unfold Rdiv. lra. }
  assert (Hpos : 0 < r -> (0 < IZR r / IZR d)%R).
  { intros H. apply Rdiv_gt_l; [exact HdR|]. apply IZR_lt in H. lra. }
  assert (Hone : (IZR r / IZR d < 1)%R).
  { apply Rdiv_lt_l; [exact HdR|].
    assert (IZR r < IZR d)%R by (apply IZR_lt; lia). lra. }
  assert (Hlt : 2 * r < d -> (IZR r / IZR d < 1 / 2)%R).
  { intros H. apply Rdiv_lt_l; [exact HdR|]. apply IZR_lt in H.
    rewrite mult_IZR in H. lra. }
  assert (Hgt : d < 2 * r -> (1 / 2 < IZR r / IZR d)%R).
  { intros H. apply Rdiv_gt_l; [exact HdR|]. apply IZR_lt in H.
    rewrite mult_IZR in H. lra. }
  assert (Heq : 2 * r = d -> (IZR r / IZR d = 1 / 2)%R).
  { intros H. apply (f_equal IZR) in H. rewrite mult_IZR in H.
    rewrite <- H. field. lra. }
  unfold new_location, new_location_even, new_location_odd.
  destruct (Z.even d) eqn:Hev.
  - destruct (Z.eqb_spec r 0) as [H0|H0].
    + cbn [inbetween]. unfold F2R. rewrite (Hzero H0). lra.
    + destruct (Z.compare_spec (2 * r) d) as [Hc|Hc|Hc]; cbn [inbetween];
        unfold F2R; rewrite (bpow_pred e);
        repeat (rewrite plus_IZR || rewrite mult_IZR).
      * rewrite (Heq Hc). lra.
      * specialize (Hlt Hc). specialize (Hpos ltac:(lia)). nra.
      * specialize (Hgt Hc). nra.
  - destruct (Z.eqb_spec r 0) as [H0|H0].
    + cbn [inbetween]. unfold F2R. rewrite (Hzero H0). lra.
    + assert (Hodd : 2 * r <> d).
      { intros H. rewrite <- H, Z.even_mul in Hev. discriminate. }
      destruct (Z.compare_spec (2 * r + 1) d) as [Hc|Hc|Hc]; cbn [inbetween];
        unfold F2R; rewrite (bpow_pred e);
        repeat (rewrite plus_IZR || rewrite mult_IZR).
      * specialize (Hlt ltac:(lia)). specialize (Hpos ltac:(lia)). nra.
      * specialize (Hlt ltac:(lia)). specialize (Hpos ltac:(lia)). nra.
      * specialize (Hgt ltac:(lia)). nra.
Qed.

(** Division of two normal numbers rounds their quotient. *)
Lemma SFdiv_rounded (m1 m2 : positive) (e1 e2 : Z) :
  2 ^ 52 <= Z.pos m1 < 2 ^ 53 -> 2 ^ 52 <= Z.pos m2 < 2 ^ 53 ->
  -1021 <= e1 - e2 <= 1021 ->
  exists m e,
    SFdiv prec emax (S754_finite false m1 e1) (S754_finite false m2 e2)
    = S754_finite false m e /\
    rounded (F2R (Z.pos m1) e1 / F2R (Z.pos m2) e2) (Z.pos m) e.
Proof.
  intros H1 H2 He. cbn [SFdiv xorb].
  unfold SFdiv_core_binary.
  rewrite (Zdigits2_unique (Z.pos m1) 53), (Zdigits2_unique (Z.pos m2) 53)
    by lia.
  replace (53 + e1 - (53 + e2)) with (e1 - e2) by lia.
  rewrite fexp_normal by lia.
  replace (Z.min (e1 - e2 - 53) (e1 - e2)) with (e1 - e2 - 53) by lia.
  replace (e1 - e2 - (e1 - e2 - 53)) with 53 by lia.
  cbv iota beta.
  rewrite Z.shiftl_mul_pow2 by lia.
  pose proof (Z_div_mod (Z.pos m1 * 2 ^ 53) (Z.pos m2) ltac:(lia)) as Hdiv.
  destruct (Z.div_eucl (Z.pos m1 * 2 ^ 53) (Z.pos m2)) as [q r].
  destruct Hdiv as [Hqr Hr].
  set (e' := e1 - e2 - 53) in *.
  assert (Hq : 2 ^ 52 <= q < 2 ^ 54).
  { change (2 ^ 54) with (2 * 2 ^ 53). change (2 ^ 53) with (2 * 2 ^ 52) in *.
    nia. }
  assert (Hval : (F2R (Z.pos m1) e1 / F2R (Z.pos m2) e2
                  = (IZR q + IZR r / IZR (Z.pos m2)) * bpow e')%R).
  { unfold F2R.
    assert (Hm2 : (0 < IZR (Z.pos m2))%R) by (apply IZR_lt; lia).
    pose proof (bpow_pos e2) as Hb2. pose proof (bpow_pos e') as Hb'.
    replace e1 with (53 + (e' + e2)) by (unfold e'; lia).
    rewrite !bpow_add, (bpow_Z 53) by lia.
    apply (f_equal IZR) in Hqr. rewrite plus_IZR, !mult_IZR in Hqr.
    field_simplify; [|lra|lra]. rewrite Hqr. field. lra. }
  rewrite Hval.
  apply binary_round_aux_correct.
  - lia.
  - apply Zdigits2_bounds; lia.
  - pose proof (Zdigits2_bounds q 53 ltac:(lia) ltac:(lia)). unfold e'. lia.
  - pose proof (Zdigits2_upper q 54 ltac:(lia) ltac:(lia)). unfold e'. lia.
  - apply new_location_inbetween; lia.
Qed.

(** Multiplication of two normal numbers rounds their product. *)
Lemma SFmul_rounded (m1 m2 : positive) (e1 e2 : Z) :
  2 ^ 52 <= Z.pos m1 < 2 ^ 53 -> 2 ^ 52 <= Z.pos m2 < 2 ^ 53 ->
  -1126 <= e1 + e2 <= 917 ->
  exists m e,
    SFmul prec emax (S754_finite false m1 e1) (S754_finite false m2 e2)
    = S754_finite false m e /\
    rounded (F2R (Z.pos m1) e1 * F2R (Z.pos m2) e2) (Z.pos m) e.
Proof.
  intros H1 H2 He. cbn [SFmul xorb].
  assert (Hp : 2 ^ 104 <= Z.pos (m1 * m2) < 2 ^ 106).
  { rewrite Pos2Z.inj_mul.
    change (2 ^ 104) with (2 ^ 52 * 2 ^ 52).
    change (2 ^ 106) with (2 ^ 53 * 2 ^ 53). nia. }
  apply binary_round_aux_correct.
  - lia.
  - pose proof (Zdigits2_bounds (Z.pos (m1 * m2)) 105 ltac:(lia) ltac:(lia)).
    lia.
  - pose proof (Zdigits2_bounds (Z.pos (m1 * m2)) 105 ltac:(lia) ltac:(lia)).
    lia.
  - pose proof (Zdigits2_upper (Z.pos (m1 * m2)) 106 ltac:(lia) ltac:(lia)).
    lia.
  - cbn [inbetween]. unfold F2R.
    rewrite Pos2Z.inj_mul, mult_IZR, bpow_add. ring.
Qed.

Lemma normal_le_exp (m e m' e' : Z) :
  2 ^ 52 <= m < 2 ^ 53 -> 2 ^ 52 <= m' < 2 ^ 53 ->
  (F2R m e <= F2R m' e')%R -> e <= e'.
Proof.
  intros Hm Hm' Hle.
  destruct (Z.le_gt_cases e e') as [H|H]; [exact H|].
  destruct (F2R_binade m e ltac:(lia)) as [Hl _].
  assert (Hu : (F2R m' e' < bpow (e' + 53))%R).
  { replace (e' + 53) with (53 + e') by lia. rewrite <- F2R_pow2 by lia.
    unfold F2R. pose proof (bpow_pos e').
    assert (IZR m' < IZR (2 ^ 53))%R by (apply IZR_lt; lia). nra. }
  pose proof (bpow_le (e' + 53) (e + 52) ltac:(lia)). lra.
Qed.

Lemma bpow_opp (k : Z) : 0 <= k -> bpow (- k) = (/ IZR (2 ^ k))%R.
Proof.
  intros Hk. rewrite <- bpow_Z by lia.
  apply Rmult_eq_reg_l with (bpow k); [|pose proof (bpow_pos k); lra].
  rewrite <- bpow_add, Rinv_r by (pose proof (bpow_pos k); lra).
  replace (k + - k) with 0 by lia. reflexivity.
Qed.

(** [int] of a positive finite float is the floor of its value. *)
Lemma trunc_finite_floor (m : positive) (e : Z) :
  (IZR (trunc_finite false m e) <= F2R (Z.pos m) e
   < IZR (trunc_finite false m e) + 1)%R /\
  0 <= trunc_finite false m e.
Proof.
  unfold trunc_finite, F2R. destruct e as [|k|k].
  - unfold bpow. simpl. split; [lra|lia].
  - rewrite Z.shiftl_mul_pow2 by lia. rewrite mult_IZR, <- bpow_Z by lia.
    split; [lra|]. apply Z.mul_nonneg_nonneg; [lia|].
    apply Z.pow_nonneg. lia.
  - rewrite Z.shiftr_div_pow2 by lia.
    change (Z.neg k) with (- Z.pos k). rewrite bpow_opp by lia.
    assert (Hp : 0 < 2 ^ Z.pos k) by (apply Z.pow_pos_nonneg; lia).
    pose proof (Z.div_mod (Z.pos m) (2 ^ Z.pos k) ltac:(lia)) as Hdm.
    pose proof (Z.mod_pos_bound (Z.pos m) (2 ^ Z.pos k) Hp) as Hmod.
    set (t := Z.pos m / 2 ^ Z.pos k) in *.
    set (r := Z.pos m mod 2 ^ Z.pos k) in *.
    assert (HpR : (0 < IZR (2 ^ Z.pos k))%R) by (apply IZR_lt; lia).
    split; [|apply Z.div_pos; lia].
    rewrite Hdm at 1 2. rewrite plus_IZR, mult_IZR.
    assert (Hr0 : (0 <= IZR r)%R) by (apply IZR_le; lia).
    assert (Hr1 : (IZR r < IZR (2 ^ Z.pos k))%R) by (apply IZR_lt; lia).
    split.
    + apply Rmult_le_reg_r with (IZR (2 ^ Z.pos k)); [exact HpR|].
      rewrite Rmult_assoc, Rinv_l by lra. lra.
    + apply Rmult_lt_reg_r with (IZR (2 ^ Z.pos k)); [exact HpR|].
      rewrite Rmult_assoc, Rinv_l by lra. lra.
Qed.

Lemma Prim2SF_hundredfold (x total : Z) :
  Prim2SF (PrimFloat.mul (truediv x total) 100) = hundredfold_SF x total.
Proof.
  unfold hundredfold_SF, quotient_SF, truediv.
  now rewrite FloatAxioms.mul_spec, FloatAxioms.div_spec.
Qed.

Lemma Prim2SF_100 :
  Prim2SF 100 = S754_finite false 7036874417766400 (-46).
Proof. reflexivity. Qed.

Lemma F2R_100 : F2R 7036874417766400 (-46) = 100%R.
Proof.
  unfold F2R. change (-46) with (Z.opp 46). rewrite bpow_opp by lia.
  change 7036874417766400 with (100 * 2 ^ 46). rewrite mult_IZR.
  field. apply not_0_IZR. lia.
Qed.

(** The quotient [x / total] as rounded by the division. *)
Lemma quotient_SF_rounded (x total : Z) :
  0 < x < 2 ^ 53 -> 0 < total < 2 ^ 53 ->
  exists m e,
    quotient_SF x total = S754_finite false m e /\
    rounded (IZR x / IZR total) (Z.pos m) e /\ -106 <= e <= 1.
Proof.
  intros Hx Ht. unfold quotient_SF.
  destruct (Prim2SF_float_of_int x Hx) as (mx & ex & -> & Hmx & Hvx & Hex).
  destruct (Prim2SF_float_of_int total Ht) as (mt & et & -> & Hmt & Hvt & Het).
  destruct (SFdiv_rounded mx mt ex et Hmx Hmt ltac:(lia))
    as (m & e & Hdiv & Hr).
  rewrite Hvx, Hvt in Hr.
  exists m, e. split; [exact Hdiv|]. split; [exact Hr|].
  assert (HxR : (1 <= IZR x < IZR (2 ^ 53))%R)
    by (split; [apply IZR_le | apply IZR_lt]; lia).
  assert (HtR : (1 <= IZR total < IZR (2 ^ 53))%R)
    by (split; [apply IZR_le | apply IZR_lt]; lia).
  split.
  - (* 2^-53 <= x / total *)
    assert (Hlow : (F2R (2 ^ 52) (-105) <= IZR x / IZR total)%R).
    { rewrite F2R_pow2 by lia. replace (52 + -105) with (Z.opp 53) by lia.
      rewrite bpow_opp by lia.
      apply Rmult_le_reg_r with (IZR total); [lra|].
      unfold Rdiv. rewrite Rmult_assoc, Rinv_l by lra.
      apply Rmult_le_reg_l with (IZR (2 ^ 53)); [lra|].
      rewrite <- Rmult_assoc, Rinv_r by lra. nra. }
    pose proof (rounded_ge_exact _ _ _ (2 ^ 52) (-105) Hr ltac:(lia) Hlow)
      as Hge.
    destruct Hr as [Hm _].
    apply (normal_le_exp (2 ^ 52) (-105) (Z.pos m) e) in Hge; lia.
  - (* x / total <= x < 2^53 *)
    assert (Hupp : (IZR x / IZR total <= F2R (2 ^ 52) 1)%R).
    { rewrite F2R_pow2 by lia. rewrite bpow_Z by lia.
      apply Rmult_le_reg_r with (IZR total); [lra|].
      unfold Rdiv. rewrite Rmult_assoc, Rinv_l by lra.
      change (52 + 1) with 53. nra. }
    pose proof (rounded_le_exact _ _ _ (2 ^ 52) 1 Hr ltac:(lia) Hupp)
      as Hle.
    destruct Hr as [Hm _].
    apply (normal_le_exp (Z.pos m) e (2 ^ 52) 1) in Hle; lia.
Qed.

(** The two roundings behind [percent]. *)
Lemma hundredfold_SF_rounded (x total : Z) :
  0 < x < 2 ^ 53 -> 0 < total < 2 ^ 53 ->
  exists mq eq m e,
    quotient_SF x total = S754_finite false mq eq /\
    rounded (IZR x / IZR total) (Z.pos mq) eq /\
    hundredfold_SF x total = S754_finite false m e /\
    rounded (F2R (Z.pos mq) eq * 100) (Z.pos m) e.
Proof.
  intros Hx Ht.
  destruct (quotient_SF_rounded x total Hx Ht) as (mq & eq & Hq & Hr & Heq).
  unfold hundredfold_SF. rewrite Hq, Prim2SF_100.
  destruct (SFmul_rounded mq 7036874417766400 eq (-46))
    as (m & e & Hmul & Hrm); [apply Hr | lia | lia |].
  rewrite F2R_100 in Hrm.
  exists mq, eq, m, e. auto.
Qed.

Lemma percent_of_hundredfold (x total : Z) (m : positive) (e : Z) :
  hundredfold_SF x total = S754_finite false m e ->
  FileTranscriptionWorker.percent x total = Ok (Z.min (trunc_finite false m e) 100).
Proof.
  intros H. unfold FileTranscriptionWorker.percent, int_of_float.
  now rewrite Prim2SF_hundredfold, H.
Qed.

(** [percent] never raises and stays within 0..100. *)
Lemma percent_total (x total : Z) :
  0 < x < 2 ^ 53 -> 0 < total < 2 ^ 53 ->
  exists p, FileTranscriptionWorker.percent x total = Ok p /\ 0 <= p <= 100.
Proof.
  intros Hx Ht.
  destruct (hundredfold_SF_rounded x total Hx Ht)
    as (mq & eq & m & e & _ & _ & Hh & _).
  rewrite (percent_of_hundredfold _ _ _ _ Hh).
  eexists. split; [reflexivity|].
  destruct (trunc_finite_floor m e) as [_ H0]. unfold trunc_finite in *. lia.
Qed.

(** [percent] is monotone in the frames processed. *)
Lemma percent_mono (x x' total p p' : Z) :
  0 < x <= x' -> x' < 2 ^ 53 -> 0 < total < 2 ^ 53 ->
  FileTranscriptionWorker.percent x total = Ok p -> FileTranscriptionWorker.percent x' total = Ok p' -> p <= p'.
Proof.
  intros Hx Hx' Ht Hp Hp'.
  destruct (Z.eq_dec x x') as [->|Hne]; [rewrite Hp in Hp'; inversion Hp'; lia|].
  destruct (hundredfold_SF_rounded x total ltac:(lia) Ht)
    as (mq & eq & m & e & Hq & Hrq & Hh & Hrh).
  destruct (hundredfold_SF_rounded x' total ltac:(lia) Ht)
    as (mq' & eq' & m' & e' & Hq' & Hrq' & Hh' & Hrh').
  rewrite (percent_of_hundredfold _ _ _ _ Hh) in Hp.
  rewrite (percent_of_hundredfold _ _ _ _ Hh') in Hp'.
  inversion Hp; inversion Hp'; subst p p'; clear Hp Hp'.
  assert (Hquot : (F2R (Z.pos mq) eq <= F2R (Z.pos mq') eq')%R).
  { apply (rounded_mono _ _ _ _ _ _ Hrq Hrq').
    assert (HtR : (0 < IZR total)%R) by (apply IZR_lt; lia).
    assert (HxR : (IZR x < IZR x')%R) by (apply IZR_lt; lia).
    unfold Rdiv. apply Rmult_lt_compat_r; [apply Rinv_0_lt_compat|]; lra. }
  assert (Hprod : (F2R (Z.pos m) e <= F2R (Z.pos m') e')%R).
  { destruct (Rle_lt_or_eq_dec _ _ Hquot) as [Hlt | Heq].
    - apply (rounded_mono _ _ _ _ _ _ Hrh Hrh'). lra.
    - destruct (normal_inj _ _ _ _ (proj1 Hrq) (proj1 Hrq') Heq) as [Hm He].
      inversion Hm; subst mq' eq'.
      unfold hundredfold_SF in Hh, Hh'. rewrite Hq in Hh. rewrite Hq' in Hh'.
      rewrite Hh in Hh'. inversion Hh'; subst. apply Rle_refl. }
  destruct (trunc_finite_floor m e) as [[Hl Hu] _].
  destruct (trunc_finite_floor m' e') as [[Hl' Hu'] _].
  assert (trunc_finite false m e < trunc_finite false m' e' + 1); [|unfold trunc_finite in *; lia].
  apply lt_IZR. rewrite plus_IZR. lra.
Qed.

(** Before the last frame is processed [percent] is below 100. *)
Lemma percent_below (x total p : Z) :
  0 < x < total -> total < 2 ^ 32 -> FileTranscriptionWorker.percent x total = Ok p -> p < 100.
Proof.
  intros Hx Ht Hp.
  destruct (hundredfold_SF_rounded x total ltac:(lia) ltac:(lia))
    as (mq & eq & m & e & Hq & Hrq & Hh & Hrh).
  rewrite (percent_of_hundredfold _ _ _ _ Hh) in Hp.
  inversion Hp; subst p; clear Hp.
  (* x / total <= 1 - 2^-32 *)
  assert (Hquot : (F2R (Z.pos mq) eq <= F2R ((2 ^ 32 - 1) * 2 ^ 21) (-53))%R).
  { apply (rounded_le_exact _ _ _ _ _ Hrq); [lia|].
    unfold F2R. change (-53) with (Z.opp 53). rewrite bpow_opp by lia.
    assert (HtR : (0 < IZR total)%R) by (apply IZR_lt; lia).
    assert (H53 : (0 < IZR (2 ^ 53))%R) by (apply IZR_lt; lia).
    apply Rmult_le_reg_r with (IZR total); [exact HtR|].
    unfold Rdiv. rewrite Rmult_assoc, Rinv_l by lra.
    apply Rmult_le_reg_l with (IZR (2 ^ 53)); [exact H53|].
    replace (IZR (2 ^ 53) * (IZR ((2 ^ 32 - 1) * 2 ^ 21) * / IZR (2 ^ 53)
                             * IZR total))%R
      with (IZR ((2 ^ 32 - 1) * 2 ^ 21) * IZR total)%R by (field; lra).
    rewrite Rmult_1_r, <- !mult_IZR. apply IZR_le. lia. }
  (* so the hundredfold is at most 100 - 100 * 2^-32 *)
  assert (Hprod : (F2R (Z.pos m) e
                   <= F2R (25 * (2 ^ 32 - 1) * 2 ^ 16) (-46))%R).
  { apply (rounded_le_exact _ _ _ _ _ Hrh); [lia|].
    apply Rle_trans with (F2R ((2 ^ 32 - 1) * 2 ^ 21) (-53) * 100)%R; [lra|].
    unfold F2R. change (-53) with (Z.opp 53). change (-46) with (Z.opp 46).
    rewrite !bpow_opp by lia.
    assert (H53 : (0 < IZR (2 ^ 53))%R) by (apply IZR_lt; lia).
    assert (H46 : (0 < IZR (2 ^ 46))%R) by (apply IZR_lt; lia).
    right.
    change (2 ^ 53) with (2 ^ 46 * 2 ^ 7).
    change ((2 ^ 32 - 1) * 2 ^ 21) with ((2 ^ 32 - 1) * 2 ^ 14 * 2 ^ 7).
    change (25 * (2 ^ 32 - 1) * 2 ^ 16) with ((2 ^ 32 - 1) * 2 ^ 14 * 100).
    rewrite !mult_IZR. field. split; apply not_0_IZR; lia. }
  assert (Hw : (F2R (25 * (2 ^ 32 - 1) * 2 ^ 16) (-46) < 100)%R).
  { unfold F2R. change (-46) with (Z.opp 46). rewrite bpow_opp by lia.
    assert (H46 : (0 < IZR (2 ^ 46))%R) by (apply IZR_lt; lia).
    apply Rmult_lt_reg_r with (IZR (2 ^ 46)); [exact H46|].
    rewrite Rmult_assoc, Rinv_l by lra.
    rewrite Rmult_1_r, <- mult_IZR. apply IZR_lt. lia. }
  destruct (trunc_finite_floor m e) as [[Hl _] _].
  assert (trunc_finite false m e < 100); [|unfold trunc_finite in *; lia].
  apply lt_IZR. lra.
Qed.

(** * Properties *)

(** ** Clamping *)

(** C8: for every integer, the clamping step sends a value of 32767 or more
    to 32767, a value of -32768 or less to -32768, and leaves a value
    already in [-32768, 32767] as it is. *)
Theorem clamp16_saturates (v : Z) :
  (32767 <= v -> _clamp16 v = 32767) /\
  (v <= -32768 -> _clamp16 v = -32768) /\
  (-32768 <= v <= 32767 -> _clamp16 v = v).
Proof. unfold _clamp16. repeat split; intros; lia. Qed.

Lemma clamp16_range (v : Z) : -32768 <= _clamp16 v <= 32767.
Proof. unfold _clamp16. lia. Qed.

Lemma clamp16_id (v : Z) : -32768 <= v <= 32767 -> _clamp16 v = v.
Proof. unfold _clamp16. lia. Qed.

(** ** The recognition wrapper *)

Lemma lstrip_all_space (s : string) : all_space s = true -> lstrip s = "".
Proof.
  induction s as [|c s IH]; simpl; [reflexivity|].
  intros H. apply andb_prop in H as [Hc Hs]. rewrite Hc. auto.
Qed.

Lemma strip_all_space (s : string) : all_space s = true -> strip s = "".
Proof. intros H. unfold strip. now rewrite lstrip_all_space. Qed.

Lemma nonempty_or_None_Some (s t : string) :
  nonempty_or_None s = Some t -> t = s /\ t <> "".
Proof. destruct s; simpl; intros H; inversion H; subst; split; congruence. Qed.

(** C5: a call of [process_chunk] that returns never populates both
    components; a populated component is never the empty string; and when
    the text the engine reported for this call (its final text after an
    utterance boundary, its partial hypothesis otherwise) is empty or only
    white space, both components are [None]. *)
Theorem process_chunk_exclusive {RS : Type} (recognizer : KaldiRecognizer RS)
    (st st' : RS) (data : list byte) (final partial : option string) :
  TranscriptionEngine.process_chunk recognizer st data
    = Ok (st', (final, partial)) ->
  (final = None \/ partial = None) /\
  final <> Some "" /\ partial <> Some "" /\
  (forall st1 accepted,
      AcceptWaveform recognizer st data = Ok (st1, accepted) ->
      let text := if accepted
                  then get (j_text (snd (Result recognizer st1))) ""
                  else get (j_partial (snd (PartialResult recognizer st1))) ""
      in all_space text = true -> final = None /\ partial = None).
Proof.
  unfold TranscriptionEngine.process_chunk. intros H.
  destruct (AcceptWaveform recognizer st data) as [[st1 accepted]|ex] eqn:HA;
    simpl in H; [|discriminate].
  destruct accepted.
  - destruct (Result recognizer st1) as [st2 res] eqn:HR.
    inversion H; subst; clear H.
    repeat split; auto.
    + intros Hs. apply nonempty_or_None_Some in Hs as [_ Hs]. congruence.
    + discriminate.
    + inversion H; subst accepted st0. rewrite HR in H0. simpl in H0.
      now rewrite (strip_all_space _ H0).
  - destruct (PartialResult recognizer st1) as [st2 res] eqn:HR.
    inversion H; subst; clear H.
    repeat split; auto.
    + discriminate.
    + intros Hs. apply nonempty_or_None_Some in Hs as [_ Hs]. congruence.
    + inversion H; subst accepted st0. rewrite HR in H0. simpl in H0.
      now rewrite (strip_all_space _ H0).
Qed.

Lemma process_chunk_exclusive_witness :
  TranscriptionEngine.process_chunk blank tt [x00; x00] = Ok (tt, (None, None))
  /\ ((@None string = None \/ @None string = None) /\
      None <> Some "" /\ None <> Some "" /\
      (forall st1 accepted,
          AcceptWaveform blank tt [x00; x00] = Ok (st1, accepted) ->
          let text := if accepted
                      then get (j_text (snd (Result blank st1))) ""
                      else get (j_partial (snd (PartialResult blank st1))) ""
          in all_space text = true -> @None string = None /\ @None string = None)).
Proof.
  split; [reflexivity|].
  apply (process_chunk_exclusive blank tt tt [x00; x00] None None).
  reflexivity.
Defined.

(** ** Opening and closing streams *)

Section Streams.

Variable h : Host.

Lemma close_one_calls (w : PortAudio) (s : Stream) :
  calls (AudioEngine_.close_one h w s) = calls w ++ close_calls h s.
Proof.
  unfold AudioEngine_.close_one, close_calls.
  destruct (is_active h s) as [[|]|]; simpl;
    try destruct (stop_raises h s); simpl;
    try destruct (close_raises h s); simpl;
    rewrite <- ?app_assoc; reflexivity.
Qed.

Lemma close_one_created (w : PortAudio) (s : Stream) :
  created (AudioEngine_.close_one h w s) = created w.
Proof.
  unfold AudioEngine_.close_one.
  destruct (is_active h s) as [[|]|]; simpl;
    try destruct (stop_raises h s); simpl;
    try destruct (close_raises h s); reflexivity.
Qed.

Lemma close_one_live (w : PortAudio) (s : Stream) :
  live (AudioEngine_.close_one h w s)
  = if closes_cleanly h s
    then filter (fun t => negb (Nat.eqb t s)) (live w)
    else live w.
Proof.
  unfold AudioEngine_.close_one, closes_cleanly.
  destruct (is_active h s) as [[|]|]; simpl;
    try destruct (stop_raises h s); simpl;
    try destruct (close_raises h s); reflexivity.
Qed.

Lemma close_one_live_incl (w : PortAudio) (s t : Stream) :
  In t (live (AudioEngine_.close_one h w s)) -> In t (live w).
Proof.
  rewrite close_one_live. destruct (closes_cleanly h s); auto.
  intros H. apply filter_In in H. tauto.
Qed.


Lemma close_all_calls (streams : list (Stream * float)) (w : PortAudio) :
  calls (close_all h w streams)
  = calls w ++ flat_map (close_calls h) (map fst streams).
Proof.
  revert w. induction streams as [|[s g] streams IH]; intros w; simpl.
  - now rewrite app_nil_r.
  - unfold close_all in *. simpl. rewrite IH, close_one_calls.
    now rewrite <- !app_assoc.
Qed.

Lemma close_all_created (streams : list (Stream * float)) (w : PortAudio) :
  created (close_all h w streams) = created w.
Proof.
  revert w. induction streams as [|[s g] streams IH]; intros w; simpl; auto.
  unfold close_all in *. simpl. now rewrite IH, close_one_created.
Qed.

Lemma close_all_live_incl (streams : list (Stream * float)) (w : PortAudio)
    (t : Stream) :
  In t (live (close_all h w streams)) -> In t (live w).
Proof.
  revert w. induction streams as [|[s g] streams IH]; intros w; simpl; auto.
  unfold close_all in *. simpl. intros H.
  eapply close_one_live_incl, IH, H.
Qed.

Lemma close_all_closed (streams : list (Stream * float)) (w : PortAudio)
    (s : Stream) :
  In s (map fst streams) -> closes_cleanly h s = true ->
  ~ In s (live (close_all h w streams)).
Proof.
  revert w. induction streams as [|[s' g] streams IH]; intros w; simpl.
  - tauto.
  - intros [Heq | Hin] Hc.
    + subst s'. unfold close_all. simpl. intros H.
      apply close_all_live_incl in H.
      rewrite close_one_live, Hc in H. apply filter_In in H as [_ H].
      now rewrite Nat.eqb_refl in H.
    + unfold close_all in *. simpl. now apply IH.
Qed.

(** What the loop of [open_streams] adds: fresh streams, numbered from
    [created w] on, at most one for each enabled source. *)
Lemma open_each_spec (sources : list Source) (w : PortAudio)
    (streams : list (Stream * float)) :
  exists new,
    snd (AudioEngine_.open_each h sources w streams) = streams ++ new /\
    (List.length new <= List.length (filter is_enabled sources))%nat /\
    map fst new = seq (created w) (List.length new) /\
    created (fst (AudioEngine_.open_each h sources w streams))
    = (created w + List.length new)%nat /\
    live (fst (AudioEngine_.open_each h sources w streams))
    = live w ++ map fst new /\
    calls (fst (AudioEngine_.open_each h sources w streams))
    = calls w ++ open_calls sources.
Proof.
  revert w streams.
  induction sources as [|src sources IH]; intros w streams; simpl.
  - exists []. simpl. rewrite !app_nil_r, Nat.add_0_r. auto 10.
  - unfold open_calls, is_enabled in *. simpl.
    destruct (get (enabled src) false) eqn:He; simpl.
    + destruct (open_raises h (created w) (device_index src)) eqn:Ho.
      * destruct (IH (log (Call_open (device_index src)) w) streams)
          as (new & H1 & H2 & H3 & H4 & H5 & H6).
        exists new. simpl in *. rewrite H1, H4, H5, H6.
        rewrite <- app_assoc. simpl. repeat split; auto; lia.
      * destruct (IH (snd (new_stream
                             (log (Call_open (device_index src)) w)))
                    (streams ++ [(created w, get (gain src) 1%float)]))
          as (new & H1 & H2 & H3 & H4 & H5 & H6).
        exists ((created w, get (gain src) 1%float) :: new).
        unfold new_stream, log in *. simpl in *.
        repeat split.
        -- etransitivity; [exact H1|]. now rewrite <- app_assoc.
        -- lia.
        -- now rewrite H3.
        -- etransitivity; [exact H4|]. lia.
        -- etransitivity; [exact H5|]. now rewrite <- app_assoc.
        -- etransitivity; [exact H6|]. now rewrite <- app_assoc.
    + destruct (IH w streams) as (new & H1 & H2 & H3 & H4 & H5 & H6).
      exists new. repeat split; auto.
Qed.

(** When every source is disabled or fails to open, nothing is added. *)
Lemma open_each_none (sources : list Source) (w : PortAudio)
    (streams : list (Stream * float)) :
  Forall (fun src => is_enabled src = false \/
                     forall n, open_raises h n (device_index src) = true)
         sources ->
  snd (AudioEngine_.open_each h sources w streams) = streams.
Proof.
  intros HF. revert w streams.
  induction HF as [|src sources Hsrc _ IH]; intros w streams; simpl; auto.
  unfold is_enabled in Hsrc.
  destruct (get (enabled src) false); simpl; auto.
  destruct Hsrc as [Hd | Hr]; [discriminate|].
  rewrite Hr. apply IH.
Qed.

End Streams.

Lemma read_and_mix_no_streams (h : Host) (self : AudioEngine) :
  _streams self = [] -> AudioEngine_.read_and_mix h self = Ok [].
Proof. unfold AudioEngine_.read_and_mix. now intros ->. Qed.

(** C6: when the source list is empty, or every source is disabled, or every
    attempted open raises (in general: each source is disabled or its open
    raises), [open_streams] ends with no open handle and raises the "no
    audio streams" error; and [read_and_mix] on an engine with no open
    handle returns the empty buffer without raising. *)
Theorem open_streams_none_available (h : Host) (sources : list Source)
    (w : PortAudio) (self : AudioEngine) :
  Forall (fun src => is_enabled src = false \/
                     forall n, open_raises h n (device_index src) = true)
         sources ->
  (_streams (snd (fst (AudioEngine_.open_streams h sources w self))) = [] /\
   snd (AudioEngine_.open_streams h sources w self)
   = Raise (RuntimeError AudioEngine_.no_streams_msg)) /\
  (forall h' engine,
      _streams engine = [] -> AudioEngine_.read_and_mix h' engine = Ok []).
Proof.
  intros HF. split; [|apply read_and_mix_no_streams].
  unfold AudioEngine_.open_streams, AudioEngine_.close_streams. simpl.
  pose proof (open_each_none h sources
                (fold_left (fun w sg => AudioEngine_.close_one h w (fst sg))
                           (_streams self) w) [] HF) as Hn.
  destruct (AudioEngine_.open_each h sources _ []) as [w' streams].
  simpl in Hn. subst streams. simpl. auto.
Qed.

Lemma open_streams_none_available_witness :
  Forall (fun src => is_enabled src = false \/
                     forall n, open_raises busy_host n (device_index src) = true)
         [mic 0 1 false; mic 1 1 true] /\
  ((_streams (snd (fst (AudioEngine_.open_streams busy_host
                          [mic 0 1 false; mic 1 1 true]
                          fresh_audio AudioEngine_.__init__))) = [] /\
    snd (AudioEngine_.open_streams busy_host [mic 0 1 false; mic 1 1 true]
           fresh_audio AudioEngine_.__init__)
    = Raise (RuntimeError AudioEngine_.no_streams_msg)) /\
   (forall h' engine,
       _streams engine = [] -> AudioEngine_.read_and_mix h' engine = Ok [])).
Proof.
  assert (HF : Forall (fun src => is_enabled src = false \/
                     forall n, open_raises busy_host n (device_index src) = true)
                 [mic 0 1 false; mic 1 1 true]).
  { constructor; [left; reflexivity|].
    constructor; [right; intros n; reflexivity|]. constructor. }
  split; [exact HF|].
  exact (open_streams_none_available busy_host [mic 0 1 false; mic 1 1 true]
           fresh_audio AudioEngine_.__init__ HF).
Defined.

(** C7, counterexample: the engine holds stream 0, which is running; its
    [stop_stream] raises [OSError], so [close_streams] never calls [close]
    on it; the next [open_streams] opens stream 1 while stream 0 is still
    open at the audio layer. *)
Lemma open_streams_abandons_unstoppable :
  ~ closes_every_previous_handle stuck_host [mic 0 1 true]
      (fst first_opened) (snd first_opened).
Proof.
  intros H. apply (H 0%nat); vm_compute; auto.
Qed.

Example unstoppable_stream_trace :
  let r := AudioEngine_.open_streams stuck_host [mic 0 1 true]
             (fst first_opened) (snd first_opened) in
  calls (fst (fst r))
  = [Call_open 0; Call_is_active 0%nat; Call_stop_stream 0%nat; Call_open 0] /\
  live (fst (fst r)) = [0; 1]%nat /\
  map fst (_streams (snd (fst r))) = [1%nat] /\
  snd r = Ok tt.
Proof. vm_compute. auto. Qed.

(** C7, amended: [open_streams] first runs the best-effort close over every
    handle the engine held (for each: [is_active], [stop_stream] when it is
    active, then [close]; an [OSError] from one of these calls abandons that
    handle) and only then opens; every enabled source is tried, in order,
    whether or not an earlier open raised; at most one handle per enabled
    source results; the engine's new set consists of fresh streams only, all
    of them open, and contains none of the handles held before; a previous
    handle whose close went through is no longer open; and the call returns
    normally exactly when the new set is not empty. *)
Theorem open_streams_replaces (h : Host) (sources : list Source)
    (w : PortAudio) (self : AudioEngine) :
  Forall (fun s => (s < created w)%nat) (map fst (_streams self)) ->
  let old := map fst (_streams self) in
  let r := AudioEngine_.open_streams h sources w self in
  let w' := fst (fst r) in
  let self' := snd (fst r) in
  calls w' = calls w ++ flat_map (close_calls h) old ++ open_calls sources /\
  (forall s, In s old -> closes_cleanly h s = true -> ~ In s (live w')) /\
  (List.length (_streams self')
   <= List.length (filter is_enabled sources))%nat /\
  map fst (_streams self')
  = seq (created w) (List.length (_streams self')) /\
  (forall s, In s old -> ~ In s (map fst (_streams self'))) /\
  (forall s, In s (map fst (_streams self')) -> In s (live w')) /\
  (snd r = Ok tt <-> _streams self' <> []).
Proof.
  intros Hold old r w' self'.
  subst r w' self'. unfold AudioEngine_.open_streams,
    AudioEngine_.close_streams. simpl.
  fold (close_all h w (_streams self)).
  destruct (open_each_spec h sources (close_all h w (_streams self)) [])
    as (new & H1 & H2 & H3 & H4 & H5 & H6).
  destruct (AudioEngine_.open_each h sources
              (close_all h w (_streams self)) []) as [w1 streams].
  simpl in *. subst streams.
  rewrite close_all_created in H3.
  assert (Hres : (fst (fst (match new with
            | [] => (w1, {| _pa := true; _streams := new |},
                     Raise (RuntimeError AudioEngine_.no_streams_msg))
            | _ :: _ => (w1, {| _pa := true; _streams := new |}, Ok tt)
            end)) = w1) /\
          (snd (fst (match new with
            | [] => (w1, {| _pa := true; _streams := new |},
                     Raise (RuntimeError AudioEngine_.no_streams_msg))
            | _ :: _ => (w1, {| _pa := true; _streams := new |}, Ok tt)
            end)) = {| _pa := true; _streams := new |})).
  { destruct new; auto. }
  destruct Hres as [Hw Hs]. rewrite Hw, Hs. simpl.
  repeat split.
  - rewrite H6, close_all_calls. now rewrite <- app_assoc.
  - intros s Hin Hc Hl. rewrite H5 in Hl.
    apply in_app_or in Hl as [Hl | Hl].
    + revert Hl. now apply close_all_closed.
    + rewrite H3 in Hl. apply in_seq in Hl.
      rewrite Forall_forall in Hold. specialize (Hold s Hin). lia.
  - exact H2.
  - exact H3.
  - intros s Hin Hn. rewrite H3 in Hn. apply in_seq in Hn.
    rewrite Forall_forall in Hold. specialize (Hold s Hin). lia.
  - intros s Hin. rewrite H5. apply in_or_app. now right.
  - destruct new; simpl; [discriminate|]. intros _. discriminate.
  - destruct new; simpl; [tauto|]. reflexivity.
Qed.

Lemma open_streams_replaces_witness :
  let h := stuck_host in
  let sources := [mic 0 1 true; mic 1 0.5 true; mic 2 1 false] in
  let w := fst first_opened in
  let self := snd first_opened in
  Forall (fun s => (s < created w)%nat) (map fst (_streams self)) /\
  let old := map fst (_streams self) in
  let r := AudioEngine_.open_streams h sources w self in
  let w' := fst (fst r) in
  let self' := snd (fst r) in
  calls w' = calls w ++ flat_map (close_calls h) old ++ open_calls sources /\
  (forall s, In s old -> closes_cleanly h s = true -> ~ In s (live w')) /\
  (List.length (_streams self')
   <= List.length (filter is_enabled sources))%nat /\
  map fst (_streams self')
  = seq (created w) (List.length (_streams self')) /\
  (forall s, In s old -> ~ In s (map fst (_streams self'))) /\
  (forall s, In s (map fst (_streams self')) -> In s (live w')) /\
  (snd r = Ok tt <-> _streams self' <> []).
Proof.
  intros h sources w self.
  assert (H : Forall (fun s => (s < created w)%nat) (map fst (_streams self))).
  { repeat constructor. }
  split; [exact H|].
  exact (open_streams_replaces h sources w self H).
Defined.

(** Three sources, the third disabled: two handles are opened. *)
Example open_two_of_three :
  map fst (_streams (snd (fst (AudioEngine_.open_streams quiet_host
                                 [mic 0 1 true; mic 1 0.5 true; mic 2 1 false]
                                 fresh_audio AudioEngine_.__init__))))
  = [0; 1]%nat.
Proof. reflexivity. Qed.

(** ** Packing and unpacking *)

Lemma byte_of_Z_to_N (z : Z) :
  0 <= z < 256 -> Z.of_N (Byte.to_N (Struct.byte_of_Z z)) = z.
Proof.
  intros Hz. unfold Struct.byte_of_Z.
  destruct (Byte.of_N (Z.to_N z)) as [b|] eqn:Hb.
  - apply Byte.to_of_N in Hb. rewrite Hb. lia.
  - apply Byte.of_N_None_iff in Hb. lia.
Qed.

Lemma byte_of_Z_of_byte (b : byte) :
  Struct.byte_of_Z (Z.of_N (Byte.to_N b)) = b.
Proof.
  unfold Struct.byte_of_Z. now rewrite N2Z.id, Byte.of_to_N.
Qed.

Lemma byte_range (b : byte) : 0 <= Z.of_N (Byte.to_N b) < 256.
Proof. pose proof (Byte.to_N_bounded b). lia. Qed.

Lemma unpack_h_range (lo hi : byte) :
  -32768 <= Struct.unpack_h lo hi <= 32767.
Proof.
  unfold Struct.unpack_h.
  pose proof (byte_range lo). pose proof (byte_range hi).
  destruct (Z.ltb_spec (Z.of_N (to_N lo) + 256 * Z.of_N (to_N hi)) 32768); lia.
Qed.

(** Packing what was unpacked gives the two bytes back. *)
Lemma pack_unpack_h (lo hi : byte) :
  Struct.pack_h (Struct.unpack_h lo hi) = Ok [lo; hi].
Proof.
  pose proof (unpack_h_range lo hi) as Hr.
  unfold Struct.pack_h.
  replace ((-32768 <=? Struct.unpack_h lo hi)
           && (Struct.unpack_h lo hi <=? 32767)) with true
    by (symmetry; apply andb_true_iff; split; apply Z.leb_le; lia).
  pose proof (byte_range lo) as Hlo. pose proof (byte_range hi) as Hhi.
  assert (Hu : Struct.unpack_h lo hi mod 65536
               = Z.of_N (to_N lo) + 256 * Z.of_N (to_N hi)).
  { unfold Struct.unpack_h.
    destruct (Z.ltb_spec (Z.of_N (to_N lo) + 256 * Z.of_N (to_N hi)) 32768).
    - apply Z.mod_small. lia.
    - symmetry. apply (Z.mod_unique _ _ (-1)); lia. }
  rewrite Hu.
  assert (Hm : (Z.of_N (to_N lo) + 256 * Z.of_N (to_N hi)) mod 256
               = Z.of_N (to_N lo)).
  { symmetry. apply (Z.mod_unique _ _ (Z.of_N (to_N hi))); lia. }
  assert (Hd : (Z.of_N (to_N lo) + 256 * Z.of_N (to_N hi)) / 256
               = Z.of_N (to_N hi)).
  { symmetry. apply (Z.div_unique _ _ _ (Z.of_N (to_N lo))); lia. }
  now rewrite Hm, Hd, !byte_of_Z_of_byte.
Qed.

(** Unpacking what was packed gives the value back. *)
Lemma unpack_pack_h (v : Z) :
  -32768 <= v <= 32767 ->
  exists lo hi, Struct.pack_h v = Ok [lo; hi] /\ Struct.unpack_h lo hi = v.
Proof.
  intros Hv. unfold Struct.pack_h.
  replace ((-32768 <=? v) && (v <=? 32767)) with true
    by (symmetry; apply andb_true_iff; split; apply Z.leb_le; lia).
  eexists _, _. split; [reflexivity|].
  unfold Struct.unpack_h.
  pose proof (Z.mod_pos_bound v 65536 ltac:(lia)) as Hu.
  pose proof (Z.mod_pos_bound (v mod 65536) 256 ltac:(lia)) as Hlo.
  assert (Hhi : 0 <= v mod 65536 / 256 < 256).
  { split; [apply Z.div_pos; lia|apply Z.div_lt_upper_bound; lia]. }
  rewrite !byte_of_Z_to_N by assumption.
  pose proof (Z.div_mod (v mod 65536) 256 ltac:(lia)) as Hdm.
  replace (v mod 65536 mod 256 + 256 * (v mod 65536 / 256))
    with (v mod 65536) by lia.
  destruct (Z.ltb_spec (v mod 65536) 32768) as [Hlt | Hge].
  - destruct (Z.le_gt_cases 0 v).
    + apply Z.mod_small. lia.
    + rewrite <- (Z.mod_unique v 65536 (-1) (v + 65536)) in Hlt; lia.
  - destruct (Z.le_gt_cases 0 v).
    + rewrite Z.mod_small in Hge; lia.
    + rewrite <- (Z.mod_unique v 65536 (-1) (v + 65536)); lia.
Qed.

(** A list taken two elements at a time. *)
Lemma pairs_ind {A : Type} (P : list A -> Prop) :
  P [] -> (forall a, P [a]) ->
  (forall a b l, P l -> P (a :: b :: l)) ->
  forall l, P l.
Proof.
  intros H0 H1 H2.
  assert (H : forall l, P l /\ forall a, P (a :: l)).
  { induction l as [|b l [IH1 IH2]]; split; auto. }
  intros l. apply H.
Qed.

Lemma unpack_items_length (n : nat) (raw : list byte) :
  List.length raw = (2 * n)%nat -> List.length (Struct.unpack_items raw) = n.
Proof.
  revert n. induction raw as [| a | a b raw IH] using pairs_ind;
    intros n Hn; simpl in *.
  - lia.
  - lia.
  - destruct n as [|n]; [lia|]. f_equal. apply IH. lia.
Qed.

Lemma unpack_items_range (raw : list byte) :
  Forall (fun v => -32768 <= v <= 32767) (Struct.unpack_items raw).
Proof.
  induction raw as [| a | a b raw IH] using pairs_ind; simpl; auto.
  constructor; [apply unpack_h_range | exact IH].
Qed.

Lemma pack_unpack_items (n : nat) (raw : list byte) :
  List.length raw = (2 * n)%nat ->
  Struct.pack_items (Struct.unpack_items raw) = Ok raw.
Proof.
  revert n. induction raw as [| a | a b raw IH] using pairs_ind;
    intros n Hn; simpl in *.
  - reflexivity.
  - lia.
  - destruct n as [|n]; [lia|].
    rewrite pack_unpack_h. simpl. rewrite (IH n) by lia. reflexivity.
Qed.

Lemma pack_items_clamped (vals : list Z) :
  Forall (fun v => -32768 <= v <= 32767) vals ->
  exists buf, Struct.pack_items vals = Ok buf /\
              List.length buf = (2 * List.length vals)%nat /\
              Struct.unpack_items buf = vals.
Proof.
  induction 1 as [|v vals Hv _ (buf & Hb & Hl & Hu)]; simpl.
  - exists []. auto.
  - destruct (unpack_pack_h v Hv) as (lo & hi & Hp & Hup).
    rewrite Hp, Hb. simpl. exists (lo :: hi :: buf). simpl.
    repeat split; [lia | congruence].
Qed.


(** ** Mixing *)

#[local] Opaque CHUNK_SIZE.

Lemma gained_ok (s : Z) (g : float) (c : Z) :
  int_of_float (int_mul_float s g) = Ok c -> gained s g = c.
Proof. unfold gained. now intros ->. Qed.

Lemma add_gained_ok (g : float) (samples mixed out : list Z) :
  List.length samples = List.length mixed ->
  AudioEngine_.add_gained mixed samples g = Ok out ->
  List.length out = List.length mixed /\
  forall i, (i < List.length mixed)%nat ->
            nth i out 0 = nth i mixed 0 + gained (nth i samples 0) g.
Proof.
  revert mixed out.
  induction samples as [|s samples IH]; intros [|m mixed] out Hl H;
    simpl in *; try discriminate.
  - inversion H; subst. split; [reflexivity|]. intros i Hi. lia.
  - destruct (int_of_float (int_mul_float s g)) as [c|] eqn:Hc;
      simpl in H; [|discriminate].
    destruct (AudioEngine_.add_gained mixed samples g) as [rest|] eqn:Hr;
      simpl in H; [|discriminate].
    inversion H; subst out; clear H.
    destruct (IH mixed rest ltac:(lia) Hr) as [Hlen Hnth].
    split; [simpl; lia|].
    intros [|i] Hi; simpl.
    + now rewrite (gained_ok _ _ _ Hc).
    + apply Hnth. lia.
Qed.

Lemma add_gained_total (g : float) (samples mixed : list Z) :
  List.length samples = List.length mixed ->
  forallb (fun s => is_ok (int_of_float (int_mul_float s g))) samples = true ->
  exists out, AudioEngine_.add_gained mixed samples g = Ok out.
Proof.
  revert mixed.
  induction samples as [|s samples IH]; intros [|m mixed] Hl H;
    simpl in *; try discriminate.
  - eauto.
  - apply andb_prop in H as [Hs Hrest].
    destruct (int_of_float (int_mul_float s g)) as [c|]; [|discriminate].
    destruct (IH mixed ltac:(lia) Hrest) as [rest ->]. simpl. eauto.
Qed.

Lemma mix_each_ok (h : Host) (streams : list (Stream * float))
    (mixed out : list Z) :
  List.length mixed = CHUNK_SIZE ->
  AudioEngine_.mix_each h streams mixed = Ok out ->
  List.length out = CHUNK_SIZE /\
  forall i, (i < CHUNK_SIZE)%nat ->
            nth i out 0 = nth i mixed 0 + presum (heard h streams) i.
Proof.
  revert mixed.
  induction streams as [|[s g] streams IH]; intros mixed Hl H; simpl in *.
  - inversion H; subst. split; [assumption|]. intros. unfold presum. simpl. lia.
  - destruct (is_active h s) as [[|]|]; try (now apply IH).
    destruct (read h s) as [raw|]; try (now apply IH).
    unfold Struct.unpack in H.
    destruct (Nat.eqb_spec (List.length raw) (2 * CHUNK_SIZE)) as [Hraw|];
      simpl in H; [|discriminate].
    destruct (AudioEngine_.add_gained mixed (Struct.unpack_items raw) g)
      as [mixed'|] eqn:Ha; simpl in H; [|discriminate].
    pose proof (unpack_items_length _ _ Hraw) as Hu.
    destruct (add_gained_ok g (Struct.unpack_items raw) mixed mixed'
                ltac:(lia) Ha) as [Hlen Hnth].
    destruct (IH mixed' ltac:(lia) H) as [Hlo Hno].
    split; [assumption|]. intros i Hi.
    rewrite (Hno i Hi), (Hnth i ltac:(lia)).
    unfold presum. simpl. lia.
Qed.

Lemma mix_each_total (h : Host) (streams : list (Stream * float))
    (mixed : list Z) :
  full_frames h streams = true -> finite_products h streams = true ->
  List.length mixed = CHUNK_SIZE ->
  exists out, AudioEngine_.mix_each h streams mixed = Ok out.
Proof.
  unfold full_frames, finite_products. revert mixed.
  induction streams as [|[s g] streams IH]; intros mixed Hf Hp Hl; simpl in *.
  - eauto.
  - destruct (is_active h s) as [[|]|]; try (now apply IH).
    destruct (read h s) as [raw|]; try (now apply IH).
    simpl in Hf, Hp.
    apply andb_prop in Hf as [Hraw Hf]. apply andb_prop in Hp as [Hg Hp].
    apply Nat.eqb_eq in Hraw.
    assert (Hraw' : List.length raw = (2 * CHUNK_SIZE)%nat) by (simpl; lia).
    unfold Struct.unpack.
    destruct (Nat.eqb_spec (List.length raw) (2 * CHUNK_SIZE)) as [_|Hn];
      [|contradiction].
    simpl.
    pose proof (unpack_items_length _ _ Hraw') as Hu.
    destruct (add_gained_total g (Struct.unpack_items raw) mixed
                ltac:(lia) Hg) as [mixed' Ha].
    rewrite Ha. simpl.
    destruct (add_gained_ok g (Struct.unpack_items raw) mixed mixed'
                ltac:(lia) Ha) as [Hlen _].
    apply IH; auto. lia.
Qed.


Lemma Forall_map_clamp16 (l : list Z) :
  Forall (fun v => -32768 <= v <= 32767) (map _clamp16 l).
Proof. induction l; simpl; constructor; auto using clamp16_range. Qed.

(** What [read_and_mix] returns, when it returns: [2 * CHUNK_SIZE] bytes
    that unpack to the clamped sums. *)
Lemma read_and_mix_ok (h : Host) (self : AudioEngine) (buf : list byte) :
  _streams self <> [] ->
  AudioEngine_.read_and_mix h self = Ok buf ->
  List.length buf = (2 * CHUNK_SIZE)%nat /\
  exists mixed,
    AudioEngine_.mix_each h (_streams self) (repeat 0 CHUNK_SIZE) = Ok mixed /\
    List.length mixed = CHUNK_SIZE /\
    Struct.unpack_items buf = map _clamp16 mixed.
Proof.
  unfold AudioEngine_.read_and_mix. intros Hne H.
  destruct (_streams self) as [|sg streams] eqn:Hs; [congruence|].
  destruct (AudioEngine_.mix_each h (sg :: streams) (repeat 0 CHUNK_SIZE))
    as [mixed|] eqn:Hm; simpl in H; [|discriminate].
  destruct (mix_each_ok h _ _ _ (repeat_length 0 CHUNK_SIZE) Hm) as [Hl _].
  unfold Struct.pack in H.
  destruct (pack_items_clamped _ (Forall_map_clamp16 mixed))
    as (buf' & Hp & Hlen & Hu).
  rewrite length_map, Hl, Nat.eqb_refl, Hp in H. inversion H; subst buf'.
  rewrite length_map, Hl in Hlen. eauto.
Qed.

(** [int] of a finite float is its value divided towards zero. *)
Lemma trunc_finite_quot (s : bool) (m : positive) (e : Z) :
  trunc_finite s m e
  = Z.quot ((if s then -1 else 1) * (Zpos m * 2 ^ Z.max e 0))
           (2 ^ Z.max (- e) 0).
Proof.
  unfold trunc_finite. destruct e as [|k|k].
  - simpl. rewrite Z.quot_1_r. destruct s; lia.
  - rewrite Z.shiftl_mul_pow2 by lia.
    replace (Z.max (- Z.pos k) 0) with 0 by lia.
    replace (Z.max (Z.pos k) 0) with (Z.pos k) by lia.
    rewrite Z.pow_0_r, Z.quot_1_r. destruct s; lia.
  - rewrite Z.shiftr_div_pow2 by lia.
    replace (Z.max (- Z.neg k) 0) with (Z.pos k) by lia.
    replace (Z.max (Z.neg k) 0) with 0 by lia.
    rewrite Z.pow_0_r, Z.mul_1_r.
    assert (Hp : 0 < 2 ^ Z.pos k) by (apply Z.pow_pos_nonneg; lia).
    destruct s.
    + replace (-1 * Z.pos m) with (- Z.pos m) by lia.
      rewrite Z.quot_opp_l by lia. rewrite Z.quot_div_nonneg by lia.
      reflexivity.
    + rewrite Z.mul_1_l. now rewrite Z.quot_div_nonneg by lia.
Qed.

(** When every delivered frame is full and no product is infinite or NaN,
    [read_and_mix] returns, and its samples are the clamped sums. *)
Lemma read_and_mix_returns (h : Host) (self : AudioEngine) :
  _streams self <> [] ->
  full_frames h (_streams self) = true ->
  finite_products h (_streams self) = true ->
  exists buf,
    AudioEngine_.read_and_mix h self = Ok buf /\
    List.length (Struct.unpack_items buf) = CHUNK_SIZE /\
    forall i, (i < CHUNK_SIZE)%nat ->
              nth i (Struct.unpack_items buf) 0
              = _clamp16 (presum (heard h (_streams self)) i).
Proof.
  intros Hne Hf Hp.
  destruct (mix_each_total h (_streams self) (repeat 0 CHUNK_SIZE) Hf Hp
              (repeat_length 0 CHUNK_SIZE)) as [mixed Hm].
  destruct (mix_each_ok h _ _ _ (repeat_length 0 CHUNK_SIZE) Hm)
    as [Hl Hnth].
  destruct (pack_items_clamped _ (Forall_map_clamp16 mixed))
    as (buf & Hpk & Hlen & Hu).
  exists buf. split; [|split].
  - unfold AudioEngine_.read_and_mix.
    destruct (_streams self) as [|sg streams]; [congruence|].
    rewrite Hm. simpl. unfold Struct.pack.
    now rewrite length_map, Hl, Nat.eqb_refl.
  - now rewrite Hu, length_map.
  - intros i Hi. rewrite Hu.
    rewrite (nth_indep _ 0 (_clamp16 0)) by (rewrite length_map; lia).
    rewrite map_nth, (Hnth i Hi). f_equal.
    rewrite nth_repeat. lia.
Qed.

(** C1, counterexample: one handle at gain 0.25 delivers a frame of samples
    all equal to 3.  The product is 0.75, which every rounding to the
    nearest integer sends to 1; [int] truncates it, and the frame returned
    is all zeros. *)
Lemma read_and_mix_does_not_round :
  ~ mixes_as_specified (playing (constant_frame x03 x00 CHUNK_SIZE))
      (one_stream 0.25).
Proof.
  intros H.
  assert (Hrun : AudioEngine_.read_and_mix
                   (playing (constant_frame x03 x00 CHUNK_SIZE))
                   (one_stream 0.25)
                 = Ok (repeat x00 (2 * CHUNK_SIZE))) by (vm_compute; reflexivity).
  destruct (H _ 0%nat Hrun) as [H1 _];
    [apply Nat.ltb_lt; vm_compute; reflexivity|].
  vm_compute in H1. discriminate.
Qed.

Example quarter_gain_values :
  nth 0 (Struct.unpack_items (constant_frame x03 x00 CHUNK_SIZE)) 0 = 3 /\
  Qeq (Q_of_float 0.25) (1 # 4) /\
  mixed_spec (heard (playing (constant_frame x03 x00 CHUNK_SIZE))
                [(0%nat, 0.25%float)]) 0 = 1 /\
  mixed_spec_per_source (heard (playing (constant_frame x03 x00 CHUNK_SIZE))
                [(0%nat, 0.25%float)]) 0 = 1 /\
  gained 3 0.25 = 0.
Proof. vm_compute. repeat split. Qed.

(** C1, amended: in a cycle with at least one open handle in which every
    delivered frame has [CHUNK_SIZE] samples and no product is infinite or
    NaN, [read_and_mix] returns a buffer of [CHUNK_SIZE] samples whose
    sample [i] is [_clamp16] of the sum, over the handles that delivered a
    frame in this cycle, of [int(sample[i] * gain)]; and [int] of a finite
    product is that float divided towards zero, not rounded. *)
Theorem read_and_mix_truncates (h : Host) (self : AudioEngine) :
  _streams self <> [] ->
  full_frames h (_streams self) = true ->
  finite_products h (_streams self) = true ->
  (exists buf,
      AudioEngine_.read_and_mix h self = Ok buf /\
      List.length (Struct.unpack_items buf) = CHUNK_SIZE /\
      forall i, (i < CHUNK_SIZE)%nat ->
                nth i (Struct.unpack_items buf) 0
                = _clamp16 (presum (heard h (_streams self)) i)) /\
  (forall s g sign m e,
      Prim2SF (int_mul_float s g) = S754_finite sign m e ->
      gained s g
      = Z.quot ((if sign then -1 else 1) * (Zpos m * 2 ^ Z.max e 0))
               (2 ^ Z.max (- e) 0)).
Proof.
  intros Hne Hf Hp. split.
  - now apply read_and_mix_returns.
  - intros s g sign m e Hfin. unfold gained, int_of_float. rewrite Hfin.
    apply trunc_finite_quot.
Qed.

Lemma read_and_mix_truncates_witness :
  let h := first_starved (constant_frame xff x7f CHUNK_SIZE) in
  let self := {| _pa := true; _streams := [(0%nat, 1%float); (1%nat, 0.5%float)] |} in
  _streams self <> [] /\
  full_frames h (_streams self) = true /\
  finite_products h (_streams self) = true /\
  ((exists buf,
      AudioEngine_.read_and_mix h self = Ok buf /\
      List.length (Struct.unpack_items buf) = CHUNK_SIZE /\
      forall i, (i < CHUNK_SIZE)%nat ->
                nth i (Struct.unpack_items buf) 0
                = _clamp16 (presum (heard h (_streams self)) i)) /\
   (forall s g sign m e,
      Prim2SF (int_mul_float s g) = S754_finite sign m e ->
      gained s g
      = Z.quot ((if sign then -1 else 1) * (Zpos m * 2 ^ Z.max e 0))
               (2 ^ Z.max (- e) 0))).
Proof.
  intros h self.
  assert (H1 : _streams self <> []) by discriminate.
  assert (H2 : full_frames h (_streams self) = true)
    by (vm_compute; reflexivity).
  assert (H3 : finite_products h (_streams self) = true)
    by (vm_compute; reflexivity).
  repeat (split; [assumption|]).
  exact (read_and_mix_truncates h self H1 H2 H3).
Defined.

Example mix_half_of_full_scale :
  presum (heard (first_starved (constant_frame xff x7f CHUNK_SIZE))
            [(0%nat, 1%float); (1%nat, 0.5%float)]) 7 = 16383.
Proof. vm_compute. reflexivity. Qed.

(** ** Silence, and the hand-over to the recognizer *)



Example read_and_mix_infinite_gain :
  int_mul_float 1 infinity = infinity /\
  AudioEngine_.read_and_mix (playing (constant_frame x01 x00 CHUNK_SIZE))
    (one_stream infinity) = Raise OverflowError /\
  AudioEngine_.read_and_mix (playing (constant_frame x00 x00 CHUNK_SIZE))
    (one_stream infinity) = Raise ValueError.
Proof. vm_compute. repeat split. Qed.



(** A cycle in which the only handle is inactive still yields a frame. *)
Example read_and_mix_silence :
  AudioEngine_.read_and_mix quiet_host (one_stream 1)
  = Ok (repeat x00 (2 * CHUNK_SIZE)).
Proof. vm_compute. reflexivity. Qed.

(** ** Unity gain *)

Lemma In_zrange (n : nat) (lo x : Z) :
  lo <= x < lo + Z.of_nat n -> In x (zrange lo n).
Proof.
  revert lo. induction n as [|n IH]; intros lo Hx; simpl.
  - lia.
  - destruct (Z.eq_dec lo x); [now left|right]. apply IH. lia.
Qed.

(** Every int16 sample survives [int(s * 1.0)]; checked on all 65536. *)
Lemma unity_all_int16 :
  forallb (fun s => match int_of_float (int_mul_float s 1) with
                    | Ok c => c =? s
                    | Raise _ => false
                    end)
          (zrange (-32768) (Z.to_nat 65536)) = true.
Proof. vm_compute. reflexivity. Qed.

Lemma int_of_float_unity (s : Z) :
  -32768 <= s <= 32767 -> int_of_float (int_mul_float s 1) = Ok s.
Proof.
  intros Hs.
  pose proof unity_all_int16 as H. rewrite forallb_forall in H.
  specialize (H s (In_zrange (Z.to_nat 65536) (-32768) s
                     ltac:(rewrite Z2Nat.id; lia))).
  destruct (int_of_float (int_mul_float s 1)) as [c|]; [|discriminate].
  apply Z.eqb_eq in H. now subst.
Qed.

Lemma add_gained_unity (samples : list Z) :
  Forall (fun v => -32768 <= v <= 32767) samples ->
  AudioEngine_.add_gained (repeat 0 (List.length samples)) samples 1
  = Ok samples.
Proof.
  induction 1 as [|s samples Hs _ IH]; simpl; [reflexivity|].
  rewrite (int_of_float_unity s Hs). simpl. rewrite IH. reflexivity.
Qed.

Lemma map_clamp16_id (l : list Z) :
  Forall (fun v => -32768 <= v <= 32767) l -> map _clamp16 l = l.
Proof.
  induction 1 as [|v l Hv _ IH]; simpl; [reflexivity|].
  rewrite IH. f_equal. now apply clamp16_id.
Qed.

(** C10: with exactly one open handle, at gain 1.0, a cycle in which that
    handle delivers a frame returns the very bytes read: for every int16
    sample [int(s * 1.0) = s], clamping leaves it alone, and packing undoes
    unpacking. *)
Theorem unity_gain_identity (h : Host) (s : Stream) (raw : list byte)
    (pa : bool) :
  is_active h s = Some true ->
  read h s = Some raw ->
  List.length raw = (2 * CHUNK_SIZE)%nat ->
  AudioEngine_.read_and_mix h {| _pa := pa; _streams := [(s, 1%float)] |}
  = Ok raw /\
  (forall x, -32768 <= x <= 32767 ->
             int_of_float (int_mul_float x 1) = Ok x /\ _clamp16 x = x).
Proof.
  intros Ha Hr Hl. split.
  - unfold AudioEngine_.read_and_mix. simpl. rewrite Ha, Hr.
    unfold Struct.unpack.
    destruct (Nat.eqb_spec (List.length raw) (2 * CHUNK_SIZE)) as [_|Hn];
      [|contradiction].
    simpl.
    pose proof (unpack_items_length _ _ Hl) as Hu.
    rewrite <- Hu at 1.
    rewrite (add_gained_unity _ (unpack_items_range raw)). simpl.
    rewrite (map_clamp16_id _ (unpack_items_range raw)).
    unfold Struct.pack. rewrite Hu, Nat.eqb_refl.
    apply (pack_unpack_items CHUNK_SIZE). exact Hl.
  - intros x Hx. split; [now apply int_of_float_unity|].
    now apply clamp16_id.
Qed.

Lemma unity_gain_identity_witness :
  let raw := constant_frame x39 x30 CHUNK_SIZE in
  is_active (playing raw) 0%nat = Some true /\
  read (playing raw) 0%nat = Some raw /\
  List.length raw = (2 * CHUNK_SIZE)%nat /\
  (AudioEngine_.read_and_mix (playing raw)
     {| _pa := true; _streams := [(0%nat, 1%float)] |} = Ok raw /\
   (forall x, -32768 <= x <= 32767 ->
              int_of_float (int_mul_float x 1) = Ok x /\ _clamp16 x = x)).
Proof.
  intros raw.
  assert (Hl : List.length raw = (2 * CHUNK_SIZE)%nat)
    by (vm_compute; reflexivity).
  split; [reflexivity|]. split; [reflexivity|]. split; [exact Hl|].
  exact (unity_gain_identity (playing raw) 0%nat raw true eq_refl eq_refl Hl).
Defined.

(** ** The batch file pipeline *)

Module BatchFacts.
Import FileTranscriptionWorker Batch.

(** C2, counterexample: over 8000 frames the loop emits 50 and 100, and
    the unconditional [progress_updated.emit(100)] after the loop emits
    100 once more. *)
Lemma progress_repeats_100 : ~ progress_as_specified.
Proof.
  intros [_ H]. vm_compute in H. discriminate.
Qed.

Example progress_of_8000_frames :
  snd (run deaf (pcm_run 8000 None) tt __init__)
  = [progress_updated 50; progress_updated 100; progress_updated 100;
     finished_signal].
Proof. vm_compute. reflexivity. Qed.

(** C3, counterexample: a run over 8000 frames cancelled after its first
    chunk ends having emitted only [progress_updated 50]: no terminal
    signal at all. *)
Lemma cancelled_run_is_silent :
  ~ one_terminal_event (pcm_run 8000 (Some 2%nat)).
Proof.
  unfold one_terminal_event. intros H.
  assert (Hrun : snd (run deaf (pcm_run 8000 (Some 2%nat)) tt __init__)
                 = [progress_updated 50]) by (vm_compute; reflexivity).
  rewrite Hrun in H.
  destruct H as [H _].
  - intros [Hin | []]. discriminate.
  - discriminate.
Qed.

(** C4, counterexample.  Over 8000 frames, cancellation requested after
    chunk 2, the last one, is found at the third read of the flag; by then
    the loop has emitted [progress_updated 100].  And when [os.remove]
    raises [OSError], which [_cleanup] only logs, a run cancelled after its
    first chunk leaves the temporary file behind. *)
Lemma cancel_after_last_chunk_shows_100 :
  ~ cancel_as_specified (pcm_run 8000 (Some 3%nat)) 2 /\
  ~ cancel_as_specified (undeletable (pcm_run 8000 (Some 2%nat))) 1.
Proof.
  unfold cancel_as_specified. split; intros H.
  - destruct (H eq_refl) as (_ & H100 & _). apply H100. vm_compute. auto.
  - destruct (H eq_refl) as (_ & _ & Hfile). vm_compute in Hfile.
    discriminate.
Qed.

Example cancel_after_last_chunk_signals :
  snd (run deaf (pcm_run 8000 (Some 3%nat)) tt __init__)
  = [progress_updated 50; progress_updated 100].
Proof. vm_compute. reflexivity. Qed.

(** *** Reading frames *)

Lemma readframes_upto_length (fuel n : nat) (fs : list frame) :
  (List.length (readframes_upto fuel n fs) <= fuel)%nat.
Proof.
  revert fs. induction fuel as [|fuel IH]; intros [|f fs]; simpl; try lia.
  specialize (IH (skipn n (f :: fs))). lia.
Qed.

(** While frames remain, another read follows. *)
Lemma readframes_upto_more (n : nat) (k fuel : nat) (fs : list frame) :
  (0 < n)%nat -> (List.length fs <= fuel)%nat ->
  (n * k < List.length fs)%nat ->
  (k < List.length (readframes_upto fuel n fs))%nat.
Proof.
  intros Hn. revert fuel fs.
  induction k as [|k IH]; intros fuel fs Hfuel Hk.
  - destruct fuel as [|fuel], fs as [|f fs]; simpl in *; lia.
  - destruct fuel as [|fuel], fs as [|f fs];
      cbn [List.length readframes_upto] in *; try lia.
    apply -> Nat.succ_lt_mono. apply IH.
    + rewrite length_skipn. cbn [List.length]. lia.
    + rewrite length_skipn. cbn [List.length]. nia.
Qed.

Lemma readframes_all_more (k : nat) (fs : list frame) :
  (_CHUNK_FRAMES * k < List.length fs)%nat ->
  (k < List.length (readframes_all _CHUNK_FRAMES fs))%nat.
Proof.
  intros H. apply readframes_upto_more; auto.
  unfold _CHUNK_FRAMES. lia.
Qed.

(** The reads give the file back, so no frame is skipped or repeated. *)
Lemma readframes_upto_concat (n fuel : nat) (fs : list frame) :
  (0 < n)%nat -> (List.length fs <= fuel)%nat ->
  List.concat (readframes_upto fuel n fs) = fs /\
  Forall (fun data => data <> [] /\ (List.length data <= n)%nat)
         (readframes_upto fuel n fs).
Proof.
  intros Hn. revert fs.
  induction fuel as [|fuel IH]; intros [|f fs] Hfuel;
    cbn [List.length readframes_upto List.concat] in *; try lia; auto.
  destruct (IH (skipn n (f :: fs))) as [Hc Hf].
  { rewrite length_skipn. cbn [List.length]. lia. }
  split.
  - rewrite Hc. apply firstn_skipn.
  - constructor; [|exact Hf]. split.
    + destruct n; [lia|]. discriminate.
    + apply firstn_le_length.
Qed.


(** *** The loop *)

Section Loop.

Context {RS : Type} (recognizer : KaldiRecognizer RS).
Variable total_frames : Z.

(** One turn of the loop, when a chunk was read. *)
Lemma chunk_loop_cons (e : env) (data : list frame) (rest : list (list frame))
    (poll : nat) (frames_processed last_pct : Z) (st : RS)
    (out : list signal) :
  chunk_loop recognizer e total_frames (data :: rest) poll
             frames_processed last_pct st out
  = if _is_cancelled e poll then (out, Ok (st, false))
    else
      match AcceptWaveform recognizer st (bytes_of_frames data) with
      | Raise ex => (out, Raise ex)
      | Ok (st, accepted) =>
          let out := out ++ snd (chunk_text recognizer accepted st) in
          let st := fst (chunk_text recognizer accepted st) in
          let frames_processed :=
            frames_processed + Z.of_nat _CHUNK_FRAMES in
          match percent frames_processed total_frames with
          | Raise ex => (out, Raise ex)
          | Ok pct =>
              chunk_loop recognizer e total_frames rest (S poll)
                         frames_processed pct st
                         (out ++ chunk_progress pct last_pct)
          end
      end.
Proof.
  cbn [chunk_loop]. destruct (_is_cancelled e poll); [reflexivity|].
  destruct (AcceptWaveform recognizer st (bytes_of_frames data))
    as [[st1 accepted]|ex]; [|reflexivity].
  unfold chunk_text, chunk_progress.
  destruct accepted.
  - destruct (Result recognizer st1) as [st2 result].
    destruct (strip (get (j_text result) "")) as [|c text]; cbn [fst snd];
      rewrite ?app_nil_r;
      destruct (percent _ total_frames) as [pct|ex]; try reflexivity;
      destruct (Z.eqb_spec pct last_pct) as [->|Hne]; cbn [negb];
      rewrite ?app_nil_r; reflexivity.
  - cbn [fst snd]. rewrite ?app_nil_r.
    destruct (percent _ total_frames) as [pct|ex]; try reflexivity.
    destruct (Z.eqb_spec pct last_pct) as [->|Hne]; cbn [negb];
      rewrite ?app_nil_r; reflexivity.
Qed.

Variable e : env.

Lemma chunk_text_not_terminal (accepted : bool) (st : RS) :
  Forall (fun s => terminal s = false) (snd (chunk_text recognizer accepted st)) /\
  progress_values (snd (chunk_text recognizer accepted st)) = [].
Proof.
  unfold chunk_text. destruct accepted; [|simpl; auto].
  destruct (Result recognizer st) as [st' result].
  destruct (strip (get (j_text result) "")); simpl; auto.
Qed.

(** The loop only appends, and appends no terminal signal. *)
Lemma chunk_loop_appends (reads : list (list frame)) :
  forall poll frames_processed last_pct st out,
  exists added,
    fst (chunk_loop recognizer e total_frames reads poll
                    frames_processed last_pct st out) = out ++ added /\
    Forall (fun s => terminal s = false) added.
Proof.
  induction reads as [|data rest IH]; intros poll fp last st out.
  - exists []. rewrite app_nil_r. simpl.
    destruct (_is_cancelled e poll); auto.
  - rewrite chunk_loop_cons.
    destruct (_is_cancelled e poll);
      [exists []; rewrite app_nil_r; auto|].
    destruct (AcceptWaveform recognizer st (bytes_of_frames data))
      as [[st1 accepted]|ex];
      [|exists []; rewrite app_nil_r; auto].
    cbn zeta.
    destruct (chunk_text_not_terminal accepted st1) as [Ht _].
    destruct (percent _ total_frames) as [pct|ex].
    + destruct (IH (S poll) (fp + Z.of_nat _CHUNK_FRAMES) pct
                  (fst (chunk_text recognizer accepted st1))
                  ((out ++ snd (chunk_text recognizer accepted st1))
                     ++ chunk_progress pct last))
        as (added & Ha & Hf).
      exists (snd (chunk_text recognizer accepted st1)
              ++ chunk_progress pct last ++ added).
      rewrite Ha, <- !app_assoc. split; [reflexivity|].
      apply Forall_app. split; [exact Ht|].
      apply Forall_app. split; [|exact Hf].
      unfold chunk_progress. destruct (pct =? last); repeat constructor.
    + exists (snd (chunk_text recognizer accepted st1)). auto.
Qed.

(** The [break] is reached only if the flag was never found set. *)
Lemma chunk_loop_break (reads : list (list frame)) :
  forall poll frames_processed last_pct st out st',
    snd (chunk_loop recognizer e total_frames reads poll
                    frames_processed last_pct st out) = Ok (st', true) ->
    _is_cancelled e (poll + List.length reads) = false.
Proof.
  induction reads as [|data rest IH]; intros poll fp last st out st'.
  - simpl. rewrite Nat.add_0_r.
    destruct (_is_cancelled e poll); [discriminate|reflexivity].
  - rewrite chunk_loop_cons.
    destruct (_is_cancelled e poll); [discriminate|].
    destruct (AcceptWaveform recognizer st (bytes_of_frames data))
      as [[st1 accepted]|ex]; [|discriminate].
    cbn zeta. destruct (percent _ total_frames) as [pct|ex];
      [|discriminate].
    intros H. apply IH in H.
    cbn [List.length]. now rewrite Nat.add_succ_r.
Qed.


Lemma progress_values_app (a b : list signal) :
  progress_values (a ++ b) = progress_values a ++ progress_values b.
Proof.
  induction a as [|[pct|text| |msg] a IH]; simpl; auto. now rewrite IH.
Qed.

Lemma percent_le_100 (x p : Z) :
  percent x total_frames = Ok p -> p <= 100.
Proof.
  unfold percent.
  destruct (int_of_float _) as [v|]; simpl; [|discriminate].
  intros H. inversion H. lia.
Qed.

Lemma is_cancelled_never (poll : nat) :
  _is_cancelled (never_cancelled e) poll = false.
Proof. reflexivity. Qed.

(** A run cancelled at read [c] of the flag does what an uncancelled
    run over the chunks before that read does, up to its [break]. *)
Lemma chunk_loop_cancel_prefix (c : nat) (reads : list (list frame)) :
  cancel_from e = Some c ->
  forall poll frames_processed last_pct st out,
    (poll <= c)%nat -> (c - poll <= List.length reads)%nat ->
    chunk_loop recognizer e total_frames reads poll
               frames_processed last_pct st out
    = let r := chunk_loop recognizer (never_cancelled e) total_frames
                          (firstn (c - poll) reads) poll
                          frames_processed last_pct st out in
      (fst r, match snd r with
              | Ok (st', _) => Ok (st', false)
              | Raise ex => Raise ex
              end).
Proof.
  intros Hc.
  assert (Hflag : forall poll, _is_cancelled e poll = Nat.leb c poll).
  { intros poll. unfold _is_cancelled. now rewrite Hc. }
  induction reads as [|data rest IH]; intros poll fp last st out Hp Hl.
  - cbn [List.length] in Hl. replace (c - poll)%nat with 0%nat by lia.
    cbn. rewrite Hflag.
    destruct (Nat.leb_spec c poll); [reflexivity|lia].
  - destruct (Nat.eq_dec poll c) as [->|Hne].
    + rewrite Nat.sub_diag. cbn [firstn].
      rewrite chunk_loop_cons, Hflag, Nat.leb_refl. reflexivity.
    + replace (c - poll)%nat with (S (c - S poll)) by lia.
      cbn [firstn]. rewrite !chunk_loop_cons, is_cancelled_never, Hflag.
      destruct (Nat.leb_spec c poll); [lia|].
      destruct (AcceptWaveform recognizer st (bytes_of_frames data))
        as [[st1 accepted]|ex]; [|reflexivity].
      cbn zeta. destruct (percent _ total_frames) as [pct|ex];
        [|reflexivity].
      apply IH; [lia|]. cbn [List.length] in Hl. lia.
Qed.

(** Every progress value the loop emits is [percent] of a whole number of
    chunks. *)
Lemma chunk_loop_provenance (reads : list (list frame)) :
  forall poll frames_processed last_pct st out,
  exists added,
    fst (chunk_loop recognizer e total_frames reads poll
                    frames_processed last_pct st out) = out ++ added /\
    Forall (fun p => exists j,
                0 < j /\
                percent (frames_processed + 4000 * j) total_frames = Ok p)
           (progress_values added).
Proof.
  induction reads as [|data rest IH]; intros poll fp last st out.
  - exists []. rewrite app_nil_r. simpl.
    destruct (_is_cancelled e poll); split; auto; constructor.
  - rewrite chunk_loop_cons.
    destruct (_is_cancelled e poll);
      [exists []; rewrite app_nil_r; split; auto; constructor|].
    destruct (AcceptWaveform recognizer st (bytes_of_frames data))
      as [[st1 accepted]|ex];
      [|exists []; rewrite app_nil_r; split; auto; constructor].
    cbn zeta.
    destruct (chunk_text_not_terminal accepted st1) as [Ht Hpv].
    change (Z.of_nat _CHUNK_FRAMES) with 4000.
    destruct (percent (fp + 4000) total_frames) as [pct|ex] eqn:Hpct.
    + destruct (IH (S poll) (fp + 4000) pct
                  (fst (chunk_text recognizer accepted st1))
                  ((out ++ snd (chunk_text recognizer accepted st1))
                     ++ chunk_progress pct last))
        as (added & Ha & Hf).
      exists (snd (chunk_text recognizer accepted st1)
              ++ chunk_progress pct last ++ added).
      rewrite Ha, <- !app_assoc. split; [reflexivity|].
      rewrite !progress_values_app, Hpv. cbn [app].
      apply Forall_app. split.
      * unfold chunk_progress. destruct (pct =? last); repeat constructor.
        exists 1. split; [lia|]. now rewrite Z.mul_1_r.
      * eapply Forall_impl; [|exact Hf]. intros p (j & Hj & Hp).
        exists (j + 1). split; [lia|].
        replace (fp + 4000 * (j + 1)) with (fp + 4000 + 4000 * j) by lia.
        exact Hp.
    + exists (snd (chunk_text recognizer accepted st1)). rewrite Hpv.
      split; auto; constructor.
Qed.

(** **** Progress, given that [percent] behaves *)

Variable bound : Z.
Hypothesis percent_mono :
  forall x x' p p',
    0 < x <= x' -> x' <= bound ->
    percent x total_frames = Ok p -> percent x' total_frames = Ok p' ->
    p <= p'.
Hypothesis percent_nonneg :
  forall x p, 0 < x <= bound -> percent x total_frames = Ok p -> 0 <= p.

Lemma chunk_loop_progress (reads : list (list frame)) :
  forall poll frames_processed last_pct st out,
    0 <= frames_processed ->
    frames_processed
    + Z.of_nat _CHUNK_FRAMES * Z.of_nat (List.length reads) <= bound ->
    (frames_processed = 0 /\ last_pct = -1 \/
     0 < frames_processed /\
     percent frames_processed total_frames = Ok last_pct) ->
    exists added,
      fst (chunk_loop recognizer e total_frames reads poll
                      frames_processed last_pct st out) = out ++ added /\
      Forall (fun s => terminal s = false) added /\
      StronglySorted Z.lt (progress_values added) /\
      Forall (fun p => last_pct < p <= 100) (progress_values added).
Proof.
  assert (H4000 : Z.of_nat _CHUNK_FRAMES = 4000) by reflexivity.
  induction reads as [|data rest IH];
    intros poll fp last st out Hfp Hb Hinv.
  - exists []. rewrite app_nil_r. simpl.
    destruct (_is_cancelled e poll); repeat split; constructor.
  - rewrite chunk_loop_cons.
    destruct (_is_cancelled e poll);
      [exists []; rewrite app_nil_r; repeat split; constructor|].
    destruct (AcceptWaveform recognizer st (bytes_of_frames data))
      as [[st1 accepted]|ex];
      [|exists []; rewrite app_nil_r; repeat split; constructor].
    cbn zeta.
    destruct (chunk_text_not_terminal accepted st1) as [Ht Hpv].
    cbn [List.length] in Hb. rewrite Nat2Z.inj_succ in Hb.
    destruct (percent (fp + Z.of_nat _CHUNK_FRAMES) total_frames)
      as [pct|ex] eqn:Hpct.
    + assert (Hlast : last <= pct).
      { destruct Hinv as [[-> ->] | [Hpos Hl]].
        - apply percent_nonneg in Hpct; lia.
        - apply (percent_mono fp (fp + Z.of_nat _CHUNK_FRAMES));
            auto; lia. }
      pose proof (percent_le_100 _ _ Hpct) as H100.
      destruct (IH (S poll) (fp + Z.of_nat _CHUNK_FRAMES) pct
                  (fst (chunk_text recognizer accepted st1))
                  ((out ++ snd (chunk_text recognizer accepted st1))
                     ++ chunk_progress pct last))
        as (added & Ha & Hf & Hs & Hr); [lia | lia | right; split; [lia|auto] |].
      exists (snd (chunk_text recognizer accepted st1)
              ++ chunk_progress pct last ++ added).
      rewrite Ha, <- !app_assoc. split; [reflexivity|].
      rewrite !progress_values_app, Hpv. cbn [app].
      unfold chunk_progress.
      destruct (Z.eqb_spec pct last) as [->|Hne]; cbn [app progress_values].
      * repeat split; auto.
        apply Forall_app. split; [exact Ht|exact Hf].
      * repeat split.
        -- apply Forall_app. split; [exact Ht|].
           constructor; [reflexivity|exact Hf].
        -- constructor; [exact Hs|].
           eapply Forall_impl; [|exact Hr]. cbn. intros; lia.
        -- constructor; [lia|].
           eapply Forall_impl; [|exact Hr]. cbn. intros; lia.
    + exists (snd (chunk_text recognizer accepted st1)). rewrite Hpv.
      repeat split; auto; constructor.
Qed.

(** Before the last frame is reached no chunk gives 100. *)
Hypothesis percent_below :
  forall x p, 0 < x < total_frames ->
              percent x total_frames = Ok p -> p < 100.

Lemma chunk_loop_below_100 (c : nat) (reads : list (list frame)) :
  cancel_from e = Some c ->
  forall poll frames_processed last_pct st out,
    (poll <= c)%nat -> 0 <= frames_processed ->
    frames_processed
    + Z.of_nat _CHUNK_FRAMES * Z.of_nat (c - poll) < total_frames ->
    exists added,
      fst (chunk_loop recognizer e total_frames reads poll
                      frames_processed last_pct st out) = out ++ added /\
      Forall (fun p => p < 100) (progress_values added).
Proof.
  intros Hc.
  assert (Hflag : forall poll, _is_cancelled e poll = Nat.leb c poll).
  { intros poll. unfold _is_cancelled. now rewrite Hc. }
  assert (H4000 : Z.of_nat _CHUNK_FRAMES = 4000) by reflexivity.
  induction reads as [|data rest IH];
    intros poll fp last st out Hp Hfp Hb.
  - exists []. rewrite app_nil_r. simpl.
    destruct (_is_cancelled e poll); split; auto; constructor.
  - rewrite chunk_loop_cons, Hflag.
    destruct (Nat.leb_spec c poll);
      [exists []; rewrite app_nil_r; split; auto; constructor|].
    destruct (AcceptWaveform recognizer st (bytes_of_frames data))
      as [[st1 accepted]|ex];
      [|exists []; rewrite app_nil_r; split; auto; constructor].
    cbn zeta.
    destruct (chunk_text_not_terminal accepted st1) as [Ht Hpv].
    replace (c - poll)%nat with (S (c - S poll)) in Hb by lia.
    rewrite Nat2Z.inj_succ in Hb.
    destruct (percent (fp + Z.of_nat _CHUNK_FRAMES) total_frames)
      as [pct|ex] eqn:Hpct.
    + assert (Hlt : pct < 100) by (apply percent_below in Hpct; lia).
      destruct (IH (S poll) (fp + Z.of_nat _CHUNK_FRAMES) pct
                  (fst (chunk_text recognizer accepted st1))
                  ((out ++ snd (chunk_text recognizer accepted st1))
                     ++ chunk_progress pct last))
        as (added & Ha & Hf); [lia | lia | lia |].
      exists (snd (chunk_text recognizer accepted st1)
              ++ chunk_progress pct last ++ added).
      rewrite Ha, <- !app_assoc. split; [reflexivity|].
      rewrite !progress_values_app, Hpv. cbn [app].
      apply Forall_app. split; [|exact Hf].
      unfold chunk_progress. destruct (pct =? last); repeat constructor.
      exact Hlt.
    + exists (snd (chunk_text recognizer accepted st1)). rewrite Hpv.
      split; auto; constructor.
Qed.

End Loop.


(** *** Whole runs *)

Lemma not_terminal_not_finished (l : list signal) :
  Forall (fun s => terminal s = false) l ->
  existsb is_finished l = false /\ ~ In finished_signal l.
Proof.
  induction 1 as [|s l Hs _ [IH1 IH2]]; simpl; [auto|].
  destruct s; try discriminate; simpl; split; auto;
    intros [H|H]; try discriminate; auto.
Qed.

Lemma existsb_is_finished_app (a b : list signal) :
  existsb is_finished (a ++ b)
  = existsb is_finished a || existsb is_finished b.
Proof. apply existsb_app. Qed.

(** The [return] on cancellation happens only if cancellation was asked. *)
Lemma chunk_loop_return {RS : Type} (recognizer : KaldiRecognizer RS)
    (e : env) (total_frames : Z) (reads : list (list frame)) :
  forall poll frames_processed last_pct st out st',
    snd (chunk_loop recognizer e total_frames reads poll
                    frames_processed last_pct st out) = Ok (st', false) ->
    exists c, cancel_from e = Some c.
Proof.
  assert (Hflag : forall poll, _is_cancelled e poll = true ->
                               exists c, cancel_from e = Some c).
  { unfold _is_cancelled. intros poll.
    destruct (cancel_from e); [eauto|discriminate]. }
  induction reads as [|data rest IH]; intros poll fp last st out st'.
  - simpl. destruct (_is_cancelled e poll) eqn:Hc; [eauto|discriminate].
  - rewrite chunk_loop_cons.
    destruct (_is_cancelled e poll) eqn:Hc; [eauto|].
    destruct (AcceptWaveform recognizer st (bytes_of_frames data))
      as [[st1 accepted]|ex]; [|discriminate].
    cbn zeta. destruct (percent _ total_frames) as [pct|ex];
      [|discriminate].
    apply IH.
Qed.

(** What [_cleanup] leaves behind, whatever [_do_transcription] did. *)
Lemma cleanup_after_ensure_wav (e : env) :
  let self := fst (_ensure_wav e __init__) in
  _temp_wav (_cleanup e self) = None /\
  (remove_raises e = false -> temp_file_exists (_cleanup e self) = false).
Proof.
  unfold _ensure_wav, _cleanup, __init__.
  destruct (ffmpeg e); [|simpl; auto].
  destruct (returncode e =? 0); simpl;
    destruct (remove_raises e); simpl; auto; split; auto; discriminate.
Qed.

Lemma do_transcription_worker {RS : Type} (recognizer : KaldiRecognizer RS)
    (e : env) (fresh : RS) :
  fst (fst (_do_transcription recognizer e fresh __init__))
  = fst (_ensure_wav e __init__).
Proof.
  unfold _do_transcription.
  destruct (_ensure_wav e __init__) as [self [path|ex]]; [|reflexivity].
  destruct (_is_cancelled e 0); [reflexivity|].
  destruct (model_isdir e); [|reflexivity]. cbn [negb].
  destruct (model_raises e); [reflexivity|].
  destruct (Z.of_nat (List.length (converted e)) =? 0); [reflexivity|].
  destruct (chunk_loop recognizer e _ _ 1 0 (-1) fresh [])
    as [out [[st [|]]|ex]]; try reflexivity.
  destruct (FinalResult recognizer st) as [st' final]. reflexivity.
Qed.

Lemma run_cleans_up {RS : Type} (recognizer : KaldiRecognizer RS)
    (e : env) (fresh : RS) :
  _temp_wav (fst (run recognizer e fresh __init__)) = None /\
  (remove_raises e = false ->
   temp_file_exists (fst (run recognizer e fresh __init__)) = false).
Proof.
  unfold run.
  pose proof (do_transcription_worker recognizer e fresh) as Hw.
  destruct (_do_transcription recognizer e fresh __init__)
    as [[self out] [u|ex]]; cbn [fst snd] in *; subst self;
    apply cleanup_after_ensure_wav.
Qed.

(** The signals of a run: what the loop added, then at most one ending. *)
Lemma run_signals {RS : Type} (recognizer : KaldiRecognizer RS)
    (e : env) (fresh : RS) :
  let total := Z.of_nat (List.length (converted e)) in
  let loop := chunk_loop recognizer e total
                (readframes_all _CHUNK_FRAMES (converted e))
                1 0 (-1) fresh [] in
  let out := snd (run recognizer e fresh __init__) in
  (exists msg, out = [error_occurred msg]) \/
  (out = [] /\ cancel_from e <> None) \/
  (exists msg ex, snd loop = Raise ex /\
                  out = fst loop ++ [error_occurred msg]) \/
  (exists st, snd loop = Ok (st, false) /\ out = fst loop) \/
  (exists st texts,
      snd loop = Ok (st, true) /\
      Forall (fun s => terminal s = false) texts /\
      progress_values texts = [] /\
      out = (fst loop ++ texts) ++ [progress_updated 100; finished_signal]).
Proof.
  intros total loop out. subst out. unfold run, _do_transcription.
  assert (Hwav : (exists self msg,
                     _ensure_wav e __init__ = (self, Raise (RuntimeError msg)))
                 \/ exists self path, _ensure_wav e __init__ = (self, Ok path)).
  { unfold _ensure_wav. destruct (ffmpeg e); [|left; eauto].
    destruct (returncode e =? 0); [right|left]; eauto. }
  destruct Hwav as [(self & msg & ->) | (self & path & ->)];
    [left; eexists; reflexivity|].
  destruct (_is_cancelled e 0) eqn:Hc0.
  { right; left. split; [reflexivity|].
    unfold _is_cancelled in Hc0. destruct (cancel_from e); discriminate. }
  destruct (model_isdir e); [|left; eexists; reflexivity]. cbn [negb].
  destruct (model_raises e); [left; eexists; reflexivity|].
  fold total.
  destruct (total =? 0); [left; eexists; reflexivity|].
  fold loop.
  destruct loop as [added [[st [|]]|ex]]; cbn [fst snd].
  - do 4 right. 
    destruct (FinalResult recognizer st) as [st' final].
    destruct (strip (get (j_text final) "")) as [|c text] eqn:Ht.
    + exists st, []. rewrite app_nil_r. repeat split; auto.
    + exists st, [text_updated (String c text)]. repeat split; auto.
  - do 3 right; left. exists st. auto.
  - do 2 right; left. eexists _, ex. split; reflexivity.
Qed.


Lemma percent_mono_upto (total : Z) :
  0 < total < 2 ^ 32 ->
  forall x x' p p',
    0 < x <= x' -> x' <= 4000 * total ->
    percent x total = Ok p -> percent x' total = Ok p' -> p <= p'.
Proof.
  intros Ht x x' p p' Hx Hx'. apply percent_mono; lia.
Qed.

Lemma percent_nonneg_upto (total : Z) :
  0 < total < 2 ^ 32 ->
  forall x p, 0 < x <= 4000 * total -> percent x total = Ok p -> 0 <= p.
Proof.
  intros Ht x p Hx Hp.
  destruct (percent_total x total ltac:(lia) ltac:(lia)) as (p' & Hp' & Hr).
  rewrite Hp in Hp'. inversion Hp'. lia.
Qed.

Lemma percent_below_total (total : Z) :
  total < 2 ^ 32 ->
  forall x p, 0 < x < total -> percent x total = Ok p -> p < 100.
Proof. intros Ht x p Hx. now apply percent_below. Qed.

(** C2, amended: within one run the loop emits a progress signal after a
    chunk only when the value differs from the one emitted before, so the
    values the loop emits are strictly increasing, lie in 0..100, and are
    each [percent] of a whole number of chunks of 4000 frames; a run that
    completes emits one more [progress_updated(100)] after the
    loop, whatever the loop emitted last.  A run over 8000 frames with
    chunks of 4000 therefore emits 50, 100 and 100. *)
Theorem progress_increasing_then_100 {RS : Type}
    (recognizer : KaldiRecognizer RS) (e : env) (fresh : RS) :
  Z.of_nat (List.length (converted e)) < 2 ^ 32 ->
  let out := snd (run recognizer e fresh __init__) in
  (exists in_loop,
      progress_values out
      = in_loop ++ (if existsb is_finished out then [100] else []) /\
      StronglySorted Z.lt in_loop /\
      Forall (fun p => 0 <= p <= 100) in_loop /\
      Forall (fun p => exists chunks,
                  0 < chunks /\
                  percent (4000 * chunks)
                          (Z.of_nat (List.length (converted e))) = Ok p)
             in_loop) /\
  progress_values (snd (run deaf (pcm_run 8000 None) tt __init__))
  = [50; 100; 100].
Proof.
  intros Hlen out. split; [|vm_compute; reflexivity].
  set (total := Z.of_nat (List.length (converted e))) in *.
  destruct (Z.eq_dec total 0) as [Hz|Hnz].
  { (* an empty file never reaches the loop *)
    exists []. subst out. unfold run, _do_transcription. fold total.
    rewrite Hz. cbn [Z.eqb].
    destruct (_ensure_wav e __init__) as [self [path|ex]];
      [|cbn; repeat split; constructor].
    destruct (_is_cancelled e 0); [cbn; repeat split; constructor|].
    destruct (model_isdir e); cbn [negb]; [|cbn; repeat split; constructor].
    destruct (model_raises e); cbn; repeat split; constructor. }
  assert (Ht : 0 < total < 2 ^ 32) by (unfold total in *; lia).
  destruct (chunk_loop_progress recognizer total e (4000 * total)
              (percent_mono_upto total Ht) (percent_nonneg_upto total Ht)
              (readframes_all _CHUNK_FRAMES (converted e)) 1 0 (-1) fresh [])
    as (added & Hadd & Hterm & Hsorted & Hrange).
  { lia. }
  { pose proof (readframes_upto_length (List.length (converted e))
                  _CHUNK_FRAMES (converted e)) as Hn.
    unfold readframes_all. change (Z.of_nat _CHUNK_FRAMES) with 4000.
    unfold total. lia. }
  { left. auto. }
  cbn [app] in Hadd.
  assert (Hrange' : Forall (fun p => 0 <= p <= 100) (progress_values added)).
  { eapply Forall_impl; [|exact Hrange]. cbn. intros; lia. }
  assert (Hfrom : Forall (fun p => exists chunks,
                             0 < chunks /\ percent (4000 * chunks) total = Ok p)
                         (progress_values added)).
  { destruct (chunk_loop_provenance recognizer total e
                (readframes_all _CHUNK_FRAMES (converted e)) 1 0 (-1) fresh [])
      as (added' & Hadd' & Hprov).
    cbn [app] in Hadd'. rewrite Hadd in Hadd'. subst added'.
    exact Hprov. }
  destruct (not_terminal_not_finished added Hterm) as [Hnf _].
  destruct (run_signals recognizer e fresh)
    as [(msg & Hout) | [(Hout & _) | [(msg & ex & _ & Hout)
       | [(st & _ & Hout) | (st & texts & _ & Htx & Hpv & Hout)]]]];
    fold total in Hout; fold out in Hout; rewrite Hout.
  - exists []. cbn. repeat split; constructor.
  - exists []. cbn. repeat split; constructor.
  - exists (progress_values added).
    rewrite Hadd, progress_values_app, existsb_is_finished_app, Hnf.
    cbn. rewrite !app_nil_r. auto.
  - exists (progress_values added).
    rewrite Hadd, Hnf, app_nil_r. auto.
  - exists (progress_values added).
    rewrite Hadd, !progress_values_app, Hpv, !existsb_is_finished_app.
    cbn. rewrite app_nil_r, !orb_true_r. auto.
Qed.

Lemma progress_increasing_then_100_witness :
  Z.of_nat (List.length (converted (pcm_run 20000 None))) < 2 ^ 32 /\
  ((exists in_loop,
       progress_values (snd (run deaf (pcm_run 20000 None) tt __init__))
       = in_loop
           ++ (if existsb is_finished
                    (snd (run deaf (pcm_run 20000 None) tt __init__))
               then [100] else []) /\
       StronglySorted Z.lt in_loop /\
       Forall (fun p => 0 <= p <= 100) in_loop /\
       Forall (fun p => exists chunks,
                   0 < chunks /\
                   percent (4000 * chunks)
                           (Z.of_nat
                              (List.length (converted (pcm_run 20000 None))))
                   = Ok p)
              in_loop) /\
   progress_values (snd (run deaf (pcm_run 8000 None) tt __init__))
   = [50; 100; 100]).
Proof.
  assert (H : Z.of_nat (List.length (converted (pcm_run 20000 None))) < 2 ^ 32)
    by (vm_compute; reflexivity).
  split; [exact H|].
  exact (progress_increasing_then_100 deaf (pcm_run 20000 None) tt H).
Defined.

Example progress_of_20000_frames :
  progress_values (snd (run deaf (pcm_run 20000 None) tt __init__))
  = [20; 40; 60; 80; 100; 100].
Proof. vm_compute. reflexivity. Qed.

(** The quotient is a float: at 116000 of 400000 frames the loop shows 28,
    where the exact ratio is 29 percent. *)
Example percent_is_rounded_twice : percent 116000 400000 = Ok 28.
Proof. vm_compute. reflexivity. Qed.


Lemma progress_below_not_100 (l : list signal) :
  Forall (fun p => p < 100) (progress_values l) ->
  ~ In (progress_updated 100) l.
Proof.
  induction l as [|s l IH]; simpl; [tauto|].
  destruct s as [pct|text| |msg]; intros H [Hin|Hin];
    try discriminate; try (now apply IH).
  - inversion Hin. inversion H. lia.
  - inversion H. now apply IH.
Qed.

(** C4, amended: when cancellation is requested after chunk [k] and before
    chunk [k + 1] is read, and frames are still left to read at that point
    ([4000 * k] is below the total), the run does exactly what an
    uncancelled run does with the first [k] chunks and then returns: it
    emits no completion signal and no progress signal of 100, and it ends
    with the cleanup, which forgets the temporary file and removes it
    unless [os.remove] itself fails. *)
Theorem cancel_between_chunks {RS : Type} (recognizer : KaldiRecognizer RS)
    (e : env) (fresh : RS) (k : nat) :
  let total := Z.of_nat (List.length (converted e)) in
  let reads := readframes_all _CHUNK_FRAMES (converted e) in
  total < 2 ^ 32 ->
  cancel_from e = Some (S k) ->
  4000 * Z.of_nat k < total ->
  let r := run recognizer e fresh __init__ in
  ~ In finished_signal (snd r) /\
  ~ In (progress_updated 100) (snd r) /\
  _temp_wav (fst r) = None /\
  (remove_raises e = false -> temp_file_exists (fst r) = false) /\
  chunk_loop recognizer e total reads 1 0 (-1) fresh []
  = (fst (chunk_loop recognizer (never_cancelled e) total
                     (firstn k reads) 1 0 (-1) fresh []),
      match snd (chunk_loop recognizer (never_cancelled e) total
                            (firstn k reads) 1 0 (-1) fresh []) with
      | Ok (st, _) => Ok (st, false)
      | Raise ex => Raise ex
      end).
Proof.
  intros total reads Hlen Hc Hk r.
  assert (Hmore : (k < List.length reads)%nat).
  { apply readframes_all_more. unfold total in Hk.
    change _CHUNK_FRAMES with (Z.to_nat 4000). lia. }
  destruct (run_cleans_up recognizer e fresh) as [Hwav Hfile].
  destruct (chunk_loop_below_100 recognizer total e
              (percent_below_total total Hlen) (S k) reads Hc
              1%nat 0 (-1) fresh [])
    as (added & Hadd & Hbelow).
  { lia. } { lia. }
  { change (Z.of_nat _CHUNK_FRAMES) with 4000.
    replace (S k - 1)%nat with k by lia. lia. }
  cbn [app] in Hadd.
  destruct (chunk_loop_appends recognizer total e reads 1 0 (-1) fresh [])
    as (added' & Hadd' & Hterm).
  cbn [app] in Hadd'. rewrite Hadd in Hadd'. subst added'.
  destruct (not_terminal_not_finished added Hterm) as [_ Hnf].
  pose proof (progress_below_not_100 added Hbelow) as Hn100.
  assert (Hnobreak : forall st,
             snd (chunk_loop recognizer e total reads 1 0 (-1) fresh [])
             <> Ok (st, true)).
  { intros st Hbreak. apply chunk_loop_break in Hbreak.
    unfold _is_cancelled in Hbreak. rewrite Hc in Hbreak.
    apply Nat.leb_gt in Hbreak. lia. }
  repeat split; try assumption.
  - subst r.
    destruct (run_signals recognizer e fresh)
      as [(msg & Hout) | [(Hout & _) | [(msg & ex & _ & Hout)
         | [(st & _ & Hout) | (st & texts & Hbreak & _)]]]];
      try (fold total in Hout; fold reads in Hout; rewrite Hout).
    + intros [H|[]]. discriminate.
    + intros [].
    + rewrite Hadd. intros H. apply in_app_or in H as [H|[H|[]]];
        [now apply Hnf | discriminate].
    + now rewrite Hadd.
    + exfalso. apply (Hnobreak st). exact Hbreak.
  - subst r.
    destruct (run_signals recognizer e fresh)
      as [(msg & Hout) | [(Hout & _) | [(msg & ex & _ & Hout)
         | [(st & _ & Hout) | (st & texts & Hbreak & _)]]]];
      try (fold total in Hout; fold reads in Hout; rewrite Hout).
    + intros [H|[]]. discriminate.
    + intros [].
    + rewrite Hadd. intros H. apply in_app_or in H as [H|[H|[]]];
        [now apply Hn100 | discriminate].
    + now rewrite Hadd.
    + exfalso. apply (Hnobreak st). exact Hbreak.
  - rewrite (chunk_loop_cancel_prefix recognizer total e (S k) reads Hc)
      by lia.
    replace (S k - 1)%nat with k by lia. reflexivity.
Qed.

Lemma cancel_between_chunks_witness :
  let e := pcm_run 20000 (Some 3%nat) in
  let total := Z.of_nat (List.length (converted e)) in
  let reads := readframes_all _CHUNK_FRAMES (converted e) in
  total < 2 ^ 32 /\
  cancel_from e = Some 3%nat /\
  4000 * Z.of_nat 2 < total /\
  let r := run deaf e tt __init__ in
  ~ In finished_signal (snd r) /\
  ~ In (progress_updated 100) (snd r) /\
  _temp_wav (fst r) = None /\
  (remove_raises e = false -> temp_file_exists (fst r) = false) /\
  chunk_loop deaf e total reads 1 0 (-1) tt []
  = (fst (chunk_loop deaf (never_cancelled e) total
                     (firstn 2 reads) 1 0 (-1) tt []),
      match snd (chunk_loop deaf (never_cancelled e) total
                            (firstn 2 reads) 1 0 (-1) tt []) with
      | Ok (st, _) => Ok (st, false)
      | Raise ex => Raise ex
      end).
Proof.
  intros e total reads.
  assert (H1 : total < 2 ^ 32) by (vm_compute; reflexivity).
  assert (H2 : cancel_from e = Some 3%nat) by reflexivity.
  assert (H3 : 4000 * Z.of_nat 2 < total) by (vm_compute; reflexivity).
  split; [exact H1|]. split; [exact H2|]. split; [exact H3|].
  exact (cancel_between_chunks deaf e tt 2 H1 H2 H3).
Defined.

Example cancelled_after_two_chunks :
  run deaf (pcm_run 20000 (Some 3%nat)) tt __init__
  = ({| _temp_wav := None; temp_file_exists := false |},
     [progress_updated 20; progress_updated 40]).
Proof. vm_compute. reflexivity. Qed.

End BatchFacts.

(** ** Terminal signals of the two background tasks *)

Lemma open_streams_raises_empty (h : Host) (sources : list Source)
    (w : PortAudio) (self : AudioEngine) :
  snd (AudioEngine_.open_streams h sources w self) <> Ok tt ->
  _streams (snd (fst (AudioEngine_.open_streams h sources w self))) = [] /\
  snd (AudioEngine_.open_streams h sources w self)
  = Raise (RuntimeError AudioEngine_.no_streams_msg).
Proof.
  unfold AudioEngine_.open_streams, AudioEngine_.close_streams.
  cbn [fst snd].
  destruct (AudioEngine_.open_each h sources _ _) as [w' streams].
  destruct streams; cbn [fst snd _streams]; [auto|]. congruence.
Qed.

Lemma filter_terminal_body (body ending : list FileTranscriptionWorker.signal) :
  Forall (fun s => Batch.terminal s = false) body ->
  filter Batch.terminal (body ++ ending) = filter Batch.terminal ending.
Proof.
  induction 1 as [|s body Hs _ IH]; [reflexivity|].
  cbn [app filter]. now rewrite Hs.
Qed.

Lemma filter_terminal_none (body : list FileTranscriptionWorker.signal) :
  Forall (fun s => Batch.terminal s = false) body ->
  filter Batch.terminal body = [].
Proof.
  intros H. rewrite <- (app_nil_r body). now rewrite filter_terminal_body.
Qed.

(** The paths through [_do_transcription], by what the run finds. *)
Lemma do_transcription_paths {RS : Type} (recognizer : KaldiRecognizer RS)
    (e : FileTranscriptionWorker.env) (fresh : RS) :
  let d := FileTranscriptionWorker._do_transcription recognizer e fresh
             FileTranscriptionWorker.__init__ in
  let loop := Batch.the_loop recognizer e fresh in
  (Batch.converted_ok e = false ->
   snd (fst d) = [] /\ exists msg, snd d = Raise (RuntimeError msg)) /\
  (Batch.converted_ok e = true ->
   (FileTranscriptionWorker._is_cancelled e 0 = true ->
    snd (fst d) = [] /\ snd d = Ok tt) /\
   (FileTranscriptionWorker._is_cancelled e 0 = false ->
    (FileTranscriptionWorker.model_isdir e = false ->
     snd (fst d)
     = [FileTranscriptionWorker.error_occurred
          (FileTranscriptionWorker.model_missing_msg
             (FileTranscriptionWorker.model_dir e))] /\
     snd d = Ok tt) /\
    (FileTranscriptionWorker.model_isdir e = true ->
     (FileTranscriptionWorker.model_raises e = true ->
      snd (fst d) = [] /\
      snd d = Raise (Exception "Failed to create a model")) /\
     (FileTranscriptionWorker.model_raises e = false ->
      (FileTranscriptionWorker.converted e = [] ->
       snd (fst d)
       = [FileTranscriptionWorker.error_occurred
            "Audio file is empty (0 frames)."] /\
       snd d = Ok tt) /\
      (FileTranscriptionWorker.converted e <> [] ->
       (forall ex, snd loop = Raise ex ->
                   snd (fst d) = fst loop /\ snd d = Raise ex) /\
       (forall st, snd loop = Ok (st, false) ->
                   snd (fst d) = fst loop /\ snd d = Ok tt) /\
       (forall st, snd loop = Ok (st, true) ->
                   snd d = Ok tt /\
                   exists texts,
                     Forall (fun s => Batch.terminal s = false) texts /\
                     snd (fst d)
                     = fst loop ++ texts
                       ++ [FileTranscriptionWorker.progress_updated 100;
                           FileTranscriptionWorker.finished_signal])))))).
Proof.
  intros d loop. subst d loop.
  unfold Batch.the_loop, Batch.converted_ok,
    FileTranscriptionWorker._do_transcription,
    FileTranscriptionWorker._ensure_wav.
  destruct (FileTranscriptionWorker.ffmpeg e) as [path|].
  2:{ split; [intros _; cbn; eauto|discriminate]. }
  destruct (FileTranscriptionWorker.returncode e =? 0).
  2:{ split; [intros _; cbn; eauto|discriminate]. }
  split; [discriminate|]. intros _.
  destruct (FileTranscriptionWorker._is_cancelled e 0).
  { split; [intros _; cbn; auto|discriminate]. }
  split; [discriminate|]. intros _.
  destruct (FileTranscriptionWorker.model_isdir e).
  2:{ split; [intros _; cbn; auto|discriminate]. }
  split; [discriminate|]. intros _. cbn [negb].
  destruct (FileTranscriptionWorker.model_raises e).
  { split; [intros _; cbn; auto|discriminate]. }
  split; [discriminate|]. intros _.
  destruct (FileTranscriptionWorker.converted e) as [|f fs] eqn:Hconv.
  { split; [intros _; cbn; auto|congruence]. }
  split; [discriminate|]. intros _.
  replace (Z.of_nat (List.length (f :: fs)) =? 0) with false
    by (symmetry; apply Z.eqb_neq; cbn [List.length]; lia).
  destruct (FileTranscriptionWorker.chunk_loop recognizer e _ _ 1 0 (-1)
              fresh []) as [out [[st [|]]|ex]]; cbn [fst snd].
  - split; [discriminate|]. split; [discriminate|].
    intros st' _.
    destruct (FinalResult recognizer st) as [st'' final].
    destruct (strip (get (j_text final) "")) as [|c text]; cbn [fst snd].
    + split; [reflexivity|]. exists []. split; [constructor|reflexivity].
    + split; [reflexivity|].
      exists [FileTranscriptionWorker.text_updated (String c text)].
      split; [repeat constructor|]. now rewrite <- app_assoc.
  - split; [discriminate|]. split; [auto|discriminate].
  - split; [intros ex' H; inversion H; auto|]. split; discriminate.
Qed.

(** C3, amended.  Batch pipeline: the signals of every run are signals
    that are not terminal followed by at most one terminal signal, an
    error or the completion.  An error path emits exactly one error: an
    exception that leaves [_do_transcription] is reported by [run] with
    its text, after what was emitted before it, and the two failures that
    [_do_transcription] reports itself (no model directory, empty audio)
    are the only signal of their run.  Normal completion, the loop left by
    its [break], emits exactly one completion signal, the last signal of
    the run, and the completion signal is emitted on no other path.  A
    cancelled run, one that finds the flag set after the conversion or in
    the loop, emits no terminal signal (the worker has no signal for
    cancellation); a run ends without any terminal signal only when
    cancellation was requested.  Every run ends with the cleanup, which
    forgets the temporary file and removes it unless [os.remove] itself
    fails.  Capture worker: when the sources cannot be opened it emits
    exactly one error signal and holds no handle; and whenever [run]
    returns, the handle set is empty. *)
Theorem background_tasks_end (RS : Type) (recognizer : KaldiRecognizer RS) :
  (forall (e : FileTranscriptionWorker.env) (fresh : RS),
      let d := FileTranscriptionWorker._do_transcription recognizer e fresh
                 FileTranscriptionWorker.__init__ in
      let loop := Batch.the_loop recognizer e fresh in
      let r := FileTranscriptionWorker.run recognizer e fresh
                 FileTranscriptionWorker.__init__ in
      (exists body ending,
          snd r = body ++ ending /\
          Forall (fun s => Batch.terminal s = false) body /\
          (ending = [] /\ FileTranscriptionWorker.cancel_from e <> None \/
           (exists msg, ending = [FileTranscriptionWorker.error_occurred msg]) \/
           ending = [FileTranscriptionWorker.finished_signal])) /\
      (forall ex,
          snd d = Raise ex ->
          snd r = snd (fst d)
                  ++ [FileTranscriptionWorker.error_occurred (str_of_exn ex)] /\
          filter Batch.terminal (snd r)
          = [FileTranscriptionWorker.error_occurred (str_of_exn ex)]) /\
      (Batch.converted_ok e = true ->
       FileTranscriptionWorker._is_cancelled e 0 = false ->
       (FileTranscriptionWorker.model_isdir e = false ->
        snd r = [FileTranscriptionWorker.error_occurred
                   (FileTranscriptionWorker.model_missing_msg
                      (FileTranscriptionWorker.model_dir e))]) /\
       (FileTranscriptionWorker.model_isdir e = true ->
        FileTranscriptionWorker.model_raises e = false ->
        FileTranscriptionWorker.converted e = [] ->
        snd r = [FileTranscriptionWorker.error_occurred
                   "Audio file is empty (0 frames)."])) /\
      (Batch.reaches_loop e = true ->
       forall st,
         snd loop = Ok (st, true) ->
         filter Batch.terminal (snd r)
         = [FileTranscriptionWorker.finished_signal] /\
         exists body,
           snd r = body ++ [FileTranscriptionWorker.finished_signal]) /\
      (existsb Batch.is_finished (snd r) = true ->
       Batch.reaches_loop e = true /\ exists st, snd loop = Ok (st, true)) /\
      (Batch.converted_ok e = true ->
       FileTranscriptionWorker._is_cancelled e 0 = true -> snd r = []) /\
      (Batch.reaches_loop e = true ->
       forall st,
         snd loop = Ok (st, false) ->
         snd r = fst loop /\ filter Batch.terminal (snd r) = []) /\
      FileTranscriptionWorker._temp_wav (fst r) = None /\
      (FileTranscriptionWorker.remove_raises e = false ->
       FileTranscriptionWorker.temp_file_exists (fst r) = false)) /\
  (forall (sources : list Source) (opening closing : Host)
          (schedule : list AudioWorker.tick)
          (w : PortAudio) (self : AudioEngine) (st : RS),
      let o := AudioWorker.run recognizer sources opening schedule closing
                 w self st in
      (snd (AudioEngine_.open_streams opening sources w self) <> Ok tt ->
       AudioWorker.emitted o
       = [AudioWorker.error_occurred
            ("Failed to open audio sources: "
               ++ AudioEngine_.no_streams_msg)%string] /\
       _streams (AudioWorker.engine o) = [] /\
       AudioWorker.returned o = Ok tt) /\
      (AudioWorker.returned o = Ok tt -> _streams (AudioWorker.engine o) = [])).
Proof.
  split.
  - intros e fresh d loop r.
    assert (Hloop : exists added,
               fst loop = added /\
               Forall (fun s => Batch.terminal s = false) added).
    { destruct (BatchFacts.chunk_loop_appends recognizer
                  (Z.of_nat (List.length (FileTranscriptionWorker.converted e)))
                  e
                  (FileTranscriptionWorker.readframes_all
                     FileTranscriptionWorker._CHUNK_FRAMES
                     (FileTranscriptionWorker.converted e))
                  1 0 (-1) fresh [])
        as (added & Hadd & Hterm).
      exists added. split; [exact Hadd|exact Hterm]. }
    destruct Hloop as (added & Hadd & Hterm).
    assert (Hrun : r = (FileTranscriptionWorker._cleanup e (fst (fst d)),
                        match snd d with
                        | Ok _ => snd (fst d)
                        | Raise ex =>
                            snd (fst d)
                            ++ [FileTranscriptionWorker.error_occurred
                                  (str_of_exn ex)]
                        end)).
    { subst r d. unfold FileTranscriptionWorker.run.
      destruct (FileTranscriptionWorker._do_transcription recognizer e fresh
                  FileTranscriptionWorker.__init__) as [[self out] [u|ex]];
        reflexivity. }
    pose proof (do_transcription_paths recognizer e fresh) as Hp.
    cbv zeta in Hp. fold d loop in Hp.
    destruct Hp as [Hbad Hgood].
    assert (Hreach : Batch.reaches_loop e = true <->
                     Batch.converted_ok e = true /\
                     FileTranscriptionWorker._is_cancelled e 0 = false /\
                     FileTranscriptionWorker.model_isdir e = true /\
                     FileTranscriptionWorker.model_raises e = false /\
                     FileTranscriptionWorker.converted e <> []).
    { unfold Batch.reaches_loop. rewrite !andb_true_iff, !negb_true_iff.
      rewrite Z.eqb_neq.
      destruct (FileTranscriptionWorker.converted e);
        cbn [List.length]; intuition (try congruence; try lia). }
    assert (Hshape_raise : forall ex,
               snd d = Raise ex ->
               Forall (fun s => Batch.terminal s = false) (snd (fst d))).
    { intros ex Hex.
      destruct (Batch.converted_ok e) eqn:Hc;
        [|destruct (Hbad eq_refl) as [-> _]; constructor].
      destruct (Hgood eq_refl) as [Hcan Hnot].
      destruct (FileTranscriptionWorker._is_cancelled e 0) eqn:Hc0;
        [destruct (Hcan eq_refl); congruence|].
      destruct (Hnot eq_refl) as [Hnodir Hdir].
      destruct (FileTranscriptionWorker.model_isdir e) eqn:Hm;
        [|destruct (Hnodir eq_refl); congruence].
      destruct (Hdir eq_refl) as [Hmr Hmok].
      destruct (FileTranscriptionWorker.model_raises e) eqn:Hr;
        [destruct (Hmr eq_refl) as [-> _]; constructor|].
      destruct (Hmok eq_refl) as [Hempty Hfull].
      destruct (FileTranscriptionWorker.converted e) as [|f fs] eqn:Hconv;
        [destruct (Hempty eq_refl); congruence|].
      destruct (Hfull ltac:(discriminate)) as (Hlr & Hlc & Hlb).
      destruct (snd loop) as [[st [|]]|ex'] eqn:Hl.
      - destruct (Hlb st eq_refl); congruence.
      - destruct (Hlc st eq_refl); congruence.
      - destruct (Hlr ex' eq_refl) as [-> _]. now rewrite Hadd. }
    rewrite Hrun. cbn [fst snd].
    repeat match goal with |- _ /\ _ => split end.
    + (* the shape *)
      destruct (snd d) as [u|ex] eqn:Hd.
      * destruct (Batch.converted_ok e) eqn:Hc;
          [|destruct (Hbad eq_refl) as [_ [msg Hm]]; congruence].
        destruct (Hgood eq_refl) as [Hcan Hnot].
        destruct (FileTranscriptionWorker._is_cancelled e 0) eqn:Hc0.
        { destruct (Hcan eq_refl) as [-> _]. exists [], [].
          split; [reflexivity|]. split; [constructor|]. left.
          split; [reflexivity|].
          unfold FileTranscriptionWorker._is_cancelled in Hc0.
          destruct (FileTranscriptionWorker.cancel_from e); discriminate. }
        destruct (Hnot eq_refl) as [Hnodir Hdir].
        destruct (FileTranscriptionWorker.model_isdir e) eqn:Hm.
        2:{ destruct (Hnodir eq_refl) as [-> _]. eexists [], _.
            split; [reflexivity|]. split; [constructor|]. right; left. eauto. }
        destruct (Hdir eq_refl) as [Hmr Hmok].
        destruct (FileTranscriptionWorker.model_raises e) eqn:Hr;
          [destruct (Hmr eq_refl); congruence|].
        destruct (Hmok eq_refl) as [Hempty Hfull].
        destruct (FileTranscriptionWorker.converted e) as [|f fs] eqn:Hconv.
        { destruct (Hempty eq_refl) as [-> _]. eexists [], _.
          split; [reflexivity|]. split; [constructor|]. right; left. eauto. }
        destruct (Hfull ltac:(discriminate)) as (Hlr & Hlc & Hlb).
        destruct (snd loop) as [[st [|]]|ex'] eqn:Hl.
        -- destruct (Hlb st eq_refl) as (_ & texts & Ht & ->).
           exists (added ++ texts
                   ++ [FileTranscriptionWorker.progress_updated 100]),
             [FileTranscriptionWorker.finished_signal].
           rewrite Hadd, <- !app_assoc. split; [reflexivity|].
           split; [|now right; right].
           rewrite !Forall_app. repeat split; auto; repeat constructor.
        -- destruct (Hlc st eq_refl) as [-> _].
           exists added, []. rewrite Hadd, app_nil_r.
           split; [reflexivity|]. split; [exact Hterm|]. left.
           split; [reflexivity|].
           apply BatchFacts.chunk_loop_return in Hl as [c Hc']. congruence.
        -- destruct (Hlr ex' eq_refl); congruence.
      * exists (snd (fst d)),
          [FileTranscriptionWorker.error_occurred (str_of_exn ex)].
        split; [reflexivity|]. split; [eauto|]. right; left. eauto.
    + (* an exception *)
      intros ex Hex. rewrite Hex. split; [reflexivity|].
      now rewrite filter_terminal_body by eauto.
    + (* the failures reported by [_do_transcription] itself *)
      intros Hc Hc0.
      destruct (Hgood Hc) as [_ Hnot].
      destruct (Hnot Hc0) as [Hnodir Hdir].
      split.
      * intros Hm. destruct (Hnodir Hm) as [-> ->]. reflexivity.
      * intros Hm Hr Hconv.
        destruct (Hdir Hm) as [_ Hmok].
        destruct (Hmok Hr) as [Hempty _].
        destruct (Hempty Hconv) as [-> ->]. reflexivity.
    + (* completion *)
      intros Hr st Hl. apply Hreach in Hr as (Hc & Hc0 & Hm & Hmr & Hconv).
      destruct (Hgood Hc) as [_ Hnot].
      destruct (Hnot Hc0) as [_ Hdir].
      destruct (Hdir Hm) as [_ Hmok].
      destruct (Hmok Hmr) as [_ Hfull].
      destruct (Hfull Hconv) as (_ & _ & Hlb).
      destruct (Hlb st Hl) as (-> & texts & Ht & ->).
      split;
        [|exists (fst loop ++ texts
                  ++ [FileTranscriptionWorker.progress_updated 100]);
          now rewrite <- !app_assoc].
      rewrite Hadd.
      replace (added ++ texts
               ++ [FileTranscriptionWorker.progress_updated 100;
                   FileTranscriptionWorker.finished_signal])
        with ((added ++ texts
               ++ [FileTranscriptionWorker.progress_updated 100])
              ++ [FileTranscriptionWorker.finished_signal])
        by (now rewrite <- !app_assoc).
      rewrite filter_terminal_body; [reflexivity|].
      rewrite !Forall_app. repeat split; auto; repeat constructor.
    + (* the completion signal on no other path *)
      intros Hfin.
      assert (Hno : forall l,
                 Forall (fun s => Batch.terminal s = false) l ->
                 existsb Batch.is_finished l = false)
        by (intros l Hl; now apply BatchFacts.not_terminal_not_finished).
      destruct (snd d) as [u|ex] eqn:Hd.
      2:{ rewrite BatchFacts.existsb_is_finished_app in Hfin.
          rewrite (Hno _ (Hshape_raise ex eq_refl)) in Hfin.
          discriminate. }
      destruct (Batch.converted_ok e) eqn:Hc;
        [|destruct (Hbad eq_refl) as [_ [msg Hm]]; congruence].
      destruct (Hgood eq_refl) as [Hcan Hnot].
      destruct (FileTranscriptionWorker._is_cancelled e 0) eqn:Hc0.
      { destruct (Hcan eq_refl) as [E _]. rewrite E in Hfin. discriminate. }
      destruct (Hnot eq_refl) as [Hnodir Hdir].
      destruct (FileTranscriptionWorker.model_isdir e) eqn:Hm.
      2:{ destruct (Hnodir eq_refl) as [E _]. rewrite E in Hfin.
          discriminate. }
      destruct (Hdir eq_refl) as [Hmr Hmok].
      destruct (FileTranscriptionWorker.model_raises e) eqn:Hr;
        [destruct (Hmr eq_refl); congruence|].
      destruct (Hmok eq_refl) as [Hempty Hfull].
      destruct (FileTranscriptionWorker.converted e) as [|f fs] eqn:Hconv.
      { destruct (Hempty eq_refl) as [E _]. rewrite E in Hfin.
        discriminate. }
      destruct (Hfull ltac:(discriminate)) as (Hlr & Hlc & Hlb).
      split.
      { apply Hreach. repeat split; auto; discriminate. }
      destruct (snd loop) as [[st [|]]|ex'] eqn:Hl.
      * eauto.
      * destruct (Hlc st eq_refl) as [E _]. rewrite E, Hadd in Hfin.
        rewrite (Hno _ Hterm) in Hfin. discriminate.
      * destruct (Hlr ex' eq_refl); congruence.
    + (* cancelled after the conversion *)
      intros Hc Hc0.
      destruct (Hgood Hc) as [Hcan _].
      destruct (Hcan Hc0) as [-> ->]. reflexivity.
    + (* cancelled in the loop *)
      intros Hr st Hl. apply Hreach in Hr as (Hc & Hc0 & Hm & Hmr & Hconv).
      destruct (Hgood Hc) as [_ Hnot].
      destruct (Hnot Hc0) as [_ Hdir].
      destruct (Hdir Hm) as [_ Hmok].
      destruct (Hmok Hmr) as [_ Hfull].
      destruct (Hfull Hconv) as (_ & Hlc & _).
      destruct (Hlc st Hl) as [-> ->]. split; [reflexivity|]. rewrite Hadd.
      now apply filter_terminal_none.
    + (* the cleanup *)
      pose proof (BatchFacts.run_cleans_up recognizer e fresh) as [Hw _].
      fold r in Hw. rewrite Hrun in Hw. exact Hw.
    + pose proof (BatchFacts.run_cleans_up recognizer e fresh) as [_ Hw].
      fold r in Hw. rewrite Hrun in Hw. exact Hw.
  - intros sources opening closing schedule w self st o. subst o.
    unfold AudioWorker.run.
    pose proof (open_streams_raises_empty opening sources w self) as Hopen.
    destruct (AudioEngine_.open_streams opening sources w self)
      as [[w' self'] [u|ex]]; cbn [fst snd] in *.
    + split; [intros H; destruct u; congruence|].
      destruct (AudioWorker.capture_loop recognizer schedule self' st [])
        as [[st' out] [u'|ex]]; cbn [AudioWorker.returned AudioWorker.engine].
      * destruct (TranscriptionEngine.final_result recognizer st')
          as [st'' remaining]. reflexivity.
      * discriminate.
    + destruct (Hopen ltac:(discriminate)) as [Hs Hex].
      inversion Hex; subst ex. cbn [AudioWorker.returned AudioWorker.engine
                                    AudioWorker.emitted str_of_exn].
      auto.
Qed.

(** The three kinds of run over 8000 frames: a recognizer that raises, a
    run that completes, and a run cancelled after its first chunk. *)
Example batch_run_endings :
  snd (FileTranscriptionWorker.run failing (Batch.pcm_run 8000 None) tt
         FileTranscriptionWorker.__init__)
  = [FileTranscriptionWorker.error_occurred "Failed to process waveform"] /\
  filter Batch.terminal
    (snd (FileTranscriptionWorker.run deaf (Batch.pcm_run 8000 None) tt
            FileTranscriptionWorker.__init__))
  = [FileTranscriptionWorker.finished_signal] /\
  filter Batch.terminal
    (snd (FileTranscriptionWorker.run deaf (Batch.pcm_run 8000 (Some 2%nat))
            tt FileTranscriptionWorker.__init__))
  = [] /\
  Batch.reaches_loop (Batch.pcm_run 8000 None) = true.
Proof. vm_compute. repeat split. Qed.

(** An exception inside the capture loop is not caught by [run]: nothing is
    emitted for it and the streams stay open. *)
Example capture_loop_exception_escapes :
  let failing : KaldiRecognizer unit :=
    {| AcceptWaveform := fun _ _ => Raise (Exception "Failed to process waveform");
       Result := fun st => (st, no_json);
       PartialResult := fun st => (st, no_json);
       FinalResult := fun st => (st, no_json) |} in
  let o := AudioWorker.run failing [mic 0 1 true] quiet_host
             [{| AudioWorker.paused := false; AudioWorker.host := quiet_host |}]
             quiet_host fresh_audio AudioEngine_.__init__ tt in
  AudioWorker.emitted o = [] /\
  AudioWorker.returned o = Raise (Exception "Failed to process waveform") /\
  live (AudioWorker.audio o) = [0%nat] /\
  map fst (_streams (AudioWorker.engine o)) = [0%nat].
Proof. vm_compute. auto. Qed.

(** * Properties of the rest of the code *)

(** ** Closing, terminating, and the legacy single-stream calls *)

Lemma filter_none {A : Type} (f : A -> bool) (l : list A) :
  (forall x, In x l -> f x = false) -> filter f l = [].
Proof.
  induction l as [|a l IH]; intros H; cbn; [reflexivity|].
  rewrite (H a (or_introl eq_refl)). apply IH. intros x Hx. apply H. now right.
Qed.

Lemma filter_all {A : Type} (f : A -> bool) (l : list A) :
  (forall x, f x = true) -> filter f l = l.
Proof.
  intros H. induction l as [|a l IH]; cbn; [reflexivity|].
  now rewrite H, IH.
Qed.

Lemma filter_filter {A : Type} (f g : A -> bool) (l : list A) :
  filter f (filter g l) = filter (fun x => g x && f x) l.
Proof.
  induction l as [|a l IH]; cbn; [reflexivity|].
  destruct (g a); cbn; [destruct (f a)|]; now rewrite IH.
Qed.

Lemma close_all_live (h : Host) (streams : list (Stream * float))
    (w : PortAudio) :
  live (close_all h w streams)
  = filter (fun t => negb (existsb (fun s => Nat.eqb t s && closes_cleanly h s)
                                   (map fst streams)))
           (live w).
Proof.
  revert w. induction streams as [|[s g] streams IH]; intros w.
  - cbn. symmetry. apply filter_all. reflexivity.
  - unfold close_all in *. cbn [fold_left fst map existsb].
    rewrite IH, close_one_live.
    destruct (closes_cleanly h s).
    + rewrite filter_filter. apply filter_ext. intros t.
      now rewrite andb_true_r, negb_orb.
    + apply filter_ext. intros t. now rewrite andb_false_r.
Qed.

(** X1. [close_streams] is best effort: every handle held gets its
    [is_active] call and the calls that follow it, whatever happened to the
    handles before it; exactly the handles whose close went through leave
    the set of open streams, and nothing is opened; the engine's set is
    empty afterwards; and a second call does nothing at all. *)
Theorem close_streams_best_effort (h : Host) (w : PortAudio)
    (self : AudioEngine) :
  let old := map fst (_streams self) in
  let r := AudioEngine_.close_streams h w self in
  _streams (snd r) = [] /\
  calls (fst r) = calls w ++ flat_map (close_calls h) old /\
  (forall s, In s old -> In (Call_is_active s) (calls (fst r))) /\
  live (fst r)
  = filter (fun t => negb (existsb (fun s => Nat.eqb t s && closes_cleanly h s)
                                   old))
           (live w) /\
  created (fst r) = created w /\
  (forall h', AudioEngine_.close_streams h' (fst r) (snd r) = r).
Proof.
  intros old r. subst old r. unfold AudioEngine_.close_streams.
  cbn [fst snd _streams _pa].
  fold (close_all h w (_streams self)).
  rewrite close_all_calls, close_all_live, close_all_created.
  repeat split.
  intros s Hin. apply in_or_app. right.
  apply in_flat_map. exists s. split; [exact Hin|].
  unfold close_calls. now left.
Qed.

(** On an audio layer whose closes go through, closing the streams the
    engine tracks leaves none open. *)
Lemma close_all_tracked (h : Host) (w : PortAudio)
    (streams : list (Stream * float)) :
  (forall s, closes_cleanly h s = true) ->
  live w = map fst streams ->
  live (close_all h w streams) = [].
Proof.
  intros Hc Hl. rewrite close_all_live, Hl.
  apply filter_none. intros t Hin.
  apply negb_false_iff, existsb_exists. exists t.
  now rewrite Nat.eqb_refl, Hc.
Qed.

(** X2. No stream leaks while closes go through: if the engine tracks
    exactly the open streams, it still does after [open_streams] (which
    then opens a stream for every enabled source whose open does not
    raise), and after [close_streams] or [terminate] no stream is open;
    [terminate] leaves the engine as [__init__] made it and releases
    PortAudio exactly when it was initialised. *)
Theorem no_stream_leaks (h : Host) (sources : list Source) (w : PortAudio)
    (self : AudioEngine) :
  (forall s, closes_cleanly h s = true) ->
  live w = map fst (_streams self) ->
  let opened := AudioEngine_.open_streams h sources w self in
  let closed := AudioEngine_.close_streams h w self in
  let ended := AudioEngine_rest.terminate h w self in
  live (fst (fst opened)) = map fst (_streams (snd (fst opened))) /\
  live (fst closed) = [] /\
  live (fst (fst ended)) = [] /\
  snd (fst ended) = AudioEngine_.__init__ /\
  snd ended = _pa self /\
  AudioEngine_rest.terminate h (fst (fst ended)) (snd (fst ended))
  = (fst (fst ended), snd (fst ended), false).
Proof.
  intros Hc Hl opened closed ended. subst opened closed ended.
  pose proof (close_all_tracked h w (_streams self) Hc Hl) as Hnone.
  unfold AudioEngine_rest.terminate, AudioEngine_.open_streams,
    AudioEngine_.close_streams.
  cbn [fst snd _streams _pa AudioEngine_.init].
  fold (close_all h w (_streams self)).
  destruct (open_each_spec h sources (close_all h w (_streams self)) [])
    as (new & H1 & _ & _ & _ & H5 & _).
  destruct (AudioEngine_.open_each h sources
              (close_all h w (_streams self)) []) as [w1 streams].
  cbn [fst snd app] in *. subst streams. rewrite Hnone in H5.
  split.
  { destruct new; cbn [fst snd _streams]; exact H5. }
  split; [exact Hnone|].
  destruct (_pa self); cbn [fst snd _streams _pa fold_left]; auto.
Qed.

Lemma no_stream_leaks_witness :
  let h := quiet_host in
  let sources := [mic 3 1 true; mic 4 0.5 true] in
  let w := fst first_opened in
  let self := snd first_opened in
  (forall s, closes_cleanly h s = true) /\
  live w = map fst (_streams self) /\
  let opened := AudioEngine_.open_streams h sources w self in
  let closed := AudioEngine_.close_streams h w self in
  let ended := AudioEngine_rest.terminate h w self in
  live (fst (fst opened)) = map fst (_streams (snd (fst opened))) /\
  live (fst closed) = [] /\
  live (fst (fst ended)) = [] /\
  snd (fst ended) = AudioEngine_.__init__ /\
  snd ended = _pa self /\
  AudioEngine_rest.terminate h (fst (fst ended)) (snd (fst ended))
  = (fst (fst ended), snd (fst ended), false).
Proof.
  intros h sources w self.
  assert (H1 : forall s, closes_cleanly h s = true) by reflexivity.
  assert (H2 : live w = map fst (_streams self)) by reflexivity.
  split; [exact H1|]. split; [exact H2|].
  exact (no_stream_leaks h sources w self H1 H2).
Defined.

(** ** Listing the input devices *)

Lemma devices_from_spec (infos : list device_info) :
  forall (i : Z) (d : Device),
    In d (AudioEngine_rest.devices_from i infos) <->
    exists info,
      i <= index d /\
      nth_error infos (Z.to_nat (index d - i)) = Some info /\
      name d = info_name info /\
      maxInputChannels info = Some (max_input_channels d) /\
      0 < max_input_channels d.
Proof.
  induction infos as [|info infos IH]; intros i d; cbn [AudioEngine_rest.devices_from].
  - split; [intros []|]. intros (info & _ & H & _).
    destruct (Z.to_nat (index d - i)); discriminate.
  - assert (Hrest : In d (AudioEngine_rest.devices_from (i + 1) infos) <->
                    exists info',
                      i < index d /\
                      nth_error (info :: infos) (Z.to_nat (index d - i))
                      = Some info' /\
                      name d = info_name info' /\
                      maxInputChannels info' = Some (max_input_channels d) /\
                      0 < max_input_channels d).
    { rewrite IH. split; intros (info' & Hi & Hn & Hrest).
      - exists info'. split; [lia|]. split; [|exact Hrest].
        replace (Z.to_nat (index d - i)) with (S (Z.to_nat (index d - (i + 1))))
          by lia. exact Hn.
      - exists info'. split; [lia|]. split; [|exact Hrest].
        replace (Z.to_nat (index d - i)) with (S (Z.to_nat (index d - (i + 1))))
          in Hn by lia. exact Hn. }
    destruct (0 <? get (maxInputChannels info) 0) eqn:Hpos.
    + cbn [In]. rewrite Hrest. split.
      * intros [Hd | (info' & Hi & H)].
        -- subst d. cbn. exists info. rewrite Z.sub_diag. cbn.
           apply Z.ltb_lt in Hpos.
           destruct (maxInputChannels info); cbn in *; [|lia].
           repeat split; auto; lia.
        -- exists info'. split; [lia|exact H].
      * intros (info' & Hi & Hn & Hname & Hmax & Hp).
        destruct (Z.eq_dec (index d) i) as [He|Hne].
        -- left. rewrite He, Z.sub_diag in Hn. cbn in Hn. inversion Hn; subst info'.
           destruct d as [di dn dm]. cbn in *. subst. rewrite Hmax. reflexivity.
        -- right. exists info'. split; [lia|]. auto.
    + rewrite Hrest. split.
      * intros (info' & Hi & H). exists info'. split; [lia|exact H].
      * intros (info' & Hi & Hn & Hname & Hmax & Hp).
        destruct (Z.eq_dec (index d) i) as [He|Hne].
        -- exfalso. rewrite He, Z.sub_diag in Hn. cbn in Hn.
           inversion Hn; subst info'. rewrite Hmax in Hpos. cbn in Hpos.
           apply Z.ltb_ge in Hpos. lia.
        -- exists info'. split; [lia|]. auto.
Qed.

Lemma devices_from_sorted (infos : list device_info) :
  forall i, StronglySorted Z.lt (map index (AudioEngine_rest.devices_from i infos)).
Proof.
  induction infos as [|info infos IH]; intros i;
    cbn [AudioEngine_rest.devices_from]; [constructor|].
  destruct (0 <? get (maxInputChannels info) 0); [|apply IH].
  cbn. constructor; [apply IH|].
  apply Forall_forall. intros x Hx. apply in_map_iff in Hx as (d & <- & Hd).
  apply devices_from_spec in Hd as (info' & Hi & _). lia.
Qed.

(** X3. [list_input_devices] returns exactly the devices whose info reports
    more than zero input channels (a missing ["maxInputChannels"] counts as
    zero), each once, with the name and channel count of its info, in
    increasing order of index; and it leaves the engine initialised with
    its handles untouched. *)
Theorem list_input_devices_exact (infos : list device_info)
    (self : AudioEngine) :
  let r := AudioEngine_rest.list_input_devices infos self in
  _pa (fst r) = true /\
  _streams (fst r) = _streams self /\
  (forall d,
      In d (snd r) <->
      exists info,
        0 <= index d /\
        nth_error infos (Z.to_nat (index d)) = Some info /\
        name d = info_name info /\
        maxInputChannels info = Some (max_input_channels d) /\
        0 < max_input_channels d) /\
  StronglySorted Z.lt (map index (snd r)).
Proof.
  intros r. subst r. unfold AudioEngine_rest.list_input_devices.
  cbn [fst snd AudioEngine_.init _pa _streams].
  repeat split; try apply devices_from_sorted.
  - intros H. apply devices_from_spec in H as (info & Hi & Hn & H).
    rewrite Z.sub_0_r in Hn. eauto.
  - intros (info & Hi & Hn & H). apply devices_from_spec.
    exists info. rewrite Z.sub_0_r. auto.
Qed.

(** ** The legacy single-stream calls *)

Lemma open_stream_result (h : Host) (requested : option Z)
    (w : PortAudio) (self : AudioEngine) :
  let d := get requested 0 in
  let r := AudioEngine_rest.open_stream h requested w self in
  fst r = fst (AudioEngine_.open_streams h [mic d 1 true] w self) /\
  (open_raises h (created w) d = true ->
   snd r = Raise (RuntimeError AudioEngine_.no_streams_msg) /\
   _streams (snd (fst r)) = []) /\
  (open_raises h (created w) d = false ->
   snd r = Ok (Some (created w)) /\
   _streams (snd (fst r)) = [(created w, 1%float)]).
Proof.
  intros d r. subst r.
  assert (Hd : AudioEngine_rest.or_0 requested = d).
  { subst d. destruct requested as [z|]; cbn; [|reflexivity].
    destruct (Z.eqb_spec z 0); congruence. }
  unfold AudioEngine_rest.open_stream. rewrite Hd.
  unfold AudioEngine_.open_streams, AudioEngine_.close_streams.
  cbn [fst snd _streams _pa AudioEngine_.init].
  fold (close_all h w (_streams self)).
  cbn. rewrite !close_all_created.
  destruct (open_raises h (created w) d) eqn:Ho; cbn;
    repeat split; try discriminate; auto.
Qed.

(** X4. The legacy [open_stream] never returns [None]: it opens device
    [device_index or 0] (which is [device_index] itself for every integer,
    and 0 for [None]) at gain 1.0 after closing what was held; when that
    open raises it raises the "no audio streams" error and holds nothing,
    otherwise it returns the new stream, the only handle held. *)
Theorem open_stream_never_None (h : Host) (requested : option Z)
    (w : PortAudio) (self : AudioEngine) :
  let d := get requested 0 in
  let r := AudioEngine_rest.open_stream h requested w self in
  snd r <> Ok None /\
  fst r = fst (AudioEngine_.open_streams h [mic d 1 true] w self) /\
  (open_raises h (created w) d = true ->
   snd r = Raise (RuntimeError AudioEngine_.no_streams_msg) /\
   _streams (snd (fst r)) = []) /\
  (open_raises h (created w) d = false ->
   snd r = Ok (Some (created w)) /\
   _streams (snd (fst r)) = [(created w, 1%float)]).
Proof.
  intros d r.
  destruct (open_stream_result h requested w self) as (H1 & H2 & H3).
  fold d in H1, H2, H3. fold r in H1, H2, H3.
  split; [|auto].
  destruct (open_raises h (created w) d).
  - destruct (H2 eq_refl) as [-> _]. discriminate.
  - destruct (H3 eq_refl) as [-> _]. discriminate.
Qed.


(** ** Mixing: the order of the handles, and handles that add nothing *)

Lemma mix_each_app (h : Host) (l1 l2 : list (Stream * float)) :
  forall mixed,
    AudioEngine_.mix_each h (l1 ++ l2) mixed
    = (m <- AudioEngine_.mix_each h l1 mixed ;; AudioEngine_.mix_each h l2 m).
Proof.
  induction l1 as [|[s g] l1 IH]; intros mixed; cbn; [reflexivity|].
  destruct (is_active h s) as [[|]|]; auto.
  destruct (read h s) as [raw|]; auto.
  destruct (Struct.unpack CHUNK_SIZE raw) as [samples|]; cbn; auto.
  destruct (AudioEngine_.add_gained mixed samples g); cbn; auto.
Qed.

Lemma add_gained_ok_inv (g : float) (samples : list Z) :
  forall mixed out,
    AudioEngine_.add_gained mixed samples g = Ok out ->
    forallb (fun s => is_ok (int_of_float (int_mul_float s g))) samples = true.
Proof.
  induction samples as [|s samples IH]; intros mixed out H;
    cbn [forallb]; auto.
  destruct mixed as [|m mixed]; cbn [AudioEngine_.add_gained] in H;
    [discriminate|].
  destruct (int_of_float (int_mul_float s g)); cbn [bind is_ok andb] in *;
    [|discriminate].
  destruct (AudioEngine_.add_gained mixed samples g) eqn:Hr;
    cbn [bind] in H; [|discriminate].
  eapply IH; eauto.
Qed.

Lemma unpack_ok (n : nat) (raw : list byte) (samples : list Z) :
  Struct.unpack n raw = Ok samples ->
  List.length raw = (2 * n)%nat /\ samples = Struct.unpack_items raw.
Proof.
  unfold Struct.unpack.
  destruct (Nat.eqb_spec (List.length raw) (2 * n)); intros H;
    inversion H; auto.
Qed.

(** A cycle that returns met only full frames and finite products. *)
Lemma mix_each_ok_inv (h : Host) (streams : list (Stream * float)) :
  forall mixed out,
    List.length mixed = CHUNK_SIZE ->
    AudioEngine_.mix_each h streams mixed = Ok out ->
    full_frames h streams = true /\ finite_products h streams = true.
Proof.
  unfold full_frames, finite_products.
  induction streams as [|[s g] streams IH]; intros mixed out Hl H;
    cbn [AudioEngine_.mix_each delivered heard] in *; [auto|].
  destruct (is_active h s) as [[|]|]; try (eapply IH; eauto; fail).
  destruct (read h s) as [raw|]; try (eapply IH; eauto; fail).
  destruct (Struct.unpack CHUNK_SIZE raw) as [samples|] eqn:Hu;
    cbn in H; [|discriminate].
  apply unpack_ok in Hu as [Hraw ->].
  destruct (AudioEngine_.add_gained mixed (Struct.unpack_items raw) g)
    as [mixed'|] eqn:Ha; cbn in H; [|discriminate].
  pose proof (add_gained_ok_inv _ _ _ _ Ha) as Hfin.
  apply add_gained_ok in Ha as [Hl' _];
    [|rewrite (unpack_items_length CHUNK_SIZE); auto].
  destruct (IH mixed' out ltac:(congruence) H) as [Hf Hp].
  cbn [forallb fst snd]. rewrite Hf, Hp, Hfin.
  split; [|reflexivity].
  apply andb_true_intro. split; [|reflexivity]. now apply Nat.eqb_eq.
Qed.

Lemma heard_perm (h : Host) (l l' : list (Stream * float)) :
  Permutation l l' -> Permutation (heard h l) (heard h l').
Proof.
  induction 1 as [|[s g] l l' _ IH|[s g] [s' g'] l|l l' l'' _ IH1 _ IH2];
    cbn [heard].
  - constructor.
  - destruct (is_active h s) as [[|]|]; auto.
    destruct (read h s); auto.
  - destruct (is_active h s) as [[|]|], (is_active h s') as [[|]|];
      try destruct (read h s); try destruct (read h s');
      auto using Permutation_refl, perm_swap.
  - eapply perm_trans; eauto.
Qed.

Lemma delivered_perm (h : Host) (l l' : list (Stream * float)) :
  Permutation l l' -> Permutation (delivered h l) (delivered h l').
Proof.
  induction 1 as [|[s g] l l' _ IH|[s g] [s' g'] l|l l' l'' _ IH1 _ IH2];
    cbn [delivered].
  - constructor.
  - destruct (is_active h s) as [[|]|]; auto.
    destruct (read h s); auto.
  - destruct (is_active h s) as [[|]|], (is_active h s') as [[|]|];
      try destruct (read h s); try destruct (read h s');
      auto using Permutation_refl, perm_swap.
  - eapply perm_trans; eauto.
Qed.

Lemma forallb_perm {A : Type} (f : A -> bool) (l l' : list A) :
  Permutation l l' -> forallb f l = true -> forallb f l' = true.
Proof.
  intros Hp H. apply forallb_forall. intros x Hx.
  rewrite forallb_forall in H. apply H.
  eapply Permutation_in; [apply Permutation_sym; exact Hp|exact Hx].
Qed.

Lemma zsum_perm (l l' : list Z) : Permutation l l' -> zsum l = zsum l'.
Proof.
  unfold zsum. induction 1; cbn; lia.
Qed.

Lemma presum_perm (hs hs' : list (list Z * float)) (i : nat) :
  Permutation hs hs' -> presum hs i = presum hs' i.
Proof.
  intros H. unfold presum. apply zsum_perm. now apply Permutation_map.
Qed.

Lemma read_and_mix_perm (h : Host) (pa pa' : bool)
    (streams streams' : list (Stream * float)) (buf : list byte) :
  Permutation streams streams' ->
  AudioEngine_.read_and_mix h {| _pa := pa; _streams := streams |} = Ok buf ->
  AudioEngine_.read_and_mix h {| _pa := pa'; _streams := streams' |} = Ok buf.
Proof.
  intros Hp Hrun.
  destruct streams as [|sg streams].
  { apply Permutation_nil in Hp. now subst. }
  assert (Hne' : streams' <> []).
  { intros ->. apply Permutation_sym, Permutation_nil in Hp. discriminate. }
  set (l := sg :: streams) in *.
  destruct (read_and_mix_ok h {| _pa := pa; _streams := l |} buf
              ltac:(discriminate) Hrun) as (_ & mixed & Hm & Hl & _).
  cbn [_streams] in Hm.
  destruct (mix_each_ok_inv h l _ _ (repeat_length 0 CHUNK_SIZE) Hm)
    as [Hf Hfin].
  assert (Hf' : full_frames h streams' = true).
  { unfold full_frames in *.
    eapply forallb_perm; [apply delivered_perm; exact Hp|exact Hf]. }
  assert (Hfin' : finite_products h streams' = true).
  { unfold finite_products in *.
    eapply forallb_perm; [apply heard_perm; exact Hp|exact Hfin]. }
  destruct (mix_each_total h streams' (repeat 0 CHUNK_SIZE) Hf' Hfin'
              (repeat_length 0 CHUNK_SIZE)) as [mixed' Hm'].
  destruct (mix_each_ok h l _ _ (repeat_length 0 CHUNK_SIZE) Hm)
    as [_ Hnth].
  destruct (mix_each_ok h streams' _ _ (repeat_length 0 CHUNK_SIZE) Hm')
    as [Hl' Hnth'].
  assert (Heq : mixed' = mixed).
  { apply (nth_ext _ _ 0 0); [congruence|].
    intros i Hi. rewrite Hl' in Hi.
    rewrite (Hnth i Hi), (Hnth' i Hi). f_equal.
    apply presum_perm, heard_perm, Permutation_sym, Hp. }
  subst mixed'.
  unfold AudioEngine_.read_and_mix in *. cbn [_streams] in *.
  destruct streams' as [|sg' streams']; [congruence|].
  rewrite Hm'. subst l. rewrite Hm in Hrun. exact Hrun.
Qed.

(** X5. The mix does not depend on the order of the handles: two engines
    whose handle lists are permutations of each other return the same
    buffer in the same cycle, and one returns exactly when the other
    does. *)
Theorem read_and_mix_order_independent (h : Host) (pa pa' : bool)
    (streams streams' : list (Stream * float)) :
  Permutation streams streams' ->
  forall buf,
    AudioEngine_.read_and_mix h {| _pa := pa; _streams := streams |} = Ok buf
    <->
    AudioEngine_.read_and_mix h {| _pa := pa'; _streams := streams' |}
    = Ok buf.
Proof.
  intros Hp buf. split; apply read_and_mix_perm;
    [exact Hp | apply Permutation_sym, Hp].
Qed.

Lemma read_and_mix_order_independent_witness :
  let h := first_starved (constant_frame xff x7f CHUNK_SIZE) in
  let streams := [(0%nat, 1%float); (1%nat, 0.5%float); (2%nat, 0.25%float)] in
  let streams' := [(2%nat, 0.25%float); (0%nat, 1%float); (1%nat, 0.5%float)] in
  Permutation streams streams' /\
  forall buf,
    AudioEngine_.read_and_mix h {| _pa := true; _streams := streams |} = Ok buf
    <->
    AudioEngine_.read_and_mix h {| _pa := true; _streams := streams' |}
    = Ok buf.
Proof.
  intros h streams streams'.
  assert (Hp : Permutation streams streams').
  { subst streams streams'.
    apply Permutation_sym. apply (Permutation_cons_app [_; _] []).
    apply Permutation_refl. }
  split; [exact Hp|].
  exact (read_and_mix_order_independent h true true streams streams' Hp).
Defined.

(** Every int16 sample times 0.0 is a zero; checked on all 65536. *)
Lemma zero_all_int16 :
  forallb (fun s => match int_of_float (int_mul_float s 0) with
                    | Ok c => c =? 0
                    | Raise _ => false
                    end)
          (zrange (-32768) (Z.to_nat 65536)) = true.
Proof. vm_compute. reflexivity. Qed.

Lemma int_of_float_zero_gain (s : Z) :
  -32768 <= s <= 32767 -> int_of_float (int_mul_float s 0) = Ok 0.
Proof.
  intros Hs.
  pose proof zero_all_int16 as H. rewrite forallb_forall in H.
  specialize (H s (In_zrange (Z.to_nat 65536) (-32768) s
                     ltac:(rewrite Z2Nat.id; lia))).
  destruct (int_of_float (int_mul_float s 0)) as [c|]; [|discriminate].
  apply Z.eqb_eq in H. now subst.
Qed.

Lemma add_gained_zero_gain (samples : list Z) :
  Forall (fun v => -32768 <= v <= 32767) samples ->
  forall mixed,
    List.length mixed = List.length samples ->
    AudioEngine_.add_gained mixed samples 0 = Ok mixed.
Proof.
  induction 1 as [|s samples Hs _ IH]; intros mixed Hl;
    [now destruct mixed|].
  destruct mixed as [|m mixed]; [discriminate|].
  cbn [AudioEngine_.add_gained].
  rewrite (int_of_float_zero_gain s Hs). cbn [bind].
  rewrite IH by (cbn in Hl; lia). cbn [bind]. now rewrite Z.add_0_r.
Qed.

Lemma mix_each_length (h : Host) (streams : list (Stream * float))
    (mixed out : list Z) :
  List.length mixed = CHUNK_SIZE ->
  AudioEngine_.mix_each h streams mixed = Ok out ->
  List.length out = CHUNK_SIZE.
Proof. intros Hl H. now destruct (mix_each_ok h streams mixed out Hl H). Qed.

Lemma mix_each_adds_nothing (h : Host) (s : Stream) (g : float)
    (mixed : list Z) :
  adds_nothing h s g -> List.length mixed = CHUNK_SIZE ->
  AudioEngine_.mix_each h [(s, g)] mixed = Ok mixed.
Proof.
  intros Hn Hl. cbn.
  destruct (is_active h s) as [[|]|] eqn:Ha; auto.
  destruct Hn as [Hn | [Hn | (-> & raw & Hr & Hraw)]]; [congruence| |].
  - now rewrite Hn.
  - rewrite Hr. unfold Struct.unpack.
    destruct (Nat.eqb_spec (List.length raw) (2 * CHUNK_SIZE)); [|contradiction].
    cbn. rewrite add_gained_zero_gain; auto using unpack_items_range.
    rewrite (unpack_items_length CHUNK_SIZE); auto.
Qed.

Lemma read_and_mix_nonempty (h : Host) (self : AudioEngine) :
  _streams self <> [] ->
  AudioEngine_.read_and_mix h self
  = (mixed <- AudioEngine_.mix_each h (_streams self) (repeat 0 CHUNK_SIZE) ;;
     Struct.pack CHUNK_SIZE (map _clamp16 mixed)).
Proof.
  unfold AudioEngine_.read_and_mix. now destruct (_streams self).
Qed.

(** X6. A handle that adds nothing in a cycle (it is inactive, or its
    [is_active] or [read] raises [OSError], or its gain is 0.0 and its frame
    is full) can be left out: as long as another handle is held, the cycle
    gives what it gives without that handle, error or buffer. *)
Theorem read_and_mix_without_silent_handle (h : Host) (pa : bool)
    (before after : list (Stream * float)) (s : Stream) (g : float) :
  adds_nothing h s g ->
  before ++ after <> [] ->
  AudioEngine_.read_and_mix h
    {| _pa := pa; _streams := before ++ (s, g) :: after |}
  = AudioEngine_.read_and_mix h {| _pa := pa; _streams := before ++ after |}.
Proof.
  intros Hn Hne.
  rewrite !read_and_mix_nonempty; cbn [_streams];
    [|exact Hne|now destruct before].
  f_equal.
  change ((s, g) :: after) with ([(s, g)] ++ after).
  rewrite !mix_each_app.
  destruct (AudioEngine_.mix_each h before (repeat 0 CHUNK_SIZE))
    as [m1|ex] eqn:H1; cbn [bind]; [|reflexivity].
  apply mix_each_length in H1; [|apply repeat_length].
  rewrite mix_each_app, (mix_each_adds_nothing h s g m1 Hn H1).
  reflexivity.
Qed.

Lemma read_and_mix_without_silent_handle_witness :
  let h := first_starved (constant_frame xff x7f CHUNK_SIZE) in
  adds_nothing h 0%nat 1%float /\
  [(1%nat, 0.5%float)] ++ [(2%nat, 1%float)] <> [] /\
  AudioEngine_.read_and_mix h
    {| _pa := true;
       _streams := [(1%nat, 0.5%float)] ++ (0%nat, 1%float) :: [(2%nat, 1%float)] |}
  = AudioEngine_.read_and_mix h
      {| _pa := true; _streams := [(1%nat, 0.5%float)] ++ [(2%nat, 1%float)] |}.
Proof.
  intros h.
  assert (H1 : adds_nothing h 0%nat 1%float) by (right; left; reflexivity).
  assert (H2 : [(1%nat, 0.5%float)] ++ [(2%nat, 1%float)] <> [])
    by discriminate.
  split; [exact H1|]. split; [exact H2|].
  exact (read_and_mix_without_silent_handle h true [(1%nat, 0.5%float)]
           [(2%nat, 1%float)] 0%nat 1%float H1 H2).
Defined.

(** One handle at gain 1.0 that delivers a full frame. *)
Lemma read_and_mix_unity (h : Host) (s : Stream) (raw : list byte)
    (pa : bool) :
  is_active h s = Some true ->
  read h s = Some raw ->
  List.length raw = (2 * CHUNK_SIZE)%nat ->
  AudioEngine_.read_and_mix h {| _pa := pa; _streams := [(s, 1%float)] |}
  = Ok raw.
Proof.
  intros Ha Hr Hl.
  unfold AudioEngine_.read_and_mix. simpl. rewrite Ha, Hr.
  unfold Struct.unpack.
  destruct (Nat.eqb_spec (List.length raw) (2 * CHUNK_SIZE)) as [_|Hn];
    [|contradiction].
  simpl.
  pose proof (unpack_items_length _ _ Hl) as Hu.
  rewrite <- Hu at 1.
  rewrite (add_gained_unity _ (unpack_items_range raw)). simpl.
  rewrite (map_clamp16_id _ (unpack_items_range raw)).
  unfold Struct.pack. rewrite Hu, Nat.eqb_refl.
  apply (pack_unpack_items CHUNK_SIZE). exact Hl.
Qed.

(** X7. The legacy calls pass audio through untouched: after a successful
    [open_stream], a [read_chunk] in a cycle where that stream is active and
    delivers a full frame returns the very bytes read. *)
Theorem legacy_stream_passthrough (h h' : Host) (requested : option Z)
    (w : PortAudio) (self : AudioEngine) (raw : list byte) :
  let r := AudioEngine_rest.open_stream h requested w self in
  open_raises h (created w) (get requested 0) = false ->
  is_active h' (created w) = Some true ->
  read h' (created w) = Some raw ->
  List.length raw = (2 * CHUNK_SIZE)%nat ->
  snd r = Ok (Some (created w)) /\
  AudioEngine_rest.read_chunk h' (snd (fst r)) = Ok raw.
Proof.
  intros r Ho Ha Hr Hl.
  destruct (open_stream_result h requested w self) as (_ & _ & H3).
  destruct (H3 Ho) as [Hret Hs]. fold r in Hret, Hs.
  split; [exact Hret|].
  unfold AudioEngine_rest.read_chunk.
  destruct (snd (fst r)) as [pa streams]. cbn in Hs. subst streams.
  now apply read_and_mix_unity.
Qed.

Lemma legacy_stream_passthrough_witness :
  let raw := constant_frame x39 x30 CHUNK_SIZE in
  let r := AudioEngine_rest.open_stream quiet_host None fresh_audio
             AudioEngine_.__init__ in
  open_raises quiet_host (created fresh_audio) (get None 0) = false /\
  is_active (playing raw) (created fresh_audio) = Some true /\
  read (playing raw) (created fresh_audio) = Some raw /\
  List.length raw = (2 * CHUNK_SIZE)%nat /\
  snd r = Ok (Some (created fresh_audio)) /\
  AudioEngine_rest.read_chunk (playing raw) (snd (fst r)) = Ok raw.
Proof.
  intros raw r.
  assert (Hl : List.length raw = (2 * CHUNK_SIZE)%nat)
    by (vm_compute; reflexivity).
  split; [reflexivity|]. split; [reflexivity|]. split; [reflexivity|].
  split; [exact Hl|].
  exact (legacy_stream_passthrough quiet_host (playing raw) None fresh_audio
           AudioEngine_.__init__ raw eq_refl eq_refl eq_refl Hl).
Defined.

(** ** Gains that come from the settings dialog *)

(** Storing position [v] as [v / 100.0] and showing it again as
    [int(gain * 100)], on all 201 positions. *)
Lemma slider_round_trip_all :
  forallb (fun v =>
             match AudioSourceRow.__init__ 0 (AudioSourceRow.slider_gain v) true with
             | Ok r => AudioSourceRow.slider r
                       =? (if existsb (Z.eqb v) drifting_positions
                           then v - 1 else v)
             | Raise _ => false
             end)
          (zrange 0 201) = true.
Proof. vm_compute. reflexivity. Qed.

(** X8. A gain does not always survive the settings dialog: a row saved
    at slider position [v] (0..200) and built again from the stored gain
    [v / 100.0] shows [int((v / 100.0) * 100)], which is [v] except at
    29, 57, 58, 113, 114, 115 and 116, where it is [v - 1]; the device
    index and the check box come back as they were. *)
Theorem slider_round_trip (d v : Z) (on : bool) :
  0 <= v <= 200 ->
  let saved := AudioSourceRow.to_dict
                 {| AudioSourceRow.row_device_index := d;
                    AudioSourceRow.slider := v;
                    AudioSourceRow.checkbox := on |} in
  AudioSourceRow.__init__ (device_index saved) (get (gain saved) 1%float)
                          (get (enabled saved) false)
  = Ok {| AudioSourceRow.row_device_index := d;
          AudioSourceRow.slider :=
            if existsb (Z.eqb v) drifting_positions then v - 1 else v;
          AudioSourceRow.checkbox := on |}.
Proof.
  intros Hv saved. subst saved. cbn [AudioSourceRow.to_dict device_index gain
    enabled get AudioSourceRow.row_device_index AudioSourceRow.slider
    AudioSourceRow.checkbox].
  pose proof slider_round_trip_all as H. rewrite forallb_forall in H.
  specialize (H v (In_zrange 201 0 v ltac:(lia))).
  unfold AudioSourceRow.__init__ in *.
  destruct (int_of_float (AudioSourceRow.slider_gain v * 100)) as [pct|];
    cbn [bind] in *; [|discriminate].
  destruct (AudioSourceRow.setValue pct) as [v'|]; cbn [bind] in *;
    [|discriminate].
  cbn [AudioSourceRow.slider] in H. apply Z.eqb_eq in H. now subst v'.
Qed.

Lemma slider_round_trip_witness :
  0 <= 58 <= 200 /\
  let saved := AudioSourceRow.to_dict
                 {| AudioSourceRow.row_device_index := 2;
                    AudioSourceRow.slider := 58;
                    AudioSourceRow.checkbox := true |} in
  AudioSourceRow.__init__ (device_index saved) (get (gain saved) 1%float)
                          (get (enabled saved) false)
  = Ok {| AudioSourceRow.row_device_index := 2;
          AudioSourceRow.slider :=
            if existsb (Z.eqb 58) drifting_positions then 58 - 1 else 58;
          AudioSourceRow.checkbox := true |}.
Proof.
  assert (H : 0 <= 58 <= 200) by lia.
  split; [exact H|].
  exact (slider_round_trip 2 58 true H).
Defined.

(** Repeated opening and saving of the dialog lowers 58 to 57, then 56. *)
Example slider_drifts_twice :
  (r1 <- AudioSourceRow.__init__ 0 (AudioSourceRow.slider_gain 58) true ;;
   r2 <- AudioSourceRow.__init__ 0
           (get (gain (AudioSourceRow.to_dict r1)) 1%float) true ;;
   Ok (AudioSourceRow.slider r1, AudioSourceRow.slider r2))
  = Ok (57, 56).
Proof. vm_compute. reflexivity. Qed.

(** The sign of a rounded result is the sign asked for. *)
Lemma binary_round_aux_sign (s : bool) (mx ex : Z) (lx : location) (m : positive)
    (e : Z) :
  binary_round_aux prec emax false mx ex lx = S754_finite false m e ->
  binary_round_aux prec emax s mx ex lx = S754_finite s m e.
Proof.
  unfold binary_round_aux.
  destruct (shr_fexp prec emax mx ex lx) as [mrs' e'].
  destruct (shr_fexp prec emax _ e' loc_Exact) as [mrs'' e''].
  destruct (shr_m mrs''); try discriminate.
  destruct (e'' <=? emax - prec); [|discriminate].
  intros H. inversion H. reflexivity.
Qed.

(** Every slider gain above 0 is a normal binary64 number of at most 2. *)
Lemma slider_gain_all :
  forallb (fun v =>
             match Prim2SF (AudioSourceRow.slider_gain v) with
             | S754_finite false m e =>
                 (2 ^ 52 <=? Z.pos m) && (Z.pos m <? 2 ^ 53)
                 && (-59 <=? e) && (e <=? -51)
                 && (Z.pos m * 2 ^ (e + 59) <=? 2 ^ 60)
             | _ => false
             end)
          (zrange 1 200) = true.
Proof. vm_compute. reflexivity. Qed.

Lemma slider_gain_normal (v : Z) :
  1 <= v <= 200 ->
  exists m e,
    Prim2SF (AudioSourceRow.slider_gain v) = S754_finite false m e /\
    2 ^ 52 <= Z.pos m < 2 ^ 53 /\ -59 <= e <= -51 /\
    (F2R (Z.pos m) e <= 2)%R.
Proof.
  intros Hv.
  pose proof slider_gain_all as H. rewrite forallb_forall in H.
  specialize (H v (In_zrange 200 1 v ltac:(lia))).
  destruct (Prim2SF (AudioSourceRow.slider_gain v)) as [| | |[|] m e];
    try discriminate.
  apply andb_prop in H as [H H5]. apply andb_prop in H as [H H4].
  apply andb_prop in H as [H H3]. apply andb_prop in H as [H1 H2].
  apply Z.leb_le in H1, H3, H4, H5. apply Z.ltb_lt in H2.
  exists m, e. repeat split; try lia.
  unfold F2R.
  replace e with ((e + 59) + (-59)) at 1 by lia.
  rewrite bpow_add, (bpow_Z (e + 59)) by lia.
  rewrite <- Rmult_assoc, <- mult_IZR.
  apply IZR_le in H5.
  pose proof (bpow_pos (-59)) as Hp.
  assert (H60 : (IZR (2 ^ 60) * bpow (-59) = 2)%R).
  { rewrite <- (bpow_Z 60) by lia. rewrite <- bpow_add. 
    change (60 + -59) with 1. unfold bpow. simpl. lra. }
  rewrite <- H60. apply Rmult_le_compat_r; lra.
Qed.

(** The product of a positive sample and a slider gain. *)
Lemma slider_product_pos (v s : Z) :
  1 <= v <= 200 -> 0 < s <= 32768 ->
  exists m e,
    SF64mul (Prim2SF (float_of_int s)) (Prim2SF (AudioSourceRow.slider_gain v))
    = S754_finite false m e /\
    0 <= trunc_finite false m e <= 2 * s /\
    forall sign m1 e1,
      Prim2SF (float_of_int s) = S754_finite false m1 e1 ->
      SF64mul (S754_finite sign m1 e1) (Prim2SF (AudioSourceRow.slider_gain v))
      = S754_finite sign m e.
Proof.
  intros Hv Hs.
  destruct (Prim2SF_float_of_int s ltac:(lia)) as (m1 & e1 & E1 & Hm1 & Hv1 & He1).
  destruct (slider_gain_normal v Hv) as (m2 & e2 & E2 & Hm2 & He2 & Hle).
  destruct (SFmul_rounded m1 m2 e1 e2 Hm1 Hm2 ltac:(lia))
    as (m & e & Hmul & Hr).
  exists m, e. rewrite E1, E2. split; [exact Hmul|]. split.
  - destruct (Prim2SF_float_of_int (2 * s) ltac:(lia))
      as (mu & eu & _ & Hmu & Hvu & _).
    assert (Hb : (F2R (Z.pos m) e <= F2R (Z.pos mu) eu)%R).
    { apply (rounded_le_exact _ _ _ _ _ Hr Hmu).
      rewrite Hv1, Hvu, mult_IZR.
      assert (0 < IZR s)%R by (apply IZR_lt; lia).
      assert (0 < F2R (Z.pos m2) e2)%R.
      { unfold F2R. apply Rmult_lt_0_compat; [apply IZR_lt; lia|apply bpow_pos]. }
      nra. }
    rewrite Hvu in Hb.
    destruct (trunc_finite_floor m e) as [[Hl _] H0].
    split; [exact H0|]. apply le_IZR. lra.
  - intros sign m1' e1' E. inversion E; subst m1' e1'.
    unfold SF64mul in *. cbn [SFmul xorb] in *.
    destruct sign; [|exact Hmul].
    now apply binary_round_aux_sign.
Qed.

Lemma trunc_finite_neg (m : positive) (e : Z) :
  trunc_finite true m e = - trunc_finite false m e.
Proof. reflexivity. Qed.

(** [int(s * gain)] for an int16 sample and a slider gain. *)
Lemma slider_gained (v s : Z) :
  0 <= v <= 200 -> -32768 <= s <= 32767 ->
  exists c,
    int_of_float (int_mul_float s (AudioSourceRow.slider_gain v)) = Ok c /\
    Z.abs c <= 2 * Z.abs s.
Proof.
  intros Hv Hs. unfold int_of_float, int_mul_float.
  rewrite FloatAxioms.mul_spec.
  destruct (Z.eq_dec v 0) as [->|Hv0].
  { exists 0. split; [|lia].
    change (Prim2SF (AudioSourceRow.slider_gain 0)) with (S754_zero false).
    destruct s as [|p|p].
    - reflexivity.
    - destruct (Prim2SF_float_of_int (Z.pos p) ltac:(lia))
        as (m1 & e1 & -> & _). reflexivity.
    - cbn [float_of_int]. rewrite FloatAxioms.opp_spec.
      change (- Z.neg p) with (Z.pos p).
      destruct (Prim2SF_float_of_int (Z.pos p) ltac:(lia))
        as (m1 & e1 & E & _). cbn [float_of_int] in E. rewrite E.
      reflexivity. }
  destruct s as [|p|p].
  - exists 0. split; [|lia].
    destruct (slider_gain_normal v ltac:(lia)) as (m2 & e2 & -> & _).
    reflexivity.
  - destruct (slider_product_pos v (Z.pos p) ltac:(lia) ltac:(lia))
      as (m & e & -> & Hb & _).
    exists (trunc_finite false m e). split; [reflexivity|]. lia.
  - destruct (slider_product_pos v (Z.pos p) ltac:(lia) ltac:(lia))
      as (m & e & _ & Hb & Hsign).
    destruct (Prim2SF_float_of_int (Z.pos p) ltac:(lia))
      as (m1 & e1 & E & _).
    cbn [float_of_int]. rewrite FloatAxioms.opp_spec.
    change (- Z.neg p) with (Z.pos p).
    cbn [float_of_int] in E, Hsign. rewrite E. cbn [SFopp negb].
    rewrite (Hsign true m1 e1 E).
    exists (trunc_finite true m e). split; [reflexivity|].
    rewrite trunc_finite_neg. lia.
Qed.

Lemma heard_In (h : Host) (streams : list (Stream * float))
    (samples : list Z) (g : float) :
  In (samples, g) (heard h streams) ->
  exists s raw, In (s, g) streams /\ samples = Struct.unpack_items raw.
Proof.
  induction streams as [|[s g'] streams IH]; cbn [heard]; [intros []|].
  assert (Hrest : In (samples, g) (heard h streams) ->
                  exists s0 raw, In (s0, g) ((s, g') :: streams) /\
                                 samples = Struct.unpack_items raw).
  { intros H. destruct (IH H) as (s0 & raw & Hin & E).
    exists s0, raw. split; [now right|exact E]. }
  destruct (is_active h s) as [[|]|]; auto.
  destruct (read h s) as [raw|]; auto.
  intros [E|H]; auto.
  inversion E; subst. exists s, raw. split; [now left|reflexivity].
Qed.

(** X9. With gains that come from the settings dialog ([v / 100.0] for a
    slider position 0..200; 100 gives the default 1.0) mixing cannot fail
    on a number: for every int16 sample [int(s * gain)] is an integer of
    magnitude at most [2 * |s|], so a cycle in which the frames delivered
    are full returns its 8000 bytes. *)
Theorem dialog_gains_are_safe (h : Host) (self : AudioEngine) :
  _streams self <> [] ->
  Forall (fun sg => exists v,
              0 <= v <= 200 /\ snd sg = AudioSourceRow.slider_gain v)
         (_streams self) ->
  full_frames h (_streams self) = true ->
  (exists buf,
      AudioEngine_.read_and_mix h self = Ok buf /\
      List.length buf = (2 * CHUNK_SIZE)%nat) /\
  (forall v s,
      0 <= v <= 200 -> -32768 <= s <= 32767 ->
      exists c,
        int_of_float (int_mul_float s (AudioSourceRow.slider_gain v)) = Ok c /\
        Z.abs c <= 2 * Z.abs s) /\
  AudioSourceRow.slider_gain 100 = 1%float.
Proof.
  intros Hne Hg Hf. split; [|split; [intros; now apply slider_gained|reflexivity]].
  assert (Hfin : finite_products h (_streams self) = true).
  { unfold finite_products. apply forallb_forall. intros [samples g] Hin.
    apply heard_In in Hin as (s & raw & Hin & ->).
    rewrite Forall_forall in Hg. destruct (Hg _ Hin) as (v & Hv & E).
    cbn [fst snd] in *. subst g.
    apply forallb_forall. intros x Hx.
    pose proof (unpack_items_range raw) as Hr. rewrite Forall_forall in Hr.
    destruct (slider_gained v x Hv (Hr x Hx)) as (c & -> & _). reflexivity. }
  destruct (read_and_mix_returns h self Hne Hf Hfin) as (buf & Hrun & _).
  exists buf. split; [exact Hrun|].
  now destruct (read_and_mix_ok h self buf Hne Hrun).
Qed.

Lemma dialog_gains_are_safe_witness :
  let h := first_starved (constant_frame xff x7f CHUNK_SIZE) in
  let self := {| _pa := true;
                 _streams := [(0%nat, 1%float); (1%nat, 0.5%float)] |} in
  _streams self <> [] /\
  Forall (fun sg => exists v,
              0 <= v <= 200 /\ snd sg = AudioSourceRow.slider_gain v)
         (_streams self) /\
  full_frames h (_streams self) = true /\
  (exists buf,
      AudioEngine_.read_and_mix h self = Ok buf /\
      List.length buf = (2 * CHUNK_SIZE)%nat) /\
  (forall v s,
      0 <= v <= 200 -> -32768 <= s <= 32767 ->
      exists c,
        int_of_float (int_mul_float s (AudioSourceRow.slider_gain v)) = Ok c /\
        Z.abs c <= 2 * Z.abs s) /\
  AudioSourceRow.slider_gain 100 = 1%float.
Proof.
  intros h self.
  assert (H1 : _streams self <> []) by discriminate.
  assert (H2 : Forall (fun sg => exists v,
                          0 <= v <= 200 /\
                          snd sg = AudioSourceRow.slider_gain v)
                      (_streams self)).
  { constructor; [exists 100; split; [lia|reflexivity]|].
    constructor; [exists 50; split; [lia|reflexivity]|]. constructor. }
  assert (H3 : full_frames h (_streams self) = true)
    by (vm_compute; reflexivity).
  split; [exact H1|]. split; [exact H2|]. split; [exact H3|].
  exact (dialog_gains_are_safe h self H1 H2 H3).
Defined.

(** ** What [strip] leaves *)

Lemma all_space_app (a b : string) :
  all_space (a ++ b) = all_space a && all_space b.
Proof.
  induction a as [|c a IH]; cbn; [reflexivity|].
  now rewrite IH, andb_assoc.
Qed.

Lemma lstrip_decomp (s : string) :
  exists l, s = (l ++ lstrip s)%string /\ all_space l = true.
Proof.
  induction s as [|c s (l & E & Hl)]; cbn.
  - exists "". auto.
  - destruct (isspace c) eqn:Hc.
    + exists (String c l). cbn. rewrite Hc, Hl. split; [congruence|reflexivity].
    + exists "". auto.
Qed.

Lemma lstrip_first (s : string) (c : ascii) :
  first_char (lstrip s) = Some c -> isspace c = false.
Proof.
  induction s as [|a s IH]; cbn; [discriminate|].
  destruct (isspace a) eqn:Ha; [exact IH|].
  cbn. intros H. inversion H. now subst.
Qed.

Lemma rstrip_decomp (s : string) :
  exists r, s = (rstrip s ++ r)%string /\ all_space r = true.
Proof.
  induction s as [|c s (r & E & Hr)]; cbn.
  - exists "". auto.
  - destruct (rstrip s) as [|c' s'] eqn:Hs.
    + destruct (isspace c) eqn:Hc.
      * exists (String c r). cbn in *. rewrite Hc, Hr. split; [congruence|reflexivity].
      * exists r. cbn in *. split; [congruence|exact Hr].
    + exists r. cbn in *. split; [congruence|exact Hr].
Qed.

Lemma rstrip_last (s : string) (c : ascii) :
  last_char (rstrip s) = Some c -> isspace c = false.
Proof.
  induction s as [|a s IH]; cbn; [discriminate|].
  destruct (rstrip s) as [|c' s'] eqn:Hs.
  - destruct (isspace a) eqn:Ha; cbn; [discriminate|].
    intros H. inversion H. now subst.
  - cbn [last_char]. exact IH.
Qed.

Lemma rstrip_first (s : string) (c : ascii) :
  first_char (rstrip s) = Some c -> first_char s = Some c.
Proof.
  destruct s as [|a s]; cbn; [discriminate|].
  destruct (rstrip s); [destruct (isspace a)|]; cbn; congruence.
Qed.

(** [strip] removes white space from both ends and nothing else. *)
Lemma strip_spec (s : string) :
  (exists l r, s = (l ++ strip s ++ r)%string /\
               all_space l = true /\ all_space r = true) /\
  trimmed (strip s) = true /\
  (strip s = "" <-> all_space s = true).
Proof.
  destruct (lstrip_decomp s) as (l & El & Hl).
  destruct (rstrip_decomp (lstrip s)) as (r & Er & Hr).
  fold (strip s) in Er.
  assert (E : s = (l ++ strip s ++ r)%string) by congruence.
  split; [eauto|]. split.
  - unfold trimmed.
    destruct (first_char (strip s)) as [a|] eqn:Ha; [|reflexivity].
    destruct (last_char (strip s)) as [b|] eqn:Hb; [|reflexivity].
    unfold strip in Ha, Hb.
    apply rstrip_first, lstrip_first in Ha. apply rstrip_last in Hb.
    now rewrite Ha, Hb.
  - split; [|apply strip_all_space].
    intros H0. rewrite E, H0, !all_space_app, Hl, Hr. reflexivity.
Qed.

Lemma nonempty_or_None_strip (s : string) :
  (nonempty_or_None (strip s) = None <-> all_space s = true) /\
  forall t, nonempty_or_None (strip s) = Some t ->
            t = strip s /\ t <> "" /\ trimmed t = true /\
            exists l r, s = (l ++ t ++ r)%string /\
                        all_space l = true /\ all_space r = true.
Proof.
  destruct (strip_spec s) as (Hd & Ht & Hz). split.
  - rewrite <- Hz. destruct (strip s); cbn; split; congruence.
  - intros t H. apply nonempty_or_None_Some in H as [-> Hne]. auto.
Qed.

(** X10. [final_result] asks the engine for its final result once and
    returns [None] exactly when the reported text is missing, empty or only
    white space; otherwise it returns that text with the white space at
    both ends removed and nothing else changed: the text returned is not
    empty and neither starts nor ends with white space. *)
Theorem final_result_stripped {RS : Type} (recognizer : KaldiRecognizer RS)
    (st : RS) :
  let text := get (j_text (snd (FinalResult recognizer st))) "" in
  let r := TranscriptionEngine.final_result recognizer st in
  fst r = fst (FinalResult recognizer st) /\
  (snd r = None <-> all_space text = true) /\
  (forall t,
      snd r = Some t ->
      t <> "" /\ trimmed t = true /\
      exists before after,
        text = (before ++ t ++ after)%string /\
        all_space before = true /\ all_space after = true).
Proof.
  intros text r. subst text r. unfold TranscriptionEngine.final_result.
  destruct (FinalResult recognizer st) as [st' result]. cbn [fst snd].
  destruct (nonempty_or_None_strip (get (j_text result) "")) as [Hn Hs].
  split; [reflexivity|]. split; [exact Hn|].
  intros t Ht. destruct (Hs t Ht) as (_ & H1 & H2 & H3). auto.
Qed.

(** ** The batch pipeline: failures before the first chunk *)

Module BatchMoreFacts.
Import FileTranscriptionWorker Batch BatchMore.

Lemma length_substring_le (n m : nat) (s : string) :
  (String.length (substring n m s) <= m)%nat.
Proof.
  revert n m. induction s as [|c s IH]; intros [|n] [|m]; cbn; try lia.
  - specialize (IH 0%nat m). lia.
  - apply (IH n 0%nat).
  - apply (IH n (S m)).
Qed.

(** X11. What ends a run before the first chunk, in the order the checks
    are made.  Without FFmpeg the run emits the one error and no temporary
    file is ever created.  With FFmpeg the temporary file is created, and
    whatever happens next it is forgotten at the end and removed unless
    [os.remove] fails; a conversion that exits non-zero gives one error
    carrying at most the first 500 characters of its stderr; a cancellation
    seen right after the conversion gives no signal at all; a missing model
    directory, a model that fails to load and an empty audio file each give
    exactly one error signal and nothing else. *)
Theorem run_early_failures {RS : Type} (recognizer : KaldiRecognizer RS)
    (e : env) (fresh : RS) :
  let r := run recognizer e fresh __init__ in
  (ffmpeg e = None ->
   r = (__init__, [error_occurred ffmpeg_missing_msg])) /\
  (ffmpeg e <> None ->
   fst r = {| _temp_wav := None; temp_file_exists := remove_raises e |} /\
   (returncode e <> 0 ->
    snd r = [error_occurred
               ("FFmpeg conversion failed:" ++ nl
                ++ substring 0 500 (stderr e))%string] /\
    (String.length (substring 0 500 (stderr e)) <= 500)%nat) /\
   (returncode e = 0 ->
    (_is_cancelled e 0 = true -> snd r = []) /\
    (_is_cancelled e 0 = false ->
     (model_isdir e = false ->
      snd r = [error_occurred (model_missing_msg (model_dir e))]) /\
     (model_isdir e = true ->
      (model_raises e = true ->
       snd r = [error_occurred "Failed to create a model"]) /\
      (model_raises e = false -> converted e = [] ->
       snd r = [error_occurred "Audio file is empty (0 frames)."]))))).
Proof.
  intros r. split.
  { intros Hf. subst r. unfold run, _do_transcription, _ensure_wav.
    rewrite Hf. reflexivity. }
  intros Hf. split.
  { subst r.
    destruct (BatchFacts.run_cleans_up recognizer e fresh) as [H1 H2].
    pose proof (BatchFacts.do_transcription_worker recognizer e fresh) as Hw.
    unfold run in *.
    destruct (_do_transcription recognizer e fresh __init__)
      as [[self out] [u|ex]]; cbn [fst snd] in *; subst self;
      unfold _ensure_wav, _cleanup; destruct (ffmpeg e); try congruence;
      destruct (returncode e =? 0); cbn; destruct (remove_raises e);
      reflexivity. }
  subst r. unfold run, _do_transcription, _ensure_wav.
  destruct (ffmpeg e) as [path|]; [clear Hf|congruence].
  split.
  { intros Hrc. apply Z.eqb_neq in Hrc. rewrite Hrc. cbn [fst snd].
    split; [reflexivity|apply length_substring_le]. }
  intros Hrc. rewrite Hrc. cbn [Z.eqb]. split.
  { intros ->. reflexivity. }
  intros ->. split.
  { intros ->. reflexivity. }
  intros ->. cbn [negb]. split.
  { intros ->. reflexivity. }
  intros -> ->. reflexivity.
Qed.

(** ** The batch pipeline: what the recognizer is fed *)

Lemma is_cancelled_None (e : env) (poll : nat) :
  cancel_from e = None -> _is_cancelled e poll = false.
Proof. unfold _is_cancelled. now intros ->. Qed.

Lemma chunk_loop_feeds {RS : Type} (recognizer : KaldiRecognizer RS)
    (e : env) (total : Z) (reads : list (list frame)) :
  cancel_from e = None -> 0 < total < 2 ^ 53 ->
  forall poll frames_processed last_pct st out,
    0 <= frames_processed ->
    frames_processed + 4000 * Z.of_nat (List.length reads) < 2 ^ 53 ->
    snd (chunk_loop recognizer e total reads poll
                    frames_processed last_pct st out)
    = (st' <- feed_all recognizer st (map bytes_of_frames reads) ;;
       Ok (st', true)).
Proof.
  intros Hc Ht.
  induction reads as [|data rest IH]; intros poll fp last st out Hfp Hb.
  - cbn. now rewrite is_cancelled_None.
  - rewrite BatchFacts.chunk_loop_cons, is_cancelled_None by exact Hc.
    cbn [map feed_all].
    destruct (AcceptWaveform recognizer st (bytes_of_frames data))
      as [[st1 accepted]|ex]; cbn [bind snd]; [|reflexivity].
    cbn zeta. change (Z.of_nat _CHUNK_FRAMES) with 4000.
    cbn [List.length] in Hb.
    destruct (percent_total (fp + 4000) total ltac:(lia) Ht) as (p & -> & _).
    apply IH; lia.
Qed.

Lemma bytes_of_frames_concat (reads : list (list frame)) :
  List.concat (map bytes_of_frames reads)
  = bytes_of_frames (List.concat reads).
Proof.
  unfold bytes_of_frames.
  induction reads as [|data rest IH]; cbn; [reflexivity|].
  now rewrite IH, flat_map_app.
Qed.

Lemma bytes_of_frames_length (data : list frame) :
  List.length (bytes_of_frames data) = (2 * List.length data)%nat.
Proof.
  unfold bytes_of_frames. induction data as [|f data IH]; cbn; [reflexivity|].
  rewrite IH. lia.
Qed.

Lemma feed_all_tape (chunks st : list (list byte)) :
  feed_all tape st chunks = Ok (st ++ chunks).
Proof.
  revert st. induction chunks as [|data rest IH]; intros st; cbn.
  - now rewrite app_nil_r.
  - rewrite IH, <- app_assoc. reflexivity.
Qed.

(** X12. A run that is not cancelled feeds the recognizer every frame of
    the converted audio exactly once and in order: the loop hands it the
    successive chunks of at most 4000 frames (8000 bytes), none of them
    empty, whose concatenation is the whole audio, and leaves by its
    [break] unless the recognizer raises. *)
Theorem every_frame_fed_once {RS : Type} (recognizer : KaldiRecognizer RS)
    (e : env) (fresh : RS) :
  let total := Z.of_nat (List.length (converted e)) in
  let reads := readframes_all _CHUNK_FRAMES (converted e) in
  let chunks := map bytes_of_frames reads in
  total < 2 ^ 32 -> cancel_from e = None ->
  snd (chunk_loop recognizer e total reads 1 0 (-1) fresh [])
  = (st <- feed_all recognizer fresh chunks ;; Ok (st, true)) /\
  List.concat chunks = bytes_of_frames (converted e) /\
  Forall (fun data => data <> [] /\ (List.length data <= 8000)%nat) chunks /\
  feed_all tape [] chunks = Ok chunks.
Proof.
  intros total reads chunks Ht Hc.
  destruct (BatchFacts.readframes_upto_concat _CHUNK_FRAMES
              (List.length (converted e)) (converted e))
    as [Hcat Hall]; [unfold _CHUNK_FRAMES; lia|lia|].
  fold (readframes_all _CHUNK_FRAMES (converted e)) in Hcat, Hall.
  fold reads in Hcat, Hall.
  split; [|split; [|split]].
  - destruct (Z.eq_dec total 0) as [H0|H0].
    + assert (Hnil : converted e = []).
      { subst total. destruct (converted e); [reflexivity|discriminate]. }
      subst chunks reads. rewrite Hnil. cbn.
      now rewrite is_cancelled_None.
    + apply chunk_loop_feeds; [exact Hc|lia|lia|].
      pose proof (BatchFacts.readframes_upto_length
                    (List.length (converted e)) _CHUNK_FRAMES (converted e))
        as Hn.
      subst reads total. unfold readframes_all. lia.
  - subst chunks. now rewrite bytes_of_frames_concat, Hcat.
  - subst chunks. apply Forall_map.
    eapply Forall_impl; [|exact Hall]. cbn. intros data [Hne Hlen].
    rewrite bytes_of_frames_length. split; [|unfold _CHUNK_FRAMES in *; lia].
    destruct data; [congruence|discriminate].
  - apply (feed_all_tape chunks []).
Qed.

Lemma every_frame_fed_once_witness :
  let e := pcm_run 10000 None in
  let total := Z.of_nat (List.length (converted e)) in
  let reads := readframes_all _CHUNK_FRAMES (converted e) in
  let chunks := map bytes_of_frames reads in
  total < 2 ^ 32 /\ cancel_from e = None /\
  snd (chunk_loop deaf e total reads 1 0 (-1) tt [])
  = (st <- feed_all deaf tt chunks ;; Ok (st, true)) /\
  List.concat chunks = bytes_of_frames (converted e) /\
  Forall (fun data => data <> [] /\ (List.length data <= 8000)%nat) chunks /\
  feed_all tape [] chunks = Ok chunks.
Proof.
  intros e total reads chunks.
  assert (H1 : total < 2 ^ 32) by (vm_compute; reflexivity).
  assert (H2 : cancel_from e = None) by reflexivity.
  split; [exact H1|]. split; [exact H2|].
  exact (every_frame_fed_once deaf e tt H1 H2).
Defined.

Example chunks_of_10000_frames :
  map (@List.length byte)
      (map bytes_of_frames
           (readframes_all _CHUNK_FRAMES (converted (pcm_run 10000 None))))
  = [8000; 8000; 4000]%nat.
Proof. vm_compute. reflexivity. Qed.

(** ** The batch pipeline: how a completed run shows its progress *)

Lemma F2R_one : F2R (2 ^ 52) (-52) = 1%R.
Proof.
  rewrite F2R_pow2 by lia. change (52 + -52) with 0. reflexivity.
Qed.

Lemma percent_whole (total : Z) :
  0 < total < 2 ^ 53 -> percent total total = Ok 100.
Proof.
  intros Ht.
  destruct (hundredfold_SF_rounded total total Ht Ht)
    as (mq & eq & m & e & _ & Hq & Hh & Hr).
  assert (Hone : (IZR total / IZR total = F2R (2 ^ 52) (-52))%R).
  { rewrite F2R_one. field. apply not_0_IZR. lia. }
  rewrite Hone in Hq.
  apply rounded_exact in Hq; [|lia].
  rewrite Hq, F2R_one, Rmult_1_l, <- F2R_100 in Hr.
  apply rounded_exact in Hr; [|lia].
  rewrite F2R_100 in Hr.
  rewrite (percent_of_hundredfold _ _ _ _ Hh).
  destruct (trunc_finite_floor m e) as [[Hl Hu] _].
  rewrite Hr in Hl, Hu.
  assert (trunc_finite false m e = 100); [|now replace (trunc_finite false m e) with 100].
  apply le_IZR in Hl.
  assert (100 < trunc_finite false m e + 1).
  { apply lt_IZR. rewrite plus_IZR. exact Hu. }
  lia.
Qed.

(** Once every frame is counted the loop shows 100. *)
Lemma percent_full (x total : Z) :
  0 < total < 2 ^ 53 -> total <= x < 2 ^ 53 -> percent x total = Ok 100.
Proof.
  intros Ht Hx.
  destruct (percent_total x total ltac:(lia) Ht) as (p & Hp & Hr).
  pose proof (percent_mono total x total 100 p ltac:(lia) ltac:(lia) Ht
                (percent_whole total Ht) Hp).
  rewrite Hp. f_equal. lia.
Qed.

Lemma last_cons_indep {A : Type} (b : A) (l : list A) (d d' : A) :
  last (b :: l) d = last (b :: l) d'.
Proof.
  revert b. induction l as [|c l IH]; intros b; [reflexivity|].
  change (last (c :: l) d = last (c :: l) d'). apply IH.
Qed.

Lemma last_app_default {A : Type} (l l' : list A) (d : A) :
  last (l ++ l') d = last l' (last l d).
Proof.
  destruct l' as [|b l']; [now rewrite app_nil_r|].
  rewrite (last_cons_indep b l' (last l d) d).
  induction l as [|a l IH]; [reflexivity|].
  cbn [app]. destruct (l ++ b :: l') eqn:E; [now destruct l|].
  change (last (a :: a0 :: l0) d) with (last (a0 :: l0) d).
  exact IH.
Qed.

Lemma app_self_nil {A : Type} (l added : list A) :
  l = l ++ added -> [] = added.
Proof.
  intros H. apply (app_inv_head l). now rewrite app_nil_r.
Qed.

(** When the loop leaves by its [break], the last value it emitted (or the
    value it started from) is the percentage after the last chunk. *)
Lemma chunk_loop_last {RS : Type} (recognizer : KaldiRecognizer RS)
    (e : env) (total : Z) (reads : list (list frame)) :
  forall poll frames_processed last_pct st out st',
    snd (chunk_loop recognizer e total reads poll
                    frames_processed last_pct st out) = Ok (st', true) ->
    exists added,
      fst (chunk_loop recognizer e total reads poll
                      frames_processed last_pct st out) = out ++ added /\
      (reads = [] \/
       percent (frames_processed + 4000 * Z.of_nat (List.length reads)) total
       = Ok (last (progress_values added) last_pct)).
Proof.
  induction reads as [|data rest IH]; intros poll fp last_pct st out st' H.
  - exists []. rewrite app_nil_r. split; [|now left].
    cbn in *. destruct (_is_cancelled e poll); reflexivity.
  - rewrite BatchFacts.chunk_loop_cons in *.
    destruct (_is_cancelled e poll); [discriminate|].
    destruct (AcceptWaveform recognizer st (bytes_of_frames data))
      as [[st1 accepted]|ex]; [|discriminate].
    cbn zeta in *. change (Z.of_nat _CHUNK_FRAMES) with 4000 in *.
    destruct (BatchFacts.chunk_text_not_terminal recognizer accepted st1)
      as [_ Hpv].
    destruct (percent (fp + 4000) total) as [pct|ex] eqn:Hpct;
      [|discriminate].
    destruct (IH _ _ _ _ _ _ H) as (added & Ha & Hlast).
    exists (snd (chunk_text recognizer accepted st1)
            ++ chunk_progress pct last_pct ++ added).
    rewrite Ha, <- !app_assoc. split; [reflexivity|]. right.
    rewrite !BatchFacts.progress_values_app, Hpv. cbn [app].
    rewrite last_app_default.
    assert (Hcp : last (progress_values (chunk_progress pct last_pct)) last_pct
                  = pct).
    { unfold chunk_progress. destruct (Z.eqb_spec pct last_pct); cbn; auto. }
    rewrite Hcp.
    destruct Hlast as [-> | Hlast].
    + cbn in Ha. 
      assert (added = []) as ->.
      { destruct (_is_cancelled e (S poll)); cbn in Ha;
          symmetry; eapply app_self_nil; exact Ha. }
      cbn [progress_values last].
      replace (fp + 4000 * Z.of_nat (List.length [data])) with (fp + 4000)
        by (cbn [List.length]; lia).
      exact Hpct.
    + rewrite <- Hlast. f_equal. cbn [List.length]. lia.
Qed.

Lemma sorted_before_last (pre : list Z) (x : Z) :
  StronglySorted Z.lt (pre ++ [x]) -> Forall (fun p => p < x) pre.
Proof.
  induction pre as [|a pre IH]; cbn; intros H; [constructor|].
  inversion H as [|? ? Hs Hall]; subst. constructor; [|now apply IH].
  rewrite Forall_forall in Hall. apply Hall, in_or_app. right. now left.
Qed.

Lemma sorted_app_l (a b : list Z) :
  StronglySorted Z.lt (a ++ b) -> StronglySorted Z.lt a.
Proof.
  induction a as [|x a IH]; cbn; intros H; [constructor|].
  inversion H as [|? ? Hs Hall]; subst. constructor; [now apply IH|].
  apply Forall_app in Hall. tauto.
Qed.

(** X13. Every run that completes shows 100 twice: if the run emits
    [finished_signal], its progress values are a strictly increasing
    sequence of values in 0..99 followed by 100 from the loop (reached
    with the last chunk, since the loop counts 4000 frames for every chunk
    read) and 100 again from the statement after the loop. *)
Theorem completed_run_shows_100_twice {RS : Type}
    (recognizer : KaldiRecognizer RS) (e : env) (fresh : RS) :
  let out := snd (run recognizer e fresh __init__) in
  Z.of_nat (List.length (converted e)) < 2 ^ 32 ->
  existsb is_finished out = true ->
  exists before,
    progress_values out = before ++ [100; 100] /\
    StronglySorted Z.lt before /\
    Forall (fun p => 0 <= p < 100) before.
Proof.
  intros out Hlen Hfin.
  set (total := Z.of_nat (List.length (converted e))) in *.
  set (reads := readframes_all _CHUNK_FRAMES (converted e)).
  destruct (BatchFacts.chunk_loop_appends recognizer total e reads
              1 0 (-1) fresh []) as (added & Hadd & Hterm).
  cbn [app] in Hadd.
  destruct (BatchFacts.not_terminal_not_finished added Hterm) as [Hnf _].
  destruct (BatchFacts.run_signals recognizer e fresh)
    as [(msg & Hout) | [(Hout & _) | [(msg & ex & _ & Hout)
       | [(st & _ & Hout) | (st & texts & Hbreak & Htx & Hpv & Hout)]]]];
    fold total in Hout; fold reads in Hout; fold out in Hout;
    try (rewrite Hout in Hfin; cbn in Hfin; discriminate);
    try (rewrite Hout, Hadd in Hfin;
         rewrite ?BatchFacts.existsb_is_finished_app, Hnf in Hfin;
         cbn in Hfin; discriminate).
  fold total in Hbreak. fold reads in Hbreak.
  assert (Hpos : 0 < total).
  { destruct (Z.eq_dec total 0) as [H0|H0]; [|subst total; lia].
    exfalso. subst out. unfold run, _do_transcription in Hfin.
    fold total in Hfin. rewrite H0 in Hfin. cbn [Z.eqb] in Hfin.
    destruct (_ensure_wav e __init__) as [self [path|ex]];
      [|cbn in Hfin; discriminate].
    destruct (_is_cancelled e 0); [cbn in Hfin; discriminate|].
    destruct (model_isdir e); cbn [negb] in Hfin;
      [|cbn in Hfin; discriminate].
    destruct (model_raises e); cbn in Hfin; discriminate. }
  assert (Ht : 0 < total < 2 ^ 32) by lia.
  pose proof (BatchFacts.readframes_upto_length
                (List.length (converted e)) _CHUNK_FRAMES (converted e)) as Hn.
  fold (readframes_all _CHUNK_FRAMES (converted e)) in Hn. fold reads in Hn.
  destruct (BatchFacts.chunk_loop_progress recognizer total e (4000 * total)
              (BatchFacts.percent_mono_upto total Ht)
              (BatchFacts.percent_nonneg_upto total Ht)
              reads 1 0 (-1) fresh [])
    as (added' & Hadd' & _ & Hsorted & Hrange).
  { lia. }
  { change (Z.of_nat _CHUNK_FRAMES) with 4000. subst total. lia. }
  { left. auto. }
  cbn [app] in Hadd'. rewrite Hadd in Hadd'. subst added'.
  destruct (chunk_loop_last recognizer e total reads _ _ _ _ _ _ Hbreak)
    as (added' & Hadd' & Hlast).
  cbn [app] in Hadd'. rewrite Hadd in Hadd'. subst added'.
  assert (Hmore : ~ (_CHUNK_FRAMES * List.length reads
                     < List.length (converted e))%nat).
  { intros H. apply BatchFacts.readframes_all_more in H.
    fold reads in H. lia. }
  assert (H100 : last (progress_values added) (-1) = 100).
  { destruct Hlast as [Hnil | Hlast].
    - exfalso. rewrite Hnil in Hmore. cbn in Hmore. subst total. lia.
    - rewrite percent_full in Hlast.
      + now inversion Hlast.
      + lia.
      + unfold _CHUNK_FRAMES in Hmore. subst total. lia. }
  destruct (progress_values added) as [|p0 pv] eqn:Epv;
    [cbn in H100; discriminate|].
  destruct (@exists_last _ (p0 :: pv) ltac:(discriminate)) as (pre & x & Ex).
  rewrite Ex in *. rewrite last_last in H100. subst x.
  exists pre. split; [|split].
  - rewrite Hout, Hadd, !BatchFacts.progress_values_app, Hpv, Epv.
    now rewrite app_nil_r, <- app_assoc.
  - now apply sorted_app_l in Hsorted.
  - apply sorted_before_last in Hsorted.
    apply Forall_app in Hrange as [Hrange _].
    rewrite Forall_forall in *. intros p Hp.
    specialize (Hsorted p Hp). specialize (Hrange p Hp). lia.
Qed.

Lemma completed_run_shows_100_twice_witness :
  let e := pcm_run 20000 None in
  let out := snd (run deaf e tt __init__) in
  Z.of_nat (List.length (converted e)) < 2 ^ 32 /\
  existsb is_finished out = true /\
  exists before,
    progress_values out = before ++ [100; 100] /\
    StronglySorted Z.lt before /\
    Forall (fun p => 0 <= p < 100) before.
Proof.
  intros e out.
  assert (H1 : Z.of_nat (List.length (converted e)) < 2 ^ 32)
    by (vm_compute; reflexivity).
  assert (H2 : existsb is_finished out = true) by (vm_compute; reflexivity).
  split; [exact H1|]. split; [exact H2|].
  exact (completed_run_shows_100_twice deaf e tt H1 H2).
Defined.

(** ** The batch pipeline: the text it emits *)

Lemma strip_clean (s : string) :
  strip s <> "" -> strip s <> "" /\ trimmed (strip s) = true.
Proof. intros H. split; [exact H|]. apply strip_spec. Qed.

Lemma chunk_text_clean {RS : Type} (recognizer : KaldiRecognizer RS)
    (accepted : bool) (st : RS) :
  Forall clean_text (snd (chunk_text recognizer accepted st)).
Proof.
  unfold chunk_text. destruct accepted; [|constructor].
  destruct (Result recognizer st) as [st' result].
  destruct (strip (get (j_text result) "")) as [|c text] eqn:E;
    cbn [snd]; constructor; [|constructor].
  unfold clean_text. rewrite <- E. apply strip_clean. rewrite E. discriminate.
Qed.

Lemma chunk_loop_clean {RS : Type} (recognizer : KaldiRecognizer RS)
    (e : env) (total : Z) (reads : list (list frame)) :
  forall poll frames_processed last_pct st out,
    Forall clean_text out ->
    Forall clean_text
           (fst (chunk_loop recognizer e total reads poll
                            frames_processed last_pct st out)).
Proof.
  induction reads as [|data rest IH]; intros poll fp last_pct st out Hout.
  - cbn. destruct (_is_cancelled e poll); exact Hout.
  - rewrite BatchFacts.chunk_loop_cons.
    destruct (_is_cancelled e poll); [exact Hout|].
    destruct (AcceptWaveform recognizer st (bytes_of_frames data))
      as [[st1 accepted]|ex]; [|exact Hout].
    cbn zeta.
    assert (Hout' : Forall clean_text
                      (out ++ snd (chunk_text recognizer accepted st1))).
    { apply Forall_app. split; [exact Hout|apply chunk_text_clean]. }
    destruct (percent _ total) as [pct|ex]; [|exact Hout'].
    apply IH. apply Forall_app. split; [exact Hout'|].
    unfold chunk_progress. destruct (pct =? last_pct); repeat constructor.
Qed.

(** X14. No run emits blank text: every [text_updated] signal of a run,
    from the loop or from the final flush, carries text that is not empty
    and neither starts nor ends with white space. *)
Theorem run_text_is_clean {RS : Type} (recognizer : KaldiRecognizer RS)
    (e : env) (fresh : RS) :
  Forall clean_text (snd (run recognizer e fresh __init__)) /\
  forall text,
    In (text_updated text) (snd (run recognizer e fresh __init__)) ->
    text <> "" /\ trimmed text = true.
Proof.
  assert (H : Forall clean_text (snd (run recognizer e fresh __init__))).
  { unfold run, _do_transcription.
    destruct (_ensure_wav e __init__) as [self [path|ex]];
      [|repeat constructor].
    destruct (_is_cancelled e 0); [constructor|].
    destruct (model_isdir e); cbn [negb]; [|repeat constructor].
    destruct (model_raises e); [repeat constructor|].
    destruct (Z.of_nat (List.length (converted e)) =? 0);
      [repeat constructor|].
    pose proof (chunk_loop_clean recognizer e
                  (Z.of_nat (List.length (converted e)))
                  (readframes_all _CHUNK_FRAMES (converted e))
                  1 0 (-1) fresh [] ltac:(constructor)) as Hloop.
    destruct (chunk_loop recognizer e _ _ 1 0 (-1) fresh [])
      as [added [[st [|]]|ex]]; cbn [fst snd] in *.
    - destruct (FinalResult recognizer st) as [st' final].
      cbn zeta. cbn [fst snd].
      apply Forall_app. split; [|repeat constructor].
      destruct (strip (get (j_text final) "")) as [|c text] eqn:E;
        [exact Hloop|].
      apply Forall_app. split; [exact Hloop|].
      constructor; [|constructor].
      unfold clean_text. rewrite <- E. apply strip_clean. rewrite E.
      discriminate.
    - exact Hloop.
    - apply Forall_app. split; [exact Hloop|repeat constructor]. }
  split; [exact H|].
  intros text Hin. rewrite Forall_forall in H. exact (H _ Hin).
Qed.

End BatchMoreFacts.

(** ** The capture worker *)

Section CaptureWorker.

Context {RS : Type} (recognizer : KaldiRecognizer RS).

Lemma capture_loop_unpaused (schedule : list AudioWorker.tick)
    (self : AudioEngine) :
  forall st out,
    AudioWorker.capture_loop recognizer schedule self st out
    = AudioWorker.capture_loop recognizer (filter unpaused schedule)
                               self st out.
Proof.
  induction schedule as [|t rest IH]; intros st out; [reflexivity|].
  cbn [filter]. unfold unpaused at 1.
  destruct (AudioWorker.paused t) eqn:Hp; cbn [negb AudioWorker.capture_loop];
    rewrite Hp.
  - apply IH.
  - destruct (AudioWorker.capture_step recognizer (AudioWorker.host t) self st)
      as [[st' sigs]|ex]; [apply IH|reflexivity].
Qed.

(** X15. While paused the worker reads no audio and feeds nothing to the
    recognizer: a run is, in everything it emits and leaves behind, the run
    over the ticks in which it was not paused. *)
Theorem paused_ticks_are_skipped (sources : list Source)
    (opening closing : Host) (schedule : list AudioWorker.tick)
    (w : PortAudio) (self : AudioEngine) (st : RS) :
  AudioWorker.run recognizer sources opening schedule closing w self st
  = AudioWorker.run recognizer sources opening (filter unpaused schedule)
                    closing w self st.
Proof.
  unfold AudioWorker.run.
  destruct (AudioEngine_.open_streams opening sources w self)
    as [[w' self'] [u|ex]]; [|reflexivity].
  now rewrite capture_loop_unpaused.
Qed.

Lemma capture_step_signals (h : Host) (self : AudioEngine) (st st' : RS)
    (sigs : list AudioWorker.signal) :
  AudioWorker.capture_step recognizer h self st = Ok (st', sigs) ->
  (List.length sigs <= 1)%nat /\ Forall clean_signal sigs /\
  existsb is_error sigs = false.
Proof.
  unfold AudioWorker.capture_step.
  destruct (AudioEngine_.read_and_mix h self) as [[|b data]|ex];
    cbn [bind]; intros H; [inversion H; cbn; auto| |discriminate].
  unfold TranscriptionEngine.process_chunk in H.
  destruct (AcceptWaveform recognizer st (b :: data))
    as [[st1 accepted]|ex]; cbn [bind] in H; [|discriminate].
  destruct accepted.
  - destruct (Result recognizer st1) as [st2 res].
    destruct (nonempty_or_None_strip (get (j_text res) "")) as [_ Hs].
    cbn [bind] in H.
    destruct (nonempty_or_None (strip (get (j_text res) ""))) as [t|];
      inversion H; subst; cbn; repeat split; auto.
    constructor; [|constructor]. unfold clean_signal.
    destruct (Hs t eq_refl) as (_ & ? & ? & _). auto.
  - destruct (PartialResult recognizer st1) as [st2 res].
    destruct (nonempty_or_None_strip (get (j_partial res) "")) as [_ Hs].
    cbn [bind] in H.
    destruct (nonempty_or_None (strip (get (j_partial res) ""))) as [t|];
      inversion H; subst; cbn; repeat split; auto.
    constructor; [|constructor]. unfold clean_signal.
    destruct (Hs t eq_refl) as (_ & ? & ? & _). auto.
Qed.

Lemma capture_loop_signals (schedule : list AudioWorker.tick)
    (self : AudioEngine) :
  forall st out,
  exists added,
    snd (fst (AudioWorker.capture_loop recognizer schedule self st out))
    = out ++ added /\
    (List.length added <= List.length (filter unpaused schedule))%nat /\
    Forall clean_signal added /\
    existsb is_error added = false.
Proof.
  induction schedule as [|t rest IH]; intros st out.
  - exists []. cbn. rewrite app_nil_r. auto.
  - cbn [AudioWorker.capture_loop filter]. unfold unpaused at 1.
    destruct (AudioWorker.paused t); cbn [negb].
    + apply IH.
    + destruct (AudioWorker.capture_step recognizer (AudioWorker.host t)
                  self st) as [[st' sigs]|ex] eqn:Hstep.
      * destruct (capture_step_signals _ _ _ _ _ Hstep) as (H1 & H2 & H3).
        destruct (IH st' (out ++ sigs)) as (added & Ha & Hl & Hc & He).
        exists (sigs ++ added). rewrite Ha, <- app_assoc.
        split; [reflexivity|]. rewrite length_app, existsb_app, H3, He.
        cbn [List.length]. split; [lia|]. split; [|reflexivity].
        apply Forall_app. auto.
      * exists []. cbn. rewrite app_nil_r. repeat split; auto; lia.
Qed.

(** X16. What the capture worker emits.  A run emits at most one signal
    for each tick in which it is not paused, and one more for the final
    flush; every text it emits, final or partial, is not empty and has no
    white space at either end; and once the streams are open it never emits
    [error_occurred]: the only error signal of a run is the one for a
    failed [open_streams], which is then the only signal. *)
Theorem capture_worker_signals (sources : list Source)
    (opening closing : Host) (schedule : list AudioWorker.tick)
    (w : PortAudio) (self : AudioEngine) (st : RS) :
  let o := AudioWorker.run recognizer sources opening schedule closing
             w self st in
  (List.length (AudioWorker.emitted o)
   <= List.length (filter unpaused schedule) + 1)%nat /\
  Forall clean_signal (AudioWorker.emitted o) /\
  (existsb is_error (AudioWorker.emitted o)
   = negb (is_ok (snd (AudioEngine_.open_streams opening sources w self)))) /\
  (existsb is_error (AudioWorker.emitted o) = true ->
   List.length (AudioWorker.emitted o) = 1%nat).
Proof.
  intros o. subst o. unfold AudioWorker.run.
  destruct (AudioEngine_.open_streams opening sources w self)
    as [[w' self'] [u|ex]]; cbn [snd is_ok negb].
  - destruct (capture_loop_signals schedule self' st [])
      as (added & Ha & Hl & Hc & He).
    cbn [app] in Ha.
    destruct (AudioWorker.capture_loop recognizer schedule self' st [])
      as [[st' out] [u'|ex]]; cbn [fst snd] in Ha; subst out;
      cbn [AudioWorker.emitted].
    + destruct (TranscriptionEngine.final_result recognizer st')
        as [st'' remaining] eqn:Hfr.
      assert (Hrem : forall t, remaining = Some t ->
                               t <> "" /\ trimmed t = true).
      { intros t ->. unfold TranscriptionEngine.final_result in Hfr.
        destruct (FinalResult recognizer st') as [s2 res].
        inversion Hfr as [[Hs Ht]].
        destruct (nonempty_or_None_strip (get (j_text res) "")) as [_ Hs'].
        destruct (Hs' t Ht) as (_ & ? & ? & _). auto. }
      destruct (AudioEngine_.close_streams closing w' self') as [w'' self''].
      cbn [AudioWorker.emitted].
      destruct remaining as [t|].
      * rewrite length_app, existsb_app, He. cbn.
        repeat split; try lia; try discriminate.
        apply Forall_app. split; [exact Hc|].
        constructor; [|constructor]. unfold clean_signal. now apply Hrem.
      * rewrite He. repeat split; auto; try lia; discriminate.
    + rewrite He. repeat split; auto; try lia; discriminate.
  - cbn [AudioWorker.emitted]. cbn. repeat split; auto; try lia.
    repeat constructor.
Qed.

Lemma open_streams_ok_nonempty (h : Host) (sources : list Source)
    (w : PortAudio) (self : AudioEngine) :
  snd (AudioEngine_.open_streams h sources w self) = Ok tt ->
  _streams (snd (fst (AudioEngine_.open_streams h sources w self))) <> [].
Proof.
  unfold AudioEngine_.open_streams, AudioEngine_.close_streams.
  cbn [fst snd].
  destruct (AudioEngine_.open_each h sources _ _) as [w' streams].
  destruct streams; cbn [fst snd _streams]; [discriminate|].
  intros _. discriminate.
Qed.

(** The loop stops at the first cycle whose step raises. *)
Lemma capture_loop_raises (schedule : list AudioWorker.tick)
    (self : AudioEngine) (ex : exn) :
  forall st out st1 out1,
    AudioWorker.capture_loop recognizer schedule self st out
    = (st1, out1, Raise ex) ->
    exists before t after,
      schedule = before ++ t :: after /\
      AudioWorker.paused t = false /\
      AudioWorker.capture_step recognizer (AudioWorker.host t) self st1
      = Raise ex /\
      AudioWorker.capture_loop recognizer before self st out
      = (st1, out1, Ok tt).
Proof.
  induction schedule as [|t rest IH]; intros st out st1 out1 H;
    cbn [AudioWorker.capture_loop] in H; [discriminate|].
  destruct (AudioWorker.paused t) eqn:Hp.
  - destruct (IH _ _ _ _ H) as (before & t' & after & E & Hp' & Hs & Hl).
    exists (t :: before), t', after. subst rest.
    cbn [AudioWorker.capture_loop app]. rewrite Hp. auto.
  - destruct (AudioWorker.capture_step recognizer (AudioWorker.host t) self st)
      as [[st' sigs]|ex'] eqn:Hstep.
    + destruct (IH _ _ _ _ H) as (before & t' & after & E & Hp' & Hs & Hl).
      exists (t :: before), t', after. subst rest.
      cbn [AudioWorker.capture_loop app]. rewrite Hp, Hstep. auto.
    + inversion H; subst. exists [], t, rest. auto.
Qed.

(** X17. A failure inside the capture loop is not handled by [run]:
    whenever [run] ends with an exception, [open_streams] had succeeded and
    the exception was raised by [read_and_mix] or the recognizer in some
    cycle that was not paused; the run has emitted what the cycles before
    that one emitted and nothing for the failure, the final flush and
    [close_streams] are skipped, and the engine still holds the handles it
    opened, which stay open. *)
Theorem capture_failure_escapes (sources : list Source)
    (opening closing : Host) (schedule : list AudioWorker.tick)
    (w : PortAudio) (self : AudioEngine) (st : RS) (ex : exn) :
  let o := AudioWorker.run recognizer sources opening schedule closing
             w self st in
  let opened := AudioEngine_.open_streams opening sources w self in
  AudioWorker.returned o = Raise ex ->
  snd opened = Ok tt /\
  AudioWorker.audio o = fst (fst opened) /\
  AudioWorker.engine o = snd (fst opened) /\
  _streams (AudioWorker.engine o) <> [] /\
  existsb is_error (AudioWorker.emitted o) = false /\
  exists before t after,
    schedule = before ++ t :: after /\
    AudioWorker.paused t = false /\
    AudioWorker.capture_step recognizer (AudioWorker.host t)
      (AudioWorker.engine o) (AudioWorker.recognizer_state o) = Raise ex /\
    AudioWorker.capture_loop recognizer before (AudioWorker.engine o) st []
    = (AudioWorker.recognizer_state o, AudioWorker.emitted o, Ok tt).
Proof.
  intros o opened. subst o opened. unfold AudioWorker.run.
  pose proof (open_streams_ok_nonempty opening sources w self) as Hne.
  destruct (AudioEngine_.open_streams opening sources w self)
    as [[w' self'] [[]|ex']] eqn:Eo; cbn [fst snd] in *;
    [|cbn; discriminate].
  specialize (Hne eq_refl).
  destruct (capture_loop_signals schedule self' st [])
    as (added & Ha & _ & _ & He).
  destruct (AudioWorker.capture_loop recognizer schedule self' st [])
    as [[st1 out1] [u|ex1]] eqn:Hloop.
  - destruct (TranscriptionEngine.final_result recognizer st1) as [st2 rem].
    destruct (AudioEngine_.close_streams closing w' self') as [w2 self2].
    cbn. discriminate.
  - cbn [AudioWorker.returned AudioWorker.audio AudioWorker.engine
         AudioWorker.emitted AudioWorker.recognizer_state].
    intros H. inversion H; subst ex1.
    cbn [fst snd app] in Ha. subst out1.
    repeat split; auto.
    now apply capture_loop_raises.
Qed.

End CaptureWorker.

Lemma capture_failure_escapes_witness :
  let schedule := [{| AudioWorker.paused := true; AudioWorker.host := quiet_host |};
                   {| AudioWorker.paused := false; AudioWorker.host := quiet_host |}] in
  let o := AudioWorker.run failing [mic 0 1 true] quiet_host schedule
             quiet_host fresh_audio AudioEngine_.__init__ tt in
  let opened := AudioEngine_.open_streams quiet_host [mic 0 1 true]
                  fresh_audio AudioEngine_.__init__ in
  AudioWorker.returned o = Raise (Exception "Failed to process waveform") /\
  snd opened = Ok tt /\
  AudioWorker.audio o = fst (fst opened) /\
  AudioWorker.engine o = snd (fst opened) /\
  _streams (AudioWorker.engine o) <> [] /\
  existsb is_error (AudioWorker.emitted o) = false /\
  exists before t after,
    schedule = before ++ t :: after /\
    AudioWorker.paused t = false /\
    AudioWorker.capture_step failing (AudioWorker.host t)
      (AudioWorker.engine o) (AudioWorker.recognizer_state o)
    = Raise (Exception "Failed to process waveform") /\
    AudioWorker.capture_loop failing before (AudioWorker.engine o) tt []
    = (AudioWorker.recognizer_state o, AudioWorker.emitted o, Ok tt).
Proof.
  intros schedule o opened.
  assert (H : AudioWorker.returned o
              = Raise (Exception "Failed to process waveform"))
    by (vm_compute; reflexivity).
  split; [exact H|].
  exact (capture_failure_escapes failing [mic 0 1 true] quiet_host quiet_host
           schedule fresh_audio AudioEngine_.__init__ tt
           (Exception "Failed to process waveform") H).
Defined.



(** ** Autosave *)

Lemma append_buffer (text : string) (self : AutosaveManager) :
  _file (AutosaveManager_.append text self) = _file self /\
  _buffer (AutosaveManager_.append text self)
  = _buffer self ++ appended_texts [Appended text].
Proof.
  destruct text; cbn; [now rewrite app_nil_r|auto].
Qed.

Lemma flush_reliable (d : Disk) (log : list file_call)
    (self : AutosaveManager) (f : File) :
  reliable d -> _file self = Some f ->
  AutosaveManager_.flush d log self
  = match _buffer self with
    | [] => (log, self)
    | _ => (log ++ flushed_line f (_buffer self),
            {| _timer := _timer self; _file := Some f; _buffer := [] |})
    end.
Proof.
  intros Hd Hf. unfold AutosaveManager_.flush. rewrite Hf.
  destruct (_buffer self) as [|t b]; [reflexivity|].
  destruct (Hd f) as (-> & -> & _).
  unfold flushed_line. now rewrite <- app_assoc.
Qed.

Lemma autosave_session_reliable (d : Disk) (f : File) :
  reliable d ->
  forall events log self,
    _file self = Some f ->
    exists groups,
      fst (AutosaveManager_.flush d
             (fst (autosave_session d events log self))
             (snd (autosave_session d events log self)))
      = log ++ flat_map (flushed_line f) groups /\
      List.concat groups = _buffer self ++ appended_texts events /\
      Forall (fun g => g <> []) groups /\
      _buffer (snd (AutosaveManager_.flush d
                      (fst (autosave_session d events log self))
                      (snd (autosave_session d events log self)))) = [].
Proof.
  intros Hd. induction events as [|ev rest IH]; intros log self Hf.
  - cbn [autosave_session fst snd appended_texts].
    rewrite (flush_reliable d log self f Hd Hf), app_nil_r.
    destruct (_buffer self) as [|t b] eqn:Hb.
    + exists []. cbn. rewrite app_nil_r. auto.
    + exists [t :: b]. cbn [flat_map List.concat fst snd _buffer].
      rewrite !app_nil_r. repeat split; auto.
      constructor; [discriminate|constructor].
  - destruct ev as [text|].
    + cbn [autosave_session].
      destruct (append_buffer text self) as [Hf' Hb'].
      destruct (IH log (AutosaveManager_.append text self)
                  ltac:(congruence)) as (groups & H1 & H2 & H3 & H4).
      exists groups. split; [exact H1|]. split; [|auto].
      rewrite H2, Hb', <- app_assoc. f_equal.
      destruct text; reflexivity.
    + cbn [autosave_session]. unfold AutosaveManager_._on_tick.
      rewrite (flush_reliable d log self f Hd Hf).
      destruct (_buffer self) as [|t b] eqn:Hb.
      * destruct (IH log self Hf) as (groups & H1 & H2 & H3 & H4).
        exists groups. rewrite Hb in H2. auto.
      * destruct (IH (log ++ flushed_line f (t :: b))
                    {| _timer := _timer self; _file := Some f; _buffer := [] |}
                    eq_refl) as (groups & H1 & H2 & H3 & H4).
        exists ((t :: b) :: groups).
        cbn [flat_map List.concat _buffer app] in *.
        rewrite H1, H2, <- !app_assoc. repeat split; auto.
        constructor; [discriminate|exact H3].
Qed.

(** X18. While the file can be written, autosave loses nothing and repeats
    nothing: after [start] on an open file, whatever was buffered before,
    any sequence of appended texts and timer ticks followed by a [flush]
    (as [stop_session] does) writes lines that hold, in order and once
    each, exactly the non-empty texts appended since [start]; every line is
    the texts of one stretch joined by single spaces and ended by a new
    line, each write is followed by a flush of the file, no line is empty,
    and the buffer is empty at the end. *)
Theorem autosave_writes_every_text_once (d : Disk) (f : File)
    (interval_ms : Z) (self : AutosaveManager)
    (events : list autosave_event) :
  reliable d ->
  let started := AutosaveManager_.start f interval_ms self in
  let session := autosave_session d events [] started in
  let r := AutosaveManager_.flush d (fst session) (snd session) in
  exists groups,
    fst r = flat_map (flushed_line f) groups /\
    List.concat groups = appended_texts events /\
    Forall (fun g => g <> []) groups /\
    _buffer (snd r) = [].
Proof.
  intros Hd started session r. subst started session r.
  destruct (autosave_session_reliable d f Hd events []
              (AutosaveManager_.start f interval_ms self) eq_refl)
    as (groups & H1 & H2 & H3 & H4).
  exists groups. auto.
Qed.

Lemma autosave_writes_every_text_once_witness :
  let events := [Appended "hello"; Appended ""; Appended "world"; Ticked;
                 Ticked; Appended "again"] in
  reliable sound_disk /\
  let started := AutosaveManager_.start 7%nat 300000
                   {| _timer := None; _file := None; _buffer := ["stale"] |} in
  let session := autosave_session sound_disk events [] started in
  let r := AutosaveManager_.flush sound_disk (fst session) (snd session) in
  exists groups,
    fst r = flat_map (flushed_line 7%nat) groups /\
    List.concat groups = appended_texts events /\
    Forall (fun g => g <> []) groups /\
    _buffer (snd r) = [].
Proof.
  intros events.
  assert (H : reliable sound_disk) by (intros f; repeat split; reflexivity).
  split; [exact H|].
  exact (autosave_writes_every_text_once sound_disk 7%nat 300000
           {| _timer := None; _file := None; _buffer := ["stale"] |}
           events H).
Defined.

Example autosave_two_lines :
  fst (AutosaveManager_.flush sound_disk
         (fst (autosave_session sound_disk
                 [Appended "hello"; Appended ""; Appended "world"; Ticked;
                  Ticked; Appended "again"] []
                 (AutosaveManager_.start 7%nat 300000 AutosaveManager_.__init__)))
         (snd (autosave_session sound_disk
                 [Appended "hello"; Appended ""; Appended "world"; Ticked;
                  Ticked; Appended "again"] []
                 (AutosaveManager_.start 7%nat 300000 AutosaveManager_.__init__))))
  = [Call_write 7%nat ("hello world" ++ FileTranscriptionWorker.nl);
     Call_flush 7%nat;
     Call_write 7%nat ("again" ++ FileTranscriptionWorker.nl);
     Call_flush 7%nat].
Proof. vm_compute. reflexivity. Qed.

Lemma flush_cases (d : Disk) (log : list file_call)
    (self : AutosaveManager) (f : File) :
  _file self = Some f -> _buffer self <> [] ->
  let line := (String.concat " " (_buffer self)
               ++ FileTranscriptionWorker.nl)%string in
  AutosaveManager_.flush d log self
  = if write_raises d f then (log ++ [Call_write f line], self)
    else if flush_raises d f
         then (log ++ [Call_write f line; Call_flush f], self)
         else (log ++ [Call_write f line; Call_flush f],
               {| _timer := _timer self; _file := Some f; _buffer := [] |}).
Proof.
  intros Hf Hb line. subst line. unfold AutosaveManager_.flush.
  rewrite Hf. destruct (_buffer self) as [|t b] eqn:Eb; [congruence|].
  destruct (write_raises d f); [reflexivity|].
  rewrite <- app_assoc. destruct (flush_raises d f); reflexivity.
Qed.

(** X19. A flush that fails keeps the text: when the file's [write] or
    [flush] raises [OSError], the buffer is left as it was; so after a
    [write] that went through and a [flush] that failed, the next flush
    that succeeds writes the same line a second time. *)
Theorem failed_flush_keeps_buffer (d : Disk) (log : list file_call)
    (self : AutosaveManager) (f : File) :
  _file self = Some f -> _buffer self <> [] ->
  let line := (String.concat " " (_buffer self)
               ++ FileTranscriptionWorker.nl)%string in
  let r := AutosaveManager_.flush d log self in
  (write_raises d f = true -> r = (log ++ [Call_write f line], self)) /\
  (write_raises d f = false -> flush_raises d f = true ->
   r = (log ++ [Call_write f line; Call_flush f], self) /\
   forall d',
     reliable d' ->
     AutosaveManager_.flush d' (fst r) (snd r)
     = (log ++ [Call_write f line; Call_flush f; Call_write f line;
                Call_flush f],
        {| _timer := _timer self; _file := Some f; _buffer := [] |})) /\
  (write_raises d f = false -> flush_raises d f = false ->
   r = (log ++ [Call_write f line; Call_flush f],
        {| _timer := _timer self; _file := Some f; _buffer := [] |})).
Proof.
  intros Hf Hb line r. subst line r.
  rewrite (flush_cases d log self f Hf Hb). split; [|split].
  - intros ->. reflexivity.
  - intros -> ->. split; [reflexivity|].
    intros d' Hd'. cbn [fst snd].
    rewrite (flush_cases d' _ self f Hf Hb).
    destruct (Hd' f) as (-> & -> & _).
    rewrite <- app_assoc. reflexivity.
  - intros -> ->. reflexivity.
Qed.

Lemma failed_flush_keeps_buffer_witness :
  let d := {| write_raises := fun _ => false;
              flush_raises := fun _ => true;
              fclose_raises := fun _ => false |} in
  let self := {| _timer := Some 300000; _file := Some 7%nat;
                 _buffer := ["hello"; "world"] |} in
  _file self = Some 7%nat /\ _buffer self <> [] /\
  let line := (String.concat " " (_buffer self)
               ++ FileTranscriptionWorker.nl)%string in
  let r := AutosaveManager_.flush d [] self in
  (write_raises d 7%nat = true -> r = ([] ++ [Call_write 7%nat line], self)) /\
  (write_raises d 7%nat = false -> flush_raises d 7%nat = true ->
   r = ([] ++ [Call_write 7%nat line; Call_flush 7%nat], self) /\
   forall d',
     reliable d' ->
     AutosaveManager_.flush d' (fst r) (snd r)
     = ([] ++ [Call_write 7%nat line; Call_flush 7%nat;
               Call_write 7%nat line; Call_flush 7%nat],
        {| _timer := _timer self; _file := Some 7%nat; _buffer := [] |})) /\
  (write_raises d 7%nat = false -> flush_raises d 7%nat = false ->
   r = ([] ++ [Call_write 7%nat line; Call_flush 7%nat],
        {| _timer := _timer self; _file := Some 7%nat; _buffer := [] |})).
Proof.
  intros d self.
  assert (H1 : _file self = Some 7%nat) by reflexivity.
  assert (H2 : _buffer self <> []) by discriminate.
  split; [exact H1|]. split; [exact H2|].
  exact (failed_flush_keeps_buffer d [] self 7%nat H1 H2).
Defined.

(** ** The controller: file transcription *)

Section Controller.

Import TranscriberApp.

Variable d : Disk.

Lemma window_append_text (text : string) (self : state) :
  window (ui_append_text text) self = (say [ui_append_text text] self, Ok tt).
Proof. reflexivity. Qed.

Lemma cleanup_file_transcription_raises (log : list file_call)
    (self : state) :
  _cleanup_file_transcription log self
  = (log, self, Raise (TranscriberUI.no_attribute "set_file_transcribing")).
Proof. reflexivity. Qed.

(** One event: only a text does anything. *)
Lemma file_slot_effect (f : File) (ev : file_event) (log : list file_call)
    (self : state) :
  _file_output self = Some f ->
  let r := file_slot d log ev self in
  fst (fst r) = log ++ transcript_lines d f [ev] /\
  _file_output (snd (fst r)) = Some f /\
  _file_worker (snd (fst r)) = _file_worker self /\
  boxes (snd (fst r)) = boxes self /\
  (forall ex,
      snd r = Raise ex ->
      ex = TranscriberUI.no_attribute "set_file_transcribing" \/
      ex = TranscriberUI.no_attribute "update_file_progress").
Proof.
  intros Hf.
  destruct ev as [[pct|text| |msg]|]; cbn [file_slot transcript_lines flat_map].
  - cbn. rewrite app_nil_r. repeat split; auto.
    intros ex H. inversion H. now right.
  - unfold _on_file_text. rewrite window_append_text.
    cbn [say _file_output]. rewrite Hf, app_nil_r.
    destruct (write_raises d f); cbn [fst snd say _file_output _file_worker
                                      boxes];
      rewrite <- ?app_assoc; repeat split; auto; discriminate.
  - unfold _on_file_finished. rewrite cleanup_file_transcription_raises.
    cbn [fst snd]. rewrite app_nil_r. repeat split; auto.
    intros ex H. inversion H. now left.
  - unfold _on_file_error. rewrite cleanup_file_transcription_raises.
    cbn [fst snd]. rewrite app_nil_r. repeat split; auto.
    intros ex H. inversion H. now left.
  - unfold cancel_file_transcription.
    rewrite cleanup_file_transcription_raises.
    destruct (_file_worker self) eqn:Hw; cbn [fst snd]; rewrite app_nil_r;
      repeat split; auto; try discriminate.
    intros ex H. inversion H. now left.
Qed.

Lemma transcript_lines_app (f : File) (a b : list file_event) :
  transcript_lines d f (a ++ b)
  = transcript_lines d f a ++ transcript_lines d f b.
Proof. unfold transcript_lines. apply flat_map_app. Qed.

Lemma file_slots_effect (f : File) (events : list file_event) :
  forall (log : list file_call) (self : state),
    _file_output self = Some f ->
    let r := file_slots d events log self in
    fst (fst r) = log ++ transcript_lines d f events /\
    _file_output (snd (fst r)) = Some f /\
    _file_worker (snd (fst r)) = _file_worker self /\
    boxes (snd (fst r)) = boxes self /\
    Forall (fun ex =>
              ex = TranscriberUI.no_attribute "set_file_transcribing" \/
              ex = TranscriberUI.no_attribute "update_file_progress")
           (snd r).
Proof.
  induction events as [|ev rest IH]; intros log self Hf.
  - cbn. rewrite app_nil_r. repeat split; auto.
  - cbn [file_slots].
    pose proof (file_slot_effect f ev log self Hf) as Hev. cbv zeta in Hev.
    destruct (file_slot d log ev self) as [[log1 self1] r1].
    cbn [fst snd] in Hev. destruct Hev as (E1 & E2 & E3 & E4 & E5).
    specialize (IH log1 self1 E2). cbv zeta in IH.
    destruct (file_slots d rest log1 self1) as [[log2 self2] raised].
    cbn [fst snd] in *. destruct IH as (I1 & I2 & I3 & I4 & I5).
    change (ev :: rest) with ([ev] ++ rest).
    rewrite transcript_lines_app, app_assoc, <- E1.
    repeat split; auto; try congruence.
    destruct r1 as [u|ex]; [exact I5|]. constructor; [|exact I5].
    now apply E5.
Qed.

Lemma transcript_lines_never_close (f : File) (events : list file_event) :
  ~ In (Call_fclose f) (transcript_lines d f events).
Proof.
  unfold transcript_lines. rewrite in_flat_map.
  intros ([[pct|text| |msg]|] & _ & Hin); cbn in Hin; try contradiction.
  destruct (write_raises d f); cbn in Hin;
    repeat (destruct Hin as [Hin|Hin]; try discriminate); contradiction.
Qed.

(** X20. File transcription does not run through the controller, because
    the window class declares neither [set_file_transcribing] nor
    [update_file_progress] (nor the two signals [__init__] wires to
    [start_file_transcription] and [cancel_file_transcription]).  With a
    file chosen, the folder made and the output file [f] opened,
    [start_file_transcription] stores the open file, clears the text area
    and raises [AttributeError] before it creates a worker.  In every
    state [_cleanup_file_transcription], [_on_file_finished],
    [_on_file_error] and [_on_file_progress] raise [AttributeError] and
    change nothing, and so does [cancel_file_transcription] when a worker
    is set (without one it does nothing).  So whatever signals and cancel
    requests follow, the output file is never closed and stays in
    [_file_output], no message box is shown, and only the text signals
    act: each text is written to the file with a new line, and the file
    flushed unless the write raised. *)
Theorem file_transcription_cannot_run (chosen : string) (f : File)
    (self : state) (events : list file_event) (log : list file_call) :
  chosen <> "" ->
  let started := start_file_transcription chosen false (inl f) self in
  let r := file_slots d events log (fst started) in
  snd started = Raise (TranscriberUI.no_attribute "set_file_transcribing") /\
  fst started = say [ui_clear_text] (set_file_output (Some f) self) /\
  (forall (log' : list file_call) (self' : state) (msg : string) (pct : Z),
      _cleanup_file_transcription log' self'
      = (log', self',
         Raise (TranscriberUI.no_attribute "set_file_transcribing")) /\
      _on_file_finished log' self'
      = (log', self',
         Raise (TranscriberUI.no_attribute "set_file_transcribing")) /\
      _on_file_error log' msg self'
      = (log', self',
         Raise (TranscriberUI.no_attribute "set_file_transcribing")) /\
      _on_file_progress pct self'
      = (self', Raise (TranscriberUI.no_attribute "update_file_progress")) /\
      cancel_file_transcription log' self'
      = (log', self',
         if _file_worker self'
         then Raise (TranscriberUI.no_attribute "set_file_transcribing")
         else Ok tt)) /\
  fst (fst r) = log ++ transcript_lines d f events /\
  ~ In (Call_fclose f) (transcript_lines d f events) /\
  _file_output (snd (fst r)) = Some f /\
  _file_worker (snd (fst r)) = _file_worker self /\
  boxes (snd (fst r)) = boxes self /\
  Forall (fun ex =>
            ex = TranscriberUI.no_attribute "set_file_transcribing" \/
            ex = TranscriberUI.no_attribute "update_file_progress")
         (snd r) /\
  TranscriberUI.getattr "file_transcribe_requested"
  = Raise (TranscriberUI.no_attribute "file_transcribe_requested") /\
  TranscriberUI.getattr "file_cancel_requested"
  = Raise (TranscriberUI.no_attribute "file_cancel_requested").
Proof.
  intros Hchosen started r.
  assert (Hstart : started
                   = (say [ui_clear_text] (set_file_output (Some f) self),
                      Raise (TranscriberUI.no_attribute
                               "set_file_transcribing"))).
  { subst started. unfold start_file_transcription.
    destruct chosen; [congruence|]. reflexivity. }
  subst r. rewrite Hstart. cbn [fst snd].
  pose proof (file_slots_effect f events log
                (say [ui_clear_text] (set_file_output (Some f) self))
                eq_refl) as H.
  cbv zeta in H. destruct H as (H1 & H2 & H3 & H4 & H5).
  split; [reflexivity|]. split; [reflexivity|].
  split.
  { intros log' self' msg pct. repeat split; try reflexivity.
    unfold cancel_file_transcription.
    rewrite cleanup_file_transcription_raises.
    destruct (_file_worker self'); reflexivity. }
  split; [exact H1|].
  split; [apply transcript_lines_never_close|].
  repeat split; auto.
Qed.

End Controller.

Lemma file_transcription_cannot_run_witness :
  let d := sound_disk in
  let chosen := "talk.mp4" in
  let f := 3%nat in
  let self := fresh_app in
  let events :=
    [TranscriberApp.Delivered (FileTranscriptionWorker.progress_updated 50);
     TranscriberApp.Delivered (FileTranscriptionWorker.text_updated "hello");
     TranscriberApp.Delivered FileTranscriptionWorker.finished_signal;
     TranscriberApp.Cancel_requested] in
  chosen <> "" /\
  let started :=
    TranscriberApp.start_file_transcription chosen false (inl f) self in
  let r := TranscriberApp.file_slots d events [] (fst started) in
  snd started = Raise (TranscriberUI.no_attribute "set_file_transcribing") /\
  fst started
  = TranscriberApp.say [ui_clear_text]
      (TranscriberApp.set_file_output (Some f) self) /\
  (forall (log' : list file_call) (self' : TranscriberApp.state)
          (msg : string) (pct : Z),
      TranscriberApp._cleanup_file_transcription log' self'
      = (log', self',
         Raise (TranscriberUI.no_attribute "set_file_transcribing")) /\
      TranscriberApp._on_file_finished log' self'
      = (log', self',
         Raise (TranscriberUI.no_attribute "set_file_transcribing")) /\
      TranscriberApp._on_file_error log' msg self'
      = (log', self',
         Raise (TranscriberUI.no_attribute "set_file_transcribing")) /\
      TranscriberApp._on_file_progress pct self'
      = (self', Raise (TranscriberUI.no_attribute "update_file_progress")) /\
      TranscriberApp.cancel_file_transcription log' self'
      = (log', self',
         if TranscriberApp._file_worker self'
         then Raise (TranscriberUI.no_attribute "set_file_transcribing")
         else Ok tt)) /\
  fst (fst r) = [] ++ transcript_lines d f events /\
  ~ In (Call_fclose f) (transcript_lines d f events) /\
  TranscriberApp._file_output (snd (fst r)) = Some f /\
  TranscriberApp._file_worker (snd (fst r))
  = TranscriberApp._file_worker self /\
  TranscriberApp.boxes (snd (fst r)) = TranscriberApp.boxes self /\
  Forall (fun ex =>
            ex = TranscriberUI.no_attribute "set_file_transcribing" \/
            ex = TranscriberUI.no_attribute "update_file_progress")
         (snd r) /\
  TranscriberUI.getattr "file_transcribe_requested"
  = Raise (TranscriberUI.no_attribute "file_transcribe_requested") /\
  TranscriberUI.getattr "file_cancel_requested"
  = Raise (TranscriberUI.no_attribute "file_cancel_requested").
Proof.
  intros d chosen f self events.
  assert (H : chosen <> "") by discriminate.
  split; [exact H|].
  exact (file_transcription_cannot_run d chosen f self events [] H).
Defined.

(** The transcript of such a start: the text is written, the file is left
    open, and the two other signals only raise. *)
Example file_transcription_of_one_text :
  let started :=
    TranscriberApp.start_file_transcription "talk.mp4" false (inl 3%nat)
      fresh_app in
  TranscriberApp.file_slots sound_disk
    [TranscriberApp.Delivered (FileTranscriptionWorker.progress_updated 50);
     TranscriberApp.Delivered (FileTranscriptionWorker.text_updated "hello");
     TranscriberApp.Delivered FileTranscriptionWorker.finished_signal]
    [] (fst started)
  = ([Call_write 3%nat ("hello" ++ FileTranscriptionWorker.nl)%string;
      Call_flush 3%nat],
     TranscriberApp.say [ui_clear_text; ui_append_text "hello"]
       (TranscriberApp.set_file_output (Some 3%nat) fresh_app),
     [TranscriberUI.no_attribute "update_file_progress";
      TranscriberUI.no_attribute "set_file_transcribing"]).
Proof. vm_compute. reflexivity. Qed.

(** ** The controller: the file of a live session *)

Section LiveSession.

Import TranscriberApp.

Variable d : Disk.

Lemma live_session_as_autosave (events : list session_event) :
  no_error events = true ->
  forall log self,
    fst (live_session d events log self)
    = fst (autosave_session d (seen_by_autosave events) log (autosave self)) /\
    autosave (snd (live_session d events log self))
    = snd (autosave_session d (seen_by_autosave events) log (autosave self)) /\
    TranscriberApp._file (snd (live_session d events log self))
    = TranscriberApp._file self.
Proof.
  induction events as [|ev rest IH]; intros Hne log self; [cbn; auto|].
  cbn [no_error forallb] in Hne. apply andb_prop in Hne as [Hev Hne].
  destruct ev as [[text|text|msg]|]; cbn [is_error negb] in Hev;
    try discriminate;
    cbn [live_session capture_slot seen_by_autosave autosave_session].
  - destruct (IH Hne log (_on_final_text text self)) as (H1 & H2 & H3).
    cbn [_on_final_text say autosave TranscriberApp._file] in *. auto.
  - destruct (IH Hne log (_on_partial_text text self)) as (H1 & H2 & H3).
    cbn [_on_partial_text say autosave TranscriberApp._file] in *. auto.
  - destruct (AutosaveManager_._on_tick d log (autosave self)) as [log' a].
    destruct (IH Hne log'
                {| _transcription_engine := _transcription_engine self;
                   autosave := a; TranscriberApp._file := TranscriberApp._file self;
                   _worker := _worker self; _thread := _thread self;
                   _file_worker := _file_worker self;
                   _file_output := _file_output self;
                   ui := ui self; boxes := boxes self |}) as (H1 & H2 & H3).
    cbn [autosave TranscriberApp._file] in *. auto.
Qed.

Lemma late_texts_buffered (late : list string) :
  forall log self,
    fst (live_session d
           (map (fun text => Signalled (AudioWorker.text_ready text)) late)
           log self) = log /\
    _buffer (autosave
               (snd (live_session d
                       (map (fun text => Signalled (AudioWorker.text_ready text))
                            late)
                       log self)))
    = _buffer (autosave self) ++ filter (fun t => negb (t =? "")%string) late.
Proof.
  induction late as [|t late IH]; intros log self.
  - cbn. now rewrite app_nil_r.
  - cbn [map live_session capture_slot filter].
    destruct (IH log (_on_final_text t self)) as [I1 I2].
    split; [exact I1|]. rewrite I2.
    cbn [_on_final_text say autosave].
    destruct t as [|c t]; cbn; [reflexivity|].
    now rewrite <- app_assoc.
Qed.

(** X21. The file of a live session.  While the file can be written, a
    session in which the capture worker's signals and the timer's ticks
    reach the controller in any order, ended by [stop_session], leaves in
    its file exactly the final texts delivered before the stop, in order
    and once each, in lines of texts joined by single spaces, and then
    closes the file; partial texts are never written.  A final text that
    is delivered after [stop_session] is buffered but not written. *)
Theorem session_file_holds_final_texts (f : File) (interval_ms : Z)
    (sources : list Source) (events : list session_event)
    (late : list string) :
  reliable d -> no_error events = true ->
  let r1 := live_session d events [] (recording f interval_ms sources) in
  let r2 := stop_session d (fst r1) (snd r1) in
  let r3 := live_session d
              (map (fun text => Signalled (AudioWorker.text_ready text)) late)
              (fst r2) (snd r2) in
  (exists groups,
      fst r2 = flat_map (flushed_line f) groups ++ [Call_fclose f] /\
      List.concat groups = appended_texts (seen_by_autosave events) /\
      Forall (fun g => g <> []) groups) /\
  TranscriberApp._file (snd r2) = None /\
  _timer (autosave (snd r2)) = None /\
  _buffer (autosave (snd r2)) = [] /\
  fst r3 = fst r2 /\
  _buffer (autosave (snd r3)) = filter (fun t => negb (t =? "")%string) late.
Proof.
  intros Hd Hne r1 r2 r3.
  destruct (live_session_as_autosave events Hne [] (recording f interval_ms sources))
    as (H1 & H2 & H3).
  fold r1 in H1, H2, H3.
  destruct (autosave_session_reliable d f Hd (seen_by_autosave events) []
              (autosave (recording f interval_ms sources)) eq_refl)
    as (groups & G1 & G2 & G3 & G4).
  rewrite <- H1, <- H2 in G1, G4. cbn [app] in G1, G2.
  assert (E2 : fst r2 = flat_map (flushed_line f) groups ++ [Call_fclose f]
               /\ TranscriberApp._file (snd r2) = None
               /\ _timer (autosave (snd r2)) = None
               /\ _buffer (autosave (snd r2)) = []).
  { subst r2. unfold stop_session.
    destruct (AutosaveManager_.flush d (fst r1) (autosave (snd r1)))
      as [log a]. cbn [fst snd] in *. rewrite H3. subst log.
    cbn. auto. }
  destruct E2 as (E21 & E22 & E23 & E24).
  split; [exists groups; auto|]. split; [exact E22|]. split; [exact E23|].
  split; [exact E24|].
  subst r3.
  destruct (late_texts_buffered late (fst r2) (snd r2)) as [L1 L2].
  split; [exact L1|]. now rewrite L2, E24.
Qed.

End LiveSession.

Lemma session_file_holds_final_texts_witness :
  let d := sound_disk in
  let f := 5%nat in
  let events := [Signalled (AudioWorker.partial_ready "hel");
                 Signalled (AudioWorker.text_ready "hello");
                 Timer;
                 Signalled (AudioWorker.text_ready "world")] in
  let late := ["bye"] in
  reliable d /\ no_error events = true /\
  let r1 := live_session d events [] (recording f 300000 [mic 0 1 true]) in
  let r2 := TranscriberApp.stop_session d (fst r1) (snd r1) in
  let r3 := live_session d
              (map (fun text => Signalled (AudioWorker.text_ready text)) late)
              (fst r2) (snd r2) in
  (exists groups,
      fst r2 = flat_map (flushed_line f) groups ++ [Call_fclose f] /\
      List.concat groups = appended_texts (seen_by_autosave events) /\
      Forall (fun g => g <> []) groups) /\
  TranscriberApp._file (snd r2) = None /\
  _timer (TranscriberApp.autosave (snd r2)) = None /\
  _buffer (TranscriberApp.autosave (snd r2)) = [] /\
  fst r3 = fst r2 /\
  _buffer (TranscriberApp.autosave (snd r3))
  = filter (fun t => negb (t =? "")%string) late.
Proof.
  intros d f events late.
  assert (H1 : reliable d) by (intros x; repeat split; reflexivity).
  assert (H2 : no_error events = true) by reflexivity.
  split; [exact H1|]. split; [exact H2|].
  exact (session_file_holds_final_texts d f 300000 [mic 0 1 true] events late
           H1 H2).
Defined.

Example session_file_of_two_texts :
  fst (TranscriberApp.stop_session sound_disk
         (fst (live_session sound_disk
                 [Signalled (AudioWorker.partial_ready "hel");
                  Signalled (AudioWorker.text_ready "hello");
                  Timer;
                  Signalled (AudioWorker.text_ready "world")]
                 [] (recording 5%nat 300000 [mic 0 1 true])))
         (snd (live_session sound_disk
                 [Signalled (AudioWorker.partial_ready "hel");
                  Signalled (AudioWorker.text_ready "hello");
                  Timer;
                  Signalled (AudioWorker.text_ready "world")]
                 [] (recording 5%nat 300000 [mic 0 1 true]))))
  = [Call_write 5%nat ("hello" ++ FileTranscriptionWorker.nl);
     Call_flush 5%nat;
     Call_write 5%nat ("world" ++ FileTranscriptionWorker.nl);
     Call_flush 5%nat;
     Call_fclose 5%nat].
Proof. vm_compute. reflexivity. Qed.

(** ** Starting a session *)

Lemma open_each_enabled_only (h : Host) (sources : list Source) :
  forall w streams,
    AudioEngine_.open_each h (filter is_enabled sources) w streams
    = AudioEngine_.open_each h sources w streams.
Proof.
  induction sources as [|src sources IH]; intros w streams; [reflexivity|].
  cbn [filter AudioEngine_.open_each]. unfold is_enabled at 1.
  destruct (get (enabled src) false) eqn:He; cbn [negb]; [|apply IH].
  cbn [AudioEngine_.open_each]. rewrite He. cbn [negb].
  destruct (open_raises h _ (device_index src)); [apply IH|].
  destruct (new_stream _) as [stream w']. apply IH.
Qed.

(** X22. Reading the stored sources.  [audio_sources] is the stored list
    when the stored value is a string that parses, and the empty list when
    it does not parse or is not a string; [get_enabled_sources] keeps
    exactly the entries whose ["enabled"] is present and true, in their
    order; and handing [open_streams] the filtered list is the same as
    handing it the whole list, since it skips the disabled entries
    itself. *)
Theorem enabled_sources_are_what_is_opened (value : AppSettings.raw)
    (h : Host) (w : PortAudio) (self : AudioEngine) :
  AppSettings.audio_sources (AppSettings.raw_str None) = [] /\
  AppSettings.audio_sources AppSettings.raw_other = [] /\
  (forall sources,
      AppSettings.audio_sources (AppSettings.raw_str (Some sources))
      = sources) /\
  (forall src,
      In src (AppSettings.get_enabled_sources value) <->
      In src (AppSettings.audio_sources value) /\ enabled src = Some true) /\
  (exists dropped,
      List.length (AppSettings.audio_sources value)
      = (List.length (AppSettings.get_enabled_sources value) + dropped)%nat) /\
  AudioEngine_.open_streams h (AppSettings.get_enabled_sources value) w self
  = AudioEngine_.open_streams h (AppSettings.audio_sources value) w self.
Proof.
  repeat split; try reflexivity.
  - unfold AppSettings.get_enabled_sources in H.
    apply filter_In in H. tauto.
  - unfold AppSettings.get_enabled_sources in H.
    apply filter_In in H as [_ H]. destruct (enabled src) as [[|]|];
      cbn in H; congruence.
  - intros [Hin He]. unfold AppSettings.get_enabled_sources.
    apply filter_In. split; [exact Hin|]. now rewrite He.
  - unfold AppSettings.get_enabled_sources.
    induction (AppSettings.audio_sources value) as [|src l [k IH]];
      [exists 0%nat; reflexivity|].
    cbn [filter]. destruct (get (enabled src) false); cbn [List.length].
    + exists k. lia.
    + exists (S k). lia.
  - unfold AudioEngine_.open_streams, AppSettings.get_enabled_sources.
    fold is_enabled.
    change (filter (fun s => get (enabled s) false))
      with (filter is_enabled).
    destruct (AudioEngine_.close_streams h w (AudioEngine_.init self))
      as [w' self'].
    now rewrite open_each_enabled_only.
Qed.

Section StartSession.

Import TranscriberApp.

Lemma devices_from_least (infos : list device_info) (i : Z) (dev : Device)
    (rest : list Device) :
  AudioEngine_rest.devices_from i infos = dev :: rest ->
  Forall (fun d => index dev <= index d) (dev :: rest).
Proof.
  intros E. pose proof (devices_from_sorted infos i) as Hs.
  rewrite E in Hs. cbn in Hs. inversion Hs as [|? ? _ Hall]; subst.
  constructor; [lia|].
  rewrite Forall_map in Hall.
  eapply Forall_impl; [|exact Hall]. cbn. intros; lia.
Qed.

(** X23. What [start_session] sets up once the model is loaded and the
    session file [f] is open.  The file is kept and autosave is started on
    it with an interval of [minutes * 60 * 1000] ms and an empty buffer.
    The worker gets the enabled stored sources when there are any;
    otherwise the input device of least index, at gain 1.0 and enabled; so
    it never gets an empty list or a disabled source.  When there is
    neither an enabled source nor an input device, the call shows the
    "Audio Error" box and returns without a worker: the state is not set
    to running, while the file stays open and the autosave timer keeps
    running. *)
Theorem start_session_outcomes (e : env) (self : state) (f : File) :
  (_transcription_engine self = true \/
   model_found e = true /\ model_fails e = false) ->
  makedirs_raises e = false -> opened e = inl f ->
  let r := start_session e self in
  let stored := AppSettings.get_enabled_sources (stored_sources e) in
  let devices := snd (AudioEngine_rest.list_input_devices (infos e)
                        AudioEngine_.__init__) in
  snd r = Ok tt /\
  _transcription_engine (fst r) = true /\
  TranscriberApp._file (fst r) = Some f /\
  autosave (fst r)
  = AutosaveManager_.start f (minutes e * 60000) (autosave self) /\
  (stored <> [] ->
   _worker (fst r) = Some stored /\ _thread (fst r) = true /\
   boxes (fst r) = boxes self /\
   ui (fst r) = ui self ++ [ui_clear_text; ui_set_state RUNNING;
                            tray_set_state RUNNING]) /\
  (stored = [] ->
   forall dev rest,
     devices = dev :: rest ->
     _worker (fst r) = Some [mic (index dev) 1 true] /\
     _thread (fst r) = true /\ boxes (fst r) = boxes self /\
     Forall (fun d => index dev <= index d) devices) /\
  (stored = [] -> devices = [] ->
   _worker (fst r) = _worker self /\ _thread (fst r) = _thread self /\
   boxes (fst r)
   = boxes self ++ [("Audio Error", "No audio input devices found.")] /\
   ui (fst r) = ui self ++ [ui_clear_text]) /\
  (forall sources,
      _worker self = None -> _worker (fst r) = Some sources ->
      sources <> [] /\ Forall (fun s => is_enabled s = true) sources).
Proof.
  intros Hm Hmk Ho r stored devices. subst r devices.
  unfold AudioEngine_rest.list_input_devices. cbn [snd].
  unfold start_session. rewrite Hmk, Ho.
  assert (Hstored : Forall (fun s => is_enabled s = true) stored).
  { subst stored. unfold AppSettings.get_enabled_sources.
    apply Forall_forall. intros s Hs. apply filter_In in Hs. tauto. }
  assert (Hi : minutes e * 60 * 1000 = minutes e * 60000) by lia.
  rewrite Hi. clear Hi.
  fold stored.
  assert (Hload :
            (if _transcription_engine self then inl self
             else if negb (model_found e)
             then inr (box "Model Error"
                           (FileTranscriptionWorker.model_missing_msg
                              (default_model_dir e)) self, Ok tt)
             else if model_fails e
             then inr (self, Raise (Exception "Failed to create a model"))
             else inl {| _transcription_engine := true;
                         autosave := autosave self;
                         TranscriberApp._file := TranscriberApp._file self;
                         _worker := _worker self; _thread := _thread self;
                         _file_worker := _file_worker self;
                         _file_output := _file_output self;
                         ui := ui self; boxes := boxes self |})
            = (inl {| _transcription_engine := true;
                      autosave := autosave self;
                      TranscriberApp._file := TranscriberApp._file self;
                      _worker := _worker self; _thread := _thread self;
                      _file_worker := _file_worker self;
                      _file_output := _file_output self;
                      ui := ui self; boxes := boxes self |}
               : state + state * result unit)).
  { destruct (_transcription_engine self) eqn:Et.
    - destruct self; cbn in *. now subst.
    - destruct Hm as [Hm|[-> ->]]; [discriminate|reflexivity]. }
  rewrite Hload. clear Hload. cbn [say autosave ui boxes _worker _thread
    _file_worker _file_output _transcription_engine].
  destruct stored as [|src stored'] eqn:Es;
    [destruct (AudioEngine_rest.devices_from 0 (infos e)) as [|dev rest] eqn:Ed|];
    cbn [fst snd launch box autosave ui boxes _worker _thread
         _transcription_engine TranscriberApp._file];
    repeat match goal with |- _ /\ _ => split end;
    intros; try congruence; try reflexivity;
    repeat match goal with
           | H : _ :: _ = _ :: _ |- _ => inversion H; subst; clear H
           | H : Some _ = Some _ |- _ => inversion H; subst; clear H
           end;
    repeat match goal with |- _ /\ _ => split end;
    try congruence; try reflexivity; try assumption;
    try (now rewrite <- app_assoc);
    try (now repeat constructor);
    try (eapply devices_from_least; eassumption).
Qed.

End StartSession.

Lemma start_session_outcomes_witness :
  let e := ready_env 5%nat [mic 2 0.5 true; mic 3 1 false] in
  (TranscriberApp._transcription_engine fresh_app = true \/
   TranscriberApp.model_found e = true /\ TranscriberApp.model_fails e = false)
  /\ TranscriberApp.makedirs_raises e = false
  /\ TranscriberApp.opened e = inl 5%nat /\
  let r := TranscriberApp.start_session e fresh_app in
  let stored := AppSettings.get_enabled_sources
                  (TranscriberApp.stored_sources e) in
  let devices := snd (AudioEngine_rest.list_input_devices
                        (TranscriberApp.infos e) AudioEngine_.__init__) in
  snd r = Ok tt /\
  TranscriberApp._transcription_engine (fst r) = true /\
  TranscriberApp._file (fst r) = Some 5%nat /\
  TranscriberApp.autosave (fst r)
  = AutosaveManager_.start 5%nat (TranscriberApp.minutes e * 60000)
      (TranscriberApp.autosave fresh_app) /\
  (stored <> [] ->
   TranscriberApp._worker (fst r) = Some stored /\
   TranscriberApp._thread (fst r) = true /\
   TranscriberApp.boxes (fst r) = TranscriberApp.boxes fresh_app /\
   TranscriberApp.ui (fst r)
   = TranscriberApp.ui fresh_app
     ++ [ui_clear_text; ui_set_state RUNNING; tray_set_state RUNNING]) /\
  (stored = [] ->
   forall dev rest,
     devices = dev :: rest ->
     TranscriberApp._worker (fst r) = Some [mic (index dev) 1 true] /\
     TranscriberApp._thread (fst r) = true /\
     TranscriberApp.boxes (fst r) = TranscriberApp.boxes fresh_app /\
     Forall (fun d => index dev <= index d) devices) /\
  (stored = [] -> devices = [] ->
   TranscriberApp._worker (fst r) = TranscriberApp._worker fresh_app /\
   TranscriberApp._thread (fst r) = TranscriberApp._thread fresh_app /\
   TranscriberApp.boxes (fst r)
   = TranscriberApp.boxes fresh_app
     ++ [("Audio Error", "No audio input devices found.")] /\
   TranscriberApp.ui (fst r) = TranscriberApp.ui fresh_app ++ [ui_clear_text]) /\
  (forall sources,
      TranscriberApp._worker fresh_app = None ->
      TranscriberApp._worker (fst r) = Some sources ->
      sources <> [] /\ Forall (fun s => is_enabled s = true) sources).
Proof.
  intros e.
  assert (H1 : TranscriberApp._transcription_engine fresh_app = true \/
               TranscriberApp.model_found e = true /\
               TranscriberApp.model_fails e = false)
    by (right; split; reflexivity).
  assert (H2 : TranscriberApp.makedirs_raises e = false) by reflexivity.
  assert (H3 : TranscriberApp.opened e = inl 5%nat) by reflexivity.
  split; [exact H1|]. split; [exact H2|]. split; [exact H3|].
  exact (start_session_outcomes e fresh_app 5%nat H1 H2 H3).
Defined.

(** A first session with stored sources starts as [recording] says. *)
Example start_session_recording :
  TranscriberApp.start_session (ready_env 5%nat [mic 2 0.5 true]) fresh_app
  = (recording 5%nat 300000 [mic 2 0.5 true], Ok tt).
Proof. reflexivity. Qed.

(** Without an enabled source and without a device the session file is
    left open and the timer running. *)
Example start_session_without_devices :
  let r := TranscriberApp.start_session (ready_env 5%nat [mic 3 1 false])
             fresh_app in
  TranscriberApp._file (fst r) = Some 5%nat /\
  _timer (TranscriberApp.autosave (fst r)) = Some 300000 /\
  TranscriberApp._worker (fst r) = None /\
  TranscriberApp.boxes (fst r)
  = [("Audio Error", "No audio input devices found.")].
Proof. cbn. auto. Qed.

(** ** Saving the settings dialog *)

Lemma saved_In (idx : Z) (sources : list Source) (s : Source) :
  SettingsDialog.saved idx sources = Some s ->
  In s sources /\ device_index s = idx.
Proof.
  induction sources as [|s0 rest IH]; cbn; [discriminate|].
  destruct (SettingsDialog.saved idx rest) as [later|].
  - intros H. inversion H; subst. destruct (IH eq_refl). auto.
  - destruct (Z.eqb_spec (device_index s0) idx); intros H; inversion H.
    subst. auto.
Qed.

Lemma row_init (d : Z) (g : float) (on : bool) (r : AudioSourceRow.row) :
  AudioSourceRow.__init__ d g on = Ok r ->
  AudioSourceRow.row_device_index r = d /\
  AudioSourceRow.checkbox r = on /\
  0 <= AudioSourceRow.slider r <= 200.
Proof.
  unfold AudioSourceRow.__init__, AudioSourceRow.setValue.
  destruct (int_of_float (g * 100)) as [pct|]; cbn [bind]; [|discriminate].
  destruct ((-2147483648 <=? pct) && (pct <=? 2147483647)); cbn [bind];
    [|discriminate].
  intros H. inversion H. cbn. repeat split; lia.
Qed.

(** The rows the dialog builds, one for each device and in their order. *)
Lemma source_rows_built (sources : list Source) (devices : list Device)
    (rows : list AudioSourceRow.row) :
  SettingsDialog._source_rows sources devices = Ok rows ->
  Forall2 (fun dev row =>
             AudioSourceRow.row_device_index row = index dev /\
             0 <= AudioSourceRow.slider row <= 200 /\
             (AudioSourceRow.checkbox row = true ->
              exists before,
                SettingsDialog.saved (index dev) sources = Some before /\
                enabled before = Some true) /\
             (SettingsDialog.saved (index dev) sources = None ->
              AudioSourceRow.to_dict row = mic (index dev) 1 false))
          devices rows.
Proof.
  revert rows. induction devices as [|dev rest IH]; intros rows H;
    cbn [SettingsDialog._source_rows] in H.
  - inversion H. constructor.
  - destruct (SettingsDialog.row_for sources dev) as [row|] eqn:Hrow;
      cbn [bind] in H; [|discriminate].
    destruct (SettingsDialog._source_rows sources rest) as [rows'|] eqn:Hrest;
      cbn [bind] in H; [|discriminate].
    inversion H; subst rows. clear H.
    constructor; [|now apply IH].
    unfold SettingsDialog.row_for in Hrow.
    destruct (SettingsDialog.saved (index dev) sources) as [s|] eqn:Hs.
    + apply row_init in Hrow as (R1 & R2 & R3).
      repeat split; auto; try lia; [|discriminate].
      intros Hc. exists s. split; [reflexivity|].
      rewrite R2 in Hc. destruct (enabled s) as [[|]|]; cbn in Hc;
        congruence.
    + assert (Hrow' : row = {| AudioSourceRow.row_device_index := index dev;
                               AudioSourceRow.slider := 100;
                               AudioSourceRow.checkbox := false |}).
      { cbv in Hrow. inversion Hrow. reflexivity. }
      subst row. cbn. repeat split; auto; try lia; discriminate.
Qed.

Lemma on_row_nth (f : AudioSourceRow.row -> AudioSourceRow.row)
    (rows : list AudioSourceRow.row) :
  forall i j,
    nth_error (SettingsDialog.on_row i f rows) j
    = if Nat.eqb j i then option_map f (nth_error rows j)
      else nth_error rows j.
Proof.
  induction rows as [|r rest IH]; intros i j; cbn [SettingsDialog.on_row].
  - destruct j as [|j]; cbn [nth_error option_map];
      [destruct (Nat.eqb 0 i)|destruct (Nat.eqb (S j) i)]; reflexivity.
  - destruct i as [|i], j as [|j]; cbn; try reflexivity. apply IH.
Qed.

Lemma on_row_Forall2 (P : Device -> AudioSourceRow.row -> Prop)
    (f : AudioSourceRow.row -> AudioSourceRow.row) :
  (forall dev r, P dev r -> P dev (f r)) ->
  forall devices rows i,
    Forall2 P devices rows ->
    Forall2 P devices (SettingsDialog.on_row i f rows).
Proof.
  intros Hf devices rows i H. revert i.
  induction H as [|dev r devices rows Hr Hrest IH]; intros i;
    cbn [SettingsDialog.on_row]; [constructor|].
  destruct i; constructor; auto.
Qed.

(** Whatever the user does, every row keeps its device and a slider
    position within the range. *)
Lemma edited_rows (devices : list Device) (edits : list SettingsDialog.edit) :
  forall rows,
    Forall2 (fun dev row =>
               AudioSourceRow.row_device_index row = index dev /\
               0 <= AudioSourceRow.slider row <= 200)
            devices rows ->
    Forall2 (fun dev row =>
               AudioSourceRow.row_device_index row = index dev /\
               0 <= AudioSourceRow.slider row <= 200)
            devices (SettingsDialog.edited edits rows).
Proof.
  unfold SettingsDialog.edited.
  induction edits as [|ed edits IH]; intros rows H; cbn [fold_left];
    [exact H|].
  apply IH. destruct ed as [i v|i on]; cbn [SettingsDialog.apply_edit];
    apply on_row_Forall2; auto; intros dev r [H1 H2]; cbn; split; auto; lia.
Qed.

(** A row that no edit names is as the dialog built it. *)
Lemma edited_untouched (i : nat) (edits : list SettingsDialog.edit) :
  forall rows,
    existsb (SettingsDialog.touches i) edits = false ->
    nth_error (SettingsDialog.edited edits rows) i = nth_error rows i.
Proof.
  unfold SettingsDialog.edited.
  induction edits as [|ed edits IH]; intros rows H; cbn [fold_left];
    [reflexivity|].
  cbn [existsb] in H. apply orb_false_iff in H as [Hed Hrest].
  rewrite (IH _ Hrest).
  destruct ed as [j v|j on]; cbn [SettingsDialog.apply_edit
                                  SettingsDialog.touches] in *;
    rewrite on_row_nth, Hed; reflexivity.
Qed.

Lemma edited_last (before : list SettingsDialog.edit)
    (ed : SettingsDialog.edit) (rows : list AudioSourceRow.row) :
  SettingsDialog.edited (before ++ [ed]) rows
  = SettingsDialog.apply_edit ed (SettingsDialog.edited before rows).
Proof. unfold SettingsDialog.edited. now rewrite fold_left_app. Qed.

Lemma Forall2_nth {A B : Type} (P : A -> B -> Prop) (l : list A)
    (l' : list B) :
  Forall2 P l l' ->
  forall i,
    match nth_error l i, nth_error l' i with
    | Some a, Some b => P a b
    | None, None => True
    | _, _ => False
    end.
Proof.
  induction 1 as [|a b l l' Hab _ IH]; intros [|i]; cbn; auto. apply IH.
Qed.

(** X24. Saving the settings dialog.  When the dialog could build its
    rows, then whatever the user does to the sliders and check boxes
    before pressing Save, what [_save] stores has exactly one entry for
    each listed input device, in the order of the devices, so stored
    entries of devices that are not present are dropped, and every stored
    gain is [v / 100.0] for a slider position [v] in 0..200.  The values
    stored are those of the widgets at that moment: the entry of a row
    whose check box or slider was set last holds that setting.  For a row
    the user did not touch, the entry is enabled only if the last stored
    entry of its device was, and a device without a stored entry is stored
    disabled at gain 1.0. *)
Theorem settings_dialog_save (sources : list Source) (devices : list Device)
    (rows : list AudioSourceRow.row) (edits : list SettingsDialog.edit) :
  SettingsDialog._source_rows sources devices = Ok rows ->
  let stored := SettingsDialog._save (SettingsDialog.edited edits rows) in
  map device_index stored = map index devices /\
  Forall (fun s => exists v,
              0 <= v <= 200 /\
              gain s = Some (AudioSourceRow.slider_gain v))
         stored /\
  (forall before i on,
      edits = before ++ [SettingsDialog.Tick i on] ->
      (i < List.length devices)%nat ->
      exists s, nth_error stored i = Some s /\ enabled s = Some on) /\
  (forall before i v,
      edits = before ++ [SettingsDialog.Slide i v] ->
      (i < List.length devices)%nat ->
      exists s,
        nth_error stored i = Some s /\
        gain s = Some (AudioSourceRow.slider_gain (Z.max 0 (Z.min 200 v)))) /\
  (forall i s,
      nth_error stored i = Some s ->
      existsb (SettingsDialog.touches i) edits = false ->
      enabled s = Some true ->
      exists before,
        SettingsDialog.saved (device_index s) sources = Some before /\
        enabled before = Some true) /\
  (forall i dev,
      nth_error devices i = Some dev ->
      existsb (SettingsDialog.touches i) edits = false ->
      SettingsDialog.saved (index dev) sources = None ->
      nth_error stored i = Some (mic (index dev) 1 false)).
Proof.
  intros Hrows stored. subst stored.
  pose proof (source_rows_built sources devices rows Hrows) as Hbuilt.
  assert (Hkept : Forall2 (fun dev row =>
                             AudioSourceRow.row_device_index row = index dev /\
                             0 <= AudioSourceRow.slider row <= 200)
                          devices (SettingsDialog.edited edits rows)).
  { apply edited_rows.
    eapply Forall2_impl; [|exact Hbuilt]. cbn. intros dev r H. tauto. }
  assert (Hlen : forall eds, List.length (SettingsDialog.edited eds rows)
                             = List.length devices).
  { intros eds. symmetry. eapply Forall2_length.
    apply (edited_rows devices eds).
    eapply Forall2_impl; [|exact Hbuilt]. cbn. intros dev r H. tauto. }
  unfold SettingsDialog._save.
  repeat match goal with |- _ /\ _ => split end.
  - clear - Hkept.
    induction Hkept as [|dev r ds rs [H1 _] _ IH]; [reflexivity|].
    cbn [map AudioSourceRow.to_dict device_index]. now rewrite H1, IH.
  - clear - Hkept.
    induction Hkept as [|dev r ds rs [_ H2] _ IH]; constructor; [|exact IH].
    exists (AudioSourceRow.slider r). split; [exact H2|reflexivity].
  - intros before i on -> Hi.
    rewrite edited_last. cbn [SettingsDialog.apply_edit].
    rewrite nth_error_map, on_row_nth, Nat.eqb_refl.
    destruct (nth_error (SettingsDialog.edited before rows) i) as [r|] eqn:Hr.
    + cbn. eexists. split; [reflexivity|reflexivity].
    + apply nth_error_None in Hr. rewrite Hlen in Hr. lia.
  - intros before i v -> Hi.
    rewrite edited_last. cbn [SettingsDialog.apply_edit].
    rewrite nth_error_map, on_row_nth, Nat.eqb_refl.
    destruct (nth_error (SettingsDialog.edited before rows) i) as [r|] eqn:Hr.
    + cbn. eexists. split; [reflexivity|reflexivity].
    + apply nth_error_None in Hr. rewrite Hlen in Hr. lia.
  - intros i s Hs Hun He.
    rewrite nth_error_map, (edited_untouched i edits rows Hun) in Hs.
    pose proof (Forall2_nth _ _ _ Hbuilt i) as Hi.
    destruct (nth_error rows i) as [r|]; [|discriminate].
    destruct (nth_error devices i) as [dev|]; [|contradiction].
    destruct Hi as (R1 & _ & R3 & _).
    cbn in Hs. inversion Hs; subst s.
    cbn [AudioSourceRow.to_dict device_index enabled] in *.
    rewrite R1. apply R3. congruence.
  - intros i dev Hdev Hun Hn.
    rewrite nth_error_map, (edited_untouched i edits rows Hun).
    pose proof (Forall2_nth _ _ _ Hbuilt i) as Hi.
    rewrite Hdev in Hi.
    destruct (nth_error rows i) as [r|]; [|contradiction].
    destruct Hi as (_ & _ & _ & R4). cbn. now rewrite R4.
Qed.

Lemma settings_dialog_save_witness :
  let sources := [mic 0 0.5 true; mic 7 1.5 true; mic 0 0.5 false] in
  let devices := [{| index := 0; name := "Built-in Microphone";
                     max_input_channels := 2 |};
                  {| index := 2; name := "USB Audio";
                     max_input_channels := 1 |}] in
  let rows := [{| AudioSourceRow.row_device_index := 0;
                  AudioSourceRow.slider := 50;
                  AudioSourceRow.checkbox := false |};
               {| AudioSourceRow.row_device_index := 2;
                  AudioSourceRow.slider := 100;
                  AudioSourceRow.checkbox := false |}] in
  let edits := [SettingsDialog.Slide 0 250; SettingsDialog.Tick 0 true] in
  SettingsDialog._source_rows sources devices = Ok rows /\
  let stored := SettingsDialog._save (SettingsDialog.edited edits rows) in
  map device_index stored = map index devices /\
  Forall (fun s => exists v,
              0 <= v <= 200 /\
              gain s = Some (AudioSourceRow.slider_gain v))
         stored /\
  (forall before i on,
      edits = before ++ [SettingsDialog.Tick i on] ->
      (i < List.length devices)%nat ->
      exists s, nth_error stored i = Some s /\ enabled s = Some on) /\
  (forall before i v,
      edits = before ++ [SettingsDialog.Slide i v] ->
      (i < List.length devices)%nat ->
      exists s,
        nth_error stored i = Some s /\
        gain s = Some (AudioSourceRow.slider_gain (Z.max 0 (Z.min 200 v)))) /\
  (forall i s,
      nth_error stored i = Some s ->
      existsb (SettingsDialog.touches i) edits = false ->
      enabled s = Some true ->
      exists before,
        SettingsDialog.saved (device_index s) sources = Some before /\
        enabled before = Some true) /\
  (forall i dev,
      nth_error devices i = Some dev ->
      existsb (SettingsDialog.touches i) edits = false ->
      SettingsDialog.saved (index dev) sources = None ->
      nth_error stored i = Some (mic (index dev) 1 false)).
Proof.
  intros sources devices rows edits.
  assert (H : SettingsDialog._source_rows sources devices = Ok rows)
    by (vm_compute; reflexivity).
  split; [exact H|].
  exact (settings_dialog_save sources devices rows edits H).
Defined.

(** A dialog in which the user enables the first device and pushes its
    slider to the end stores it enabled at gain 2.0, whatever was stored
    before. *)
Example settings_dialog_after_edits :
  SettingsDialog._save
    (SettingsDialog.edited
       [SettingsDialog.Slide 0 250; SettingsDialog.Tick 0 true]
       [{| AudioSourceRow.row_device_index := 0;
           AudioSourceRow.slider := 50;
           AudioSourceRow.checkbox := false |};
        {| AudioSourceRow.row_device_index := 2;
           AudioSourceRow.slider := 100;
           AudioSourceRow.checkbox := false |}])
  = [mic 0 2 true; mic 2 1 false].
Proof. vm_compute. reflexivity. Qed.
